(** * dexon-consensus core: node-set cache, DKG/TSIG protocol, consensus orchestrator

    A shallow embedding of the parts of
    - [core/nodeset-cache.go]      (NodeSetCache),
    - [core/dkg-tsig-protocol.go]  (NewDKGGroupPublicKey, TSigVerifierCache,
                                    tsigProtocol, dkgProtocol),
    - [core/consensus.go]          (NewConsensus, sanityCheck, preProcessBlock,
                                    processBlock, ConfirmBlock,
                                    ProcessWitnessAck)
    that the specification talks about, followed by the theorems.

    Conventions.
    - [uint64]/[uint32] values are [Z] with the wrap-around written out.
    - A [common.Hash] (32 bytes) is the number those bytes spell, an [N].
    - Go maps are [gmap], Go sets ([map[K]struct{}]) are [gset]; a [range]
      over a map is a fold over [map_to_list]/[elements] (the results below
      do not depend on the order).
    - Functions that mutate the receiver return the new receiver next to
      their Go results.
    - A nil-pointer dereference or an out-of-range index is [Panic].
    - [int] counters and [time.Time]/[time.Duration] values are [Z]
      (nanoseconds for the times); they stay far from the ends of their
      64 bits.
    - A governance has a configuration for every round it is asked about:
      [Configuration], [GetConfiguration] and [DKGSetSize] are total. (The
      code reads the fields of the configuration it gets without a nil
      check; what happens under a governance that returns nil there is
      outside the statements below.)
    - The cryptographic libraries and the modules of the repository whose
      sources are not part of the three files above are the fields of type
      classes ([NodeSetCache.Types], [TSig.DKGLib], [TSig.Helpers],
      [Consensus.Modules], [DKGProtocol.PrvLib]); [Examples] instantiates
      them. *)

From Stdlib Require Import ZArith Lia.
From stdpp Require Import gmap list fin_maps.

Local Open Scope Z_scope.

(** ** Common data *)

(** [common.Hash], [types.NodeID] (a hash) and rounds ([uint64]). *)
Abbreviation Hash := N (only parsing).
Abbreviation NodeID := N (only parsing).

(** The error values of package [core] that the modelled functions return;
    [ErrLibrary] stands for an error produced by another package (the
    crypto library, the reliable broadcast, ...): it is never one of the
    named values. *)
Inductive error : Type :=
  | ErrRoundNotReady
  | ErrInvalidChainID
  | ErrProposerNotInNodeSet
  | ErrIncorrectHash
  | ErrIncorrectSignature
  | ErrUnknownBlockConfirmed
  | ErrIncorrectBlockPosition
  | ErrIncorrectBlockTime
  | ErrNotQualifyDKGParticipant
  | ErrMismatchPartialSignatureHash
  | ErrIncorrectPartialSignatureSignature
  | ErrIncorrectPartialSignature
  | ErrNotEnoughtPartialSignatures
  | ErrRoundAlreadyPurged
  | ErrLibrary (code : N).

(** What a Go call gives back: a value, an [error], or a run-time panic. *)
Inductive result (A : Type) : Type :=
  | Ok (a : A)
  | Err (e : error)
  | Panic.
Arguments Ok {A} a.
Arguments Err {A} e.
Arguments Panic {A}.

Definition uint64_mod : Z := 2 ^ 64.

(** [a - b] on [uint64]. *)
Definition sub64 (a b : Z) : Z := (a - b) mod uint64_mod.

Definition is_uint64 (a : Z) : Prop := 0 <= a < uint64_mod.

(** ** core/nodeset-cache.go *)

Module NodeSetCache.

(** What the cache needs from packages [crypto] and [types]:
    [crypto.PublicKey] is an interface and [types.NewNodeID] hashes its
    bytes; [types.NodeSet.GetSubSet] and the two target constructors pick
    the notary and DKG subsets. *)
Class Types : Type := {
  PublicKey : Type;
  NewNodeID : PublicKey -> NodeID;
  SubSetTarget : Type;
  NewDKGSetTarget : Hash -> SubSetTarget;
  NewNotarySetTarget : Hash -> Z -> SubSetTarget;
  GetSubSet : gset NodeID -> Z -> SubSetTarget -> gset NodeID
}.

Section Cache.
Context `{Types}.

(** The fields of [types.Config] read by [update]. *)
Record Config : Type := mkConfig {
  NumChains : Z;
  NumNotarySet : Z;
  NumDKGSet : Z
}.

(** The part of the [Governance] interface the cache calls. [NodeSet]
    returns a slice: [None] is the nil slice, [Some []] an empty one. *)
Record Governance : Type := mkGovernance {
  NodeSet : Z -> option (list PublicKey);
  Configuration : Z -> Config;
  CRS : Z -> Hash
}.

Record sets : Type := mkSets {
  nodeSet : gset NodeID;
  notarySet : list (gset NodeID);
  dkgSet : gset NodeID
}.

Record keyRec : Type := mkKeyRec {
  pubKey : PublicKey;
  refCnt : Z
}.

Record NodeSetCache : Type := mkCache {
  rounds : gmap Z sets;
  keyPool : gmap NodeID keyRec
}.

Definition NewNodeSetCache : NodeSetCache :=
  {| rounds := ∅; keyPool := ∅ |}.

(** [get]: a plain lookup. *)
Definition get (cache : NodeSetCache) (round : Z) : option sets :=
  rounds cache !! round.

(** Body of the first loop of [update] for one key. *)
Definition cacheKey (acc : gset NodeID * gmap NodeID keyRec)
    (key : PublicKey) : gset NodeID * gmap NodeID keyRec :=
  let nID := NewNodeID key in
  let pool :=
    match acc.2 !! nID with
    | Some rec => <[nID := {| pubKey := pubKey rec; refCnt := refCnt rec + 1 |}]> acc.2
    | None => <[nID := {| pubKey := key; refCnt := 1 |}]> acc.2
    end in
  ({[nID]} ∪ acc.1, pool).

Definition cacheKeys (keySet : list PublicKey) (pool : gmap NodeID keyRec)
    : gset NodeID * gmap NodeID keyRec :=
  foldl cacheKey (∅, pool) keySet.

(** [rec := cache.keyPool[nID]; if rec.refCnt--; rec.refCnt == 0 { delete }].
    A missing record is a nil pointer: [None] is the panic. *)
Definition releaseKey (pool : gmap NodeID keyRec) (nID : NodeID)
    : option (gmap NodeID keyRec) :=
  match pool !! nID with
  | None => None
  | Some rec =>
      let c := refCnt rec - 1 in
      if c =? 0 then Some (delete nID pool)
      else Some (<[nID := {| pubKey := pubKey rec; refCnt := c |}]> pool)
  end.

Fixpoint releaseKeys (pool : gmap NodeID keyRec) (ids : list NodeID)
    : option (gmap NodeID keyRec) :=
  match ids with
  | [] => Some pool
  | nID :: ids' =>
      match releaseKey pool nID with
      | None => None
      | Some pool' => releaseKeys pool' ids'
      end
  end.

(** The test of the purge loop: [round-rID <= 5] on [uint64]. *)
Definition keeps (round rID : Z) : bool := sub64 round rID <=? 5.

(** Body of the purge loop for one entry of [cache.rounds]. *)
Definition purgeRound (round : Z) (cache : NodeSetCache) (entry : Z * sets)
    : option NodeSetCache :=
  if keeps round entry.1 then Some cache
  else
    match releaseKeys (keyPool cache) (elements (nodeSet entry.2)) with
    | None => None
    | Some pool => Some {| rounds := delete entry.1 (rounds cache); keyPool := pool |}
    end.

Fixpoint purgeRounds (round : Z) (cache : NodeSetCache)
    (entries : list (Z * sets)) : option NodeSetCache :=
  match entries with
  | [] => Some cache
  | e :: entries' =>
      match purgeRound round cache e with
      | None => None
      | Some cache' => purgeRounds round cache' entries'
      end
  end.

(** The [sets] value [update] builds for a round. *)
Definition newSets (gov : Governance) (round : Z) (ns : gset NodeID) : sets :=
  let cfg := Configuration gov round in
  let crs := CRS gov round in
  {| nodeSet := ns;
     notarySet :=
       map (fun i => GetSubSet ns (NumNotarySet cfg)
                       (NewNotarySetTarget crs (Z.of_nat i)))
           (seq 0 (Z.to_nat (NumChains cfg)));
     dkgSet := GetSubSet ns (NumDKGSet cfg) (NewDKGSetTarget crs) |}.

(** The cache after the new round is stored and before the purge loop. *)
Definition stored (gov : Governance) (cache : NodeSetCache) (round : Z)
    (keySet : list PublicKey) : NodeSetCache :=
  let acc := cacheKeys keySet (keyPool cache) in
  {| rounds := <[round := newSets gov round acc.1]> (rounds cache);
     keyPool := acc.2 |}.

(** [update]. *)
Definition update (gov : Governance) (cache : NodeSetCache) (round : Z)
    : result sets * NodeSetCache :=
  match NodeSet gov round with
  | None => (Err ErrRoundNotReady, cache)
  | Some keySet =>
      let cache1 := stored gov cache round keySet in
      match purgeRounds round cache1 (map_to_list (rounds cache1)) with
      | None => (Panic, cache1)
      | Some cache2 =>
          (Ok (newSets gov round (cacheKeys keySet (keyPool cache)).1), cache2)
      end
  end.

(** [getOrUpdate]. *)
Definition getOrUpdate (gov : Governance) (cache : NodeSetCache) (round : Z)
    : result sets * NodeSetCache :=
  match get cache round with
  | Some s => (Ok s, cache)
  | None => update gov cache round
  end.

(** [Exists]. *)
Definition Exists (gov : Governance) (cache : NodeSetCache) (round : Z)
    (nodeID : NodeID) : result bool * NodeSetCache :=
  match get cache round with
  | Some nIDs => (Ok (bool_decide (nodeID ∈ nodeSet nIDs)), cache)
  | None =>
      match update gov cache round with
      | (Ok nIDs, cache') => (Ok (bool_decide (nodeID ∈ nodeSet nIDs)), cache')
      | (Err e, cache') => (Err e, cache')
      | (Panic, cache') => (Panic, cache')
      end
  end.

(** [GetPublicKey]. *)
Definition GetPublicKey (cache : NodeSetCache) (nodeID : NodeID)
    : option PublicKey :=
  pubKey <$> keyPool cache !! nodeID.

(** [GetNodeSet]; [Clone] copies the set. *)
Definition GetNodeSet (gov : Governance) (cache : NodeSetCache) (round : Z)
    : result (gset NodeID) * NodeSetCache :=
  match get cache round with
  | Some IDs => (Ok (nodeSet IDs), cache)
  | None =>
      match update gov cache round with
      | (Ok IDs, cache') => (Ok (nodeSet IDs), cache')
      | (Err e, cache') => (Err e, cache')
      | (Panic, cache') => (Panic, cache')
      end
  end.

(** [cloneMap]: a fresh map with the same keys. *)
Definition cloneMap (nIDs : gset NodeID) : gset NodeID :=
  foldr (fun k acc => {[k]} ∪ acc) ∅ (elements nIDs).

(** [GetNotarySet]; [chainID] is a [uint32]. *)
Definition GetNotarySet (gov : Governance) (cache : NodeSetCache) (round : Z)
    (chainID : Z) : result (gset NodeID) * NodeSetCache :=
  match getOrUpdate gov cache round with
  | (Ok IDs, cache') =>
      if Z.of_nat (length (notarySet IDs)) mod 2 ^ 32 <=? chainID
      then (Err ErrInvalidChainID, cache')
      else
        match notarySet IDs !! Z.to_nat chainID with
        | Some s => (Ok (cloneMap s), cache')
        | None => (Panic, cache')
        end
  | (Err e, cache') => (Err e, cache')
  | (Panic, cache') => (Panic, cache')
  end.

(** [GetDKGSet]. *)
Definition GetDKGSet (gov : Governance) (cache : NodeSetCache) (round : Z)
    : result (gset NodeID) * NodeSetCache :=
  match getOrUpdate gov cache round with
  | (Ok IDs, cache') => (Ok (cloneMap (dkgSet IDs)), cache')
  | (Err e, cache') => (Err e, cache')
  | (Panic, cache') => (Panic, cache')
  end.

(** *** Vocabulary for the statements about the cache *)

(** The reference count the key pool keeps for a node (0 when absent). *)
Definition refCount (pool : gmap NodeID keyRec) (n : NodeID) : Z :=
  match pool !! n with
  | Some rec => refCnt rec
  | None => 0
  end.

(** How many of the listed rounds have [n] in their node set. *)
Definition holders (n : NodeID) (entries : list (Z * sets)) : Z :=
  Z.of_nat (length (filter (fun e : Z * sets => n ∈ nodeSet e.2) entries)).

(** How many cached rounds have [n] in their node set. *)
Definition references (cache : NodeSetCache) (n : NodeID) : Z :=
  holders n (map_to_list (rounds cache)).

(** How often the node ID [n] occurs in a key list of the governance. *)
Definition occurrences (n : NodeID) (keySet : list PublicKey) : Z :=
  Z.of_nat (length (filter (fun key => NewNodeID key = n) keySet)).

(** Every record of the pool has a positive count. *)
Definition pool_wf (pool : gmap NodeID keyRec) : Prop :=
  forall n rec, pool !! n = Some rec -> 0 < refCnt rec.

(** The cache is consistent when the pool counts, for every node, exactly
    the cached rounds the node is a member of. *)
Definition consistent (cache : NodeSetCache) : Prop :=
  pool_wf (keyPool cache) /\
  forall n, refCount (keyPool cache) n = references cache n.

(** The entries the purge loop of [update round] deletes. *)
Definition purged (round : Z) (e : Z * sets) : Prop := keeps round e.1 = false.

#[global] Instance purged_dec round e : Decision (purged round e).
Proof. unfold purged. apply _. Defined.

(** The caches a program can build: from [NewNodeSetCache], by the four
    operations that fill the cache, under governances whose node sets
    list every key once. *)
Definition distinct_keys (gov : Governance) : Prop :=
  forall round keySet, NodeSet gov round = Some keySet ->
    NoDup (NewNodeID <$> keySet).

(** Every cached round is one the governance has published a node set
    for: what holds of a cache filled by asking this governance. *)
Definition agrees (gov : Governance) (cache : NodeSetCache) : Prop :=
  forall r, is_Some (rounds cache !! r) -> is_Some (NodeSet gov r).

Inductive reachable : NodeSetCache -> Prop :=
  | reachable_new : reachable NewNodeSetCache
  | reachable_Exists gov cache round nodeID :
      reachable cache -> distinct_keys gov ->
      reachable (Exists gov cache round nodeID).2
  | reachable_GetNodeSet gov cache round :
      reachable cache -> distinct_keys gov ->
      reachable (GetNodeSet gov cache round).2
  | reachable_GetNotarySet gov cache round chainID :
      reachable cache -> distinct_keys gov ->
      reachable (GetNotarySet gov cache round chainID).2
  | reachable_GetDKGSet gov cache round :
      reachable cache -> distinct_keys gov ->
      reachable (GetDKGSet gov cache round).2.

(** *** More vocabulary: keys, and the pool after a purge *)

(** Every record of the pool holds a key of the node it is stored under. *)
Definition keys_match (pool : gmap NodeID keyRec) : Prop :=
  forall n rec, pool !! n = Some rec -> NewNodeID (pubKey rec) = n.

(** A record whose count is lowered by [d]: it goes when nothing is
    left. *)
Definition lowerRec (d : Z) (rec : keyRec) : option keyRec :=
  if refCnt rec - d =? 0 then None
  else Some {| pubKey := pubKey rec; refCnt := refCnt rec - d |}.

(** All cached rounds are [uint64] values. *)
Definition uint64_rounds (cache : NodeSetCache) : Prop :=
  forall r, is_Some (rounds cache !! r) -> is_uint64 r.

(** The rounds [update round] keeps: [round] itself and the five before
    it, on [uint64]. *)
Definition window (round : Z) : list Z :=
  map (fun k => sub64 round k) [0; 1; 2; 3; 4; 5].

End Cache.
End NodeSetCache.

(** ** core/dkg-tsig-protocol.go *)

(** What a function of another package gives back: a value or an error of
    that package (never one of the named errors of [core]). *)
Inductive libres (A : Type) : Type :=
  | LibOk (a : A)
  | LibErr (code : N).
Arguments LibOk {A} a.
Arguments LibErr {A} code.

Module TSig.

(** [dkg.ID]: the bytes of a BLS identifier, read as a number. *)
Abbreviation ID := N (only parsing).

(** The operations of package [crypto/dkg] (an opaque pairing library).
    Methods that fill their receiver return the new receiver.
    [dkg.PartialSignature] is [crypto.Signature] under another name. *)
Class DKGLib : Type := {
  PublicKeyShares : Type;
  DKGPublicKey : Type;
  DKGPrivateKey : Type;
  Signature : Type;
  NewEmptyPublicKeyShares : PublicKeyShares;
  Share : PublicKeyShares -> ID -> libres DKGPublicKey;
  AddShare : PublicKeyShares -> ID -> DKGPublicKey -> libres PublicKeyShares;
  RecoverPublicKey : PublicKeyShares -> list ID -> libres DKGPublicKey;
  RecoverGroupPublicKey : list PublicKeyShares -> DKGPublicKey;
  VerifyPrvShare : PublicKeyShares -> ID -> DKGPrivateKey -> libres bool;
  VerifySignature : DKGPublicKey -> Hash -> Signature -> bool;
  RecoverSignature : list Signature -> list ID -> libres Signature
}.

Section Protocol.
Context `{DKGLib}.

Record DKGMasterPublicKey : Type := mkMPK {
  mpk_ProposerID : NodeID;
  mpk_Round : Z;
  mpk_DKGID : ID;
  mpk_PublicKeyShares : PublicKeyShares
}.

Record DKGPrivateShare : Type := mkPrvShare {
  prv_ProposerID : NodeID;
  prv_ReceiverID : NodeID;
  prv_Round : Z;
  prv_PrivateShare : DKGPrivateKey
}.

Record DKGComplaint : Type := mkComplaint {
  cpl_ProposerID : NodeID;
  cpl_Round : Z;
  cpl_PrivateShare : DKGPrivateShare
}.

Record DKGPartialSignature : Type := mkPSig {
  psig_ProposerID : NodeID;
  psig_Round : Z;
  psig_Hash : Hash;
  psig_PartialSignature : Signature;
  psig_Signature : N
}.

(** Two helpers of the repository that are not in this file:
    [types.DKGComplaint.IsNack], and [verifyDKGPartialSignatureSignature],
    which recovers the signer of a partial signature (a library error when
    the recovery fails). *)
Class Helpers : Type := {
  IsNack : DKGComplaint -> bool;
  verifyDKGPartialSignatureSignature : DKGPartialSignature -> libres bool
}.
Context `{Helpers}.

Record DKGGroupPublicKey : Type := mkGPK {
  round : Z;
  qualifyIDs : list ID;
  qualifyNodeIDs : gset NodeID;
  idMap : gmap NodeID ID;
  publicKeys : gmap NodeID DKGPublicKey;
  groupPublicKey : DKGPublicKey;
  threshold : Z
}.

(** The accused of a complaint: [complaint.PrivateShare.ProposerID]. *)
Definition accused (c : DKGComplaint) : NodeID :=
  prv_ProposerID (cpl_PrivateShare c).

(** First loop of [NewDKGGroupPublicKey]: [(disqualifyIDs, complaintsByID)]. *)
Definition tallyComplaint (acc : gset NodeID * gmap NodeID Z)
    (complaint : DKGComplaint) : gset NodeID * gmap NodeID Z :=
  if IsNack complaint
  then (acc.1, <[accused complaint := default 0 (acc.2 !! accused complaint) + 1]> acc.2)
  else ({[accused complaint]} ∪ acc.1, acc.2).

Definition tallyComplaints (complaints : list DKGComplaint)
    : gset NodeID * gmap NodeID Z :=
  foldl tallyComplaint (∅, ∅) complaints.

(** Second loop: nodes with more than [threshold] nack complaints. *)
Definition overThreshold (threshold : Z) (disqualifyIDs : gset NodeID)
    (entry : NodeID * Z) : gset NodeID :=
  if threshold <? entry.2 then {[entry.1]} ∪ disqualifyIDs else disqualifyIDs.

Definition disqualified (complaints : list DKGComplaint) (threshold : Z)
    : gset NodeID :=
  let acc := tallyComplaints complaints in
  foldl (overThreshold threshold) acc.1 (map_to_list acc.2).

(** Third loop: the qualified master public keys. *)
Record qualified : Type := mkQualified {
  q_mpkMap : gmap ID DKGMasterPublicKey;
  q_idMap : gmap NodeID ID;
  q_qualifyIDs : list ID;
  q_qualifyNodeIDs : gset NodeID
}.

Definition qualifyStep (disqualifyIDs : gset NodeID) (q : qualified)
    (mpk : DKGMasterPublicKey) : qualified :=
  if bool_decide (mpk_ProposerID mpk ∈ disqualifyIDs) then q
  else
    {| q_mpkMap := <[mpk_DKGID mpk := mpk]> (q_mpkMap q);
       q_idMap := <[mpk_ProposerID mpk := mpk_DKGID mpk]> (q_idMap q);
       q_qualifyIDs := q_qualifyIDs q ++ [mpk_DKGID mpk];
       q_qualifyNodeIDs := {[mpk_ProposerID mpk]} ∪ q_qualifyNodeIDs q |}.

Definition qualify (disqualifyIDs : gset NodeID)
    (mpks : list DKGMasterPublicKey) : qualified :=
  foldl (qualifyStep disqualifyIDs)
        {| q_mpkMap := ∅; q_idMap := ∅; q_qualifyIDs := []; q_qualifyNodeIDs := ∅ |}
        mpks.

(** Inner loop of the public-key recovery: the shares every qualified
    member holds for [recvID]. *)
Fixpoint collectShares (mpkMap : gmap ID DKGMasterPublicKey) (recvID : ID)
    (pubShares : PublicKeyShares) (ids : list ID) : result PublicKeyShares :=
  match ids with
  | [] => Ok pubShares
  | id :: ids' =>
      match mpkMap !! id with
      | None => Panic
      | Some mpk =>
          match Share (mpk_PublicKeyShares mpk) recvID with
          | LibErr e => Err (ErrLibrary e)
          | LibOk pubShare =>
              match AddShare pubShares id pubShare with
              | LibErr e => Err (ErrLibrary e)
              | LibOk pubShares' => collectShares mpkMap recvID pubShares' ids'
              end
          end
      end
  end.

(** Outer loop: [pubKeys]. *)
Fixpoint recoverPublicKeys (mpkMap : gmap ID DKGMasterPublicKey)
    (qualifyIDs : list ID) (pubKeys : gmap NodeID DKGPublicKey)
    (recvIDs : list ID) : result (gmap NodeID DKGPublicKey) :=
  match recvIDs with
  | [] => Ok pubKeys
  | recvID :: recvIDs' =>
      match collectShares mpkMap recvID NewEmptyPublicKeyShares qualifyIDs with
      | Ok pubShares =>
          match RecoverPublicKey pubShares qualifyIDs with
          | LibErr e => Err (ErrLibrary e)
          | LibOk pubKey =>
              match mpkMap !! recvID with
              | None => Panic
              | Some mpk =>
                  recoverPublicKeys mpkMap qualifyIDs
                    (<[mpk_ProposerID mpk := pubKey]> pubKeys) recvIDs'
              end
          end
      | Err e => Err e
      | Panic => Panic
      end
  end.

(** Last loop: the shares the group public key is recovered from. *)
Fixpoint groupShares (mpkMap : gmap ID DKGMasterPublicKey) (ids : list ID)
    : result (list PublicKeyShares) :=
  match ids with
  | [] => Ok []
  | id :: ids' =>
      match mpkMap !! id with
      | None => Panic
      | Some mpk =>
          match groupShares mpkMap ids' with
          | Ok l => Ok (mpk_PublicKeyShares mpk :: l)
          | Err e => Err e
          | Panic => Panic
          end
      end
  end.

(** [NewDKGGroupPublicKey]. [make] with a negative capacity panics. *)
Definition NewDKGGroupPublicKey (round : Z) (mpks : list DKGMasterPublicKey)
    (complaints : list DKGComplaint) (threshold : Z) : result DKGGroupPublicKey :=
  let disqualifyIDs := disqualified complaints threshold in
  if Z.of_nat (length mpks) - Z.of_nat (size disqualifyIDs) <? 0 then Panic
  else
    let q := qualify disqualifyIDs mpks in
    match recoverPublicKeys (q_mpkMap q) (q_qualifyIDs q) ∅ (q_qualifyIDs q) with
    | Ok pubKeys =>
        match groupShares (q_mpkMap q) (q_qualifyIDs q) with
        | Ok pubShares =>
            Ok {| round := round;
                  qualifyIDs := q_qualifyIDs q;
                  qualifyNodeIDs := q_qualifyNodeIDs q;
                  idMap := q_idMap q;
                  publicKeys := pubKeys;
                  groupPublicKey := RecoverGroupPublicKey pubShares;
                  threshold := threshold |}
        | Err e => Err e
        | Panic => Panic
        end
    | Err e => Err e
    | Panic => Panic
    end.

(** [TSigVerifierCache]; the only [TSigVerifier] is a [DKGGroupPublicKey]. *)
Record TSigVerifierCache : Type := mkVerifierCache {
  verifier : gmap Z DKGGroupPublicKey;
  minRound : Z;
  cacheSize : Z
}.

(** The part of [Governance] that [Update] calls; [DKGSetSize] is the
    field of [Configuration(round)] it reads (a [uint32]). *)
Record Governance : Type := mkGovernance {
  IsDKGFinal : Z -> bool;
  DKGMasterPublicKeys : Z -> list DKGMasterPublicKey;
  DKGComplaints : Z -> list DKGComplaint;
  DKGSetSize : Z -> Z
}.

Definition NewTSigVerifierCache (cacheSize : Z) : TSigVerifierCache :=
  {| verifier := ∅; minRound := 0; cacheSize := cacheSize |}.

(** The threshold [Update] hands to [NewDKGGroupPublicKey]:
    [int(tc.gov.Configuration(round).DKGSetSize/3)+1]. *)
Definition updateThreshold (gov : Governance) (round : Z) : Z :=
  DKGSetSize gov round / 3 + 1.

(** The last loop of [Update] walks the [uint64] circle upwards from
    [minRound] until it meets a cached round: the first cached round at or
    after [minRound], else (after the wrap) the smallest cached round; on
    an empty map it never ends ([None]). *)
Definition least (l : list Z) : option Z :=
  foldr (fun x acc => match acc with None => Some x | Some y => Some (Z.min x y) end) None l.

Definition advanceMinRound (verifier : gmap Z DKGGroupPublicKey) (minRound : Z)
    : option Z :=
  let ks := (map_to_list verifier).*1 in
  match least (filter (fun k => minRound <= k) ks) with
  | Some k => Some k
  | None => least ks
  end.

(** [Update]: [None] when the call does not return. *)
Definition Update (gov : Governance) (tc : TSigVerifierCache) (round : Z)
    : option (result bool * TSigVerifierCache) :=
  if round <? minRound tc then Some (Err ErrRoundAlreadyPurged, tc)
  else
    match verifier tc !! round with
    | Some _ => Some (Ok true, tc)
    | None =>
        if negb (IsDKGFinal gov round) then Some (Ok false, tc)
        else
          match NewDKGGroupPublicKey round (DKGMasterPublicKeys gov round)
                  (DKGComplaints gov round) (updateThreshold gov round) with
          | Err e => Some (Err e, tc)
          | Panic => Some (Panic, tc)
          | Ok gpk =>
              let minRound1 :=
                if bool_decide (size (verifier tc) = 0%nat) then round else minRound tc in
              let verifier1 := <[round := gpk]> (verifier tc) in
              let verifier2 :=
                if cacheSize tc <? Z.of_nat (size verifier1)
                then delete minRound1 verifier1 else verifier1 in
              match advanceMinRound verifier2 minRound1 with
              | None => None
              | Some minRound2 =>
                  Some (Ok true,
                        {| verifier := verifier2; minRound := minRound2;
                           cacheSize := cacheSize tc |})
              end
          end
    end.

(** [tsigProtocol]; its own [threshold] field is never assigned. *)
Record tsigProtocol : Type := mkTSig {
  tsig_groupPublicKey : DKGGroupPublicKey;
  tsig_hash : Hash;
  tsig_sigs : gmap ID Signature;
  tsig_threshold : Z
}.

Definition newTSigProtocol (gpk : DKGGroupPublicKey) (hash : Hash) : tsigProtocol :=
  {| tsig_groupPublicKey := gpk; tsig_hash := hash; tsig_sigs := ∅;
     tsig_threshold := 0 |}.

(** [tsigProtocol.sanityCheck]: [None] is the nil error. *)
Definition sanityCheck (tsig : tsigProtocol) (psig : DKGPartialSignature)
    : option error :=
  match publicKeys (tsig_groupPublicKey tsig) !! psig_ProposerID psig with
  | None => Some ErrNotQualifyDKGParticipant
  | Some _ =>
      match verifyDKGPartialSignatureSignature psig with
      | LibErr e => Some (ErrLibrary e)
      | LibOk false => Some ErrIncorrectPartialSignatureSignature
      | LibOk true =>
          if bool_decide (psig_Hash psig = tsig_hash tsig) then None
          else Some ErrMismatchPartialSignatureHash
      end
  end.

(** [processPartialSignature]: the error (or nil) and the protocol after
    the call; [Panic] is the call through a nil public key. *)
Definition processPartialSignature (tsig : tsigProtocol)
    (psig : DKGPartialSignature) : result (option error) * tsigProtocol :=
  if negb (bool_decide (psig_Round psig = round (tsig_groupPublicKey tsig)))
  then (Ok None, tsig)
  else
    match idMap (tsig_groupPublicKey tsig) !! psig_ProposerID psig with
    | None => (Ok (Some ErrNotQualifyDKGParticipant), tsig)
    | Some id =>
        match sanityCheck tsig psig with
        | Some err => (Ok (Some err), tsig)
        | None =>
            match publicKeys (tsig_groupPublicKey tsig) !! psig_ProposerID psig with
            | None => (Panic, tsig)
            | Some pubKey =>
                if negb (VerifySignature pubKey (tsig_hash tsig)
                           (psig_PartialSignature psig))
                then (Ok (Some ErrIncorrectPartialSignature), tsig)
                else
                  (Ok None,
                   {| tsig_groupPublicKey := tsig_groupPublicKey tsig;
                      tsig_hash := tsig_hash tsig;
                      tsig_sigs := <[id := psig_PartialSignature psig]> (tsig_sigs tsig);
                      tsig_threshold := tsig_threshold tsig |})
            end
        end
    end.

(** [signature]: the two slices are filled in one pass over [tsig.sigs]. *)
Definition signature (tsig : tsigProtocol) : result Signature :=
  if Z.of_nat (size (tsig_sigs tsig)) <? threshold (tsig_groupPublicKey tsig)
  then Err ErrNotEnoughtPartialSignatures
  else
    let entries := map_to_list (tsig_sigs tsig) in
    match RecoverSignature entries.*2 entries.*1 with
    | LibOk sig => Ok sig
    | LibErr e => Err (ErrLibrary e)
    end.

(** *** Vocabulary for the statements about the DKG and the threshold
    signature *)

(** The number of nack complaints against [j] in the list. *)
Definition nacks (complaints : list DKGComplaint) (j : NodeID) : Z :=
  Z.of_nat (length (filter (fun c => IsNack c = true /\ accused c = j) complaints)).



(** The master public keys whose proposer is not in [disqualifyIDs], in
    the order of the list. *)
Definition qualifiedMpks (disqualifyIDs : gset NodeID)
    (mpks : list DKGMasterPublicKey) : list DKGMasterPublicKey :=
  filter (fun mpk => mpk_ProposerID mpk ∉ disqualifyIDs) mpks.

(** A partial signature passes every check of [processPartialSignature]:
    it is for the round of the group key, its proposer is qualified (has a
    DKG ID and a public key), its own signature verifies, it signs the
    hash of the protocol, and it verifies under the proposer's public
    key. *)
Definition accepts (tsig : tsigProtocol) (psig : DKGPartialSignature) : Prop :=
  psig_Round psig = round (tsig_groupPublicKey tsig) /\
  is_Some (idMap (tsig_groupPublicKey tsig) !! psig_ProposerID psig) /\
  verifyDKGPartialSignatureSignature psig = LibOk true /\
  psig_Hash psig = tsig_hash tsig /\
  exists pubKey,
    publicKeys (tsig_groupPublicKey tsig) !! psig_ProposerID psig = Some pubKey /\
    VerifySignature pubKey (tsig_hash tsig) (psig_PartialSignature psig) = true.

#[global] Instance accepts_dec tsig psig : Decision (accepts tsig psig).
Proof.
  unfold accepts.
  destruct (publicKeys (tsig_groupPublicKey tsig) !! psig_ProposerID psig) as [pubKey|].
  - destruct (VerifySignature pubKey (tsig_hash tsig) (psig_PartialSignature psig)) eqn:E.
    + destruct (decide (psig_Round psig = round (tsig_groupPublicKey tsig)));
        [|right; tauto].
      destruct (decide (is_Some (idMap (tsig_groupPublicKey tsig) !! psig_ProposerID psig)));
        [|right; tauto].
      destruct (verifyDKGPartialSignatureSignature psig) as [[|]|] eqn:Ev;
        [|right; intros (_ & _ & ? & _); congruence
         |right; intros (_ & _ & ? & _); congruence].
      destruct (decide (psig_Hash psig = tsig_hash tsig)); [|right; tauto].
      left. repeat split; try done. exists pubKey. done.
    + right. intros (_ & _ & _ & _ & pk & Hpk & Hv). simplify_eq. congruence.
  - right. intros (_ & _ & _ & _ & pk & Hpk & _). discriminate.
Defined.

(** A run of [processPartialSignature] over the messages received. *)
Definition processPartialSignatures (tsig : tsigProtocol)
    (psigs : list DKGPartialSignature) : tsigProtocol :=
  foldl (fun t psig => (processPartialSignature t psig).2) tsig psigs.

(** The DKG IDs of the signers whose partial signature was accepted. *)
Definition acceptedIDs (tsig : tsigProtocol) (psigs : list DKGPartialSignature)
    : gset ID :=
  list_to_set
    (omap (fun psig => idMap (tsig_groupPublicKey tsig) !! psig_ProposerID psig)
       (filter (accepts tsig) psigs)).



(** *** The rest of the verifier cache *)

(** [Get]. *)
Definition Get (tc : TSigVerifierCache) (round : Z) : option DKGGroupPublicKey :=
  verifier tc !! round.

(** [UpdateAndGet]: the verifier (if any) or the error of [Update];
    [None] when [Update] does not return. *)
Definition UpdateAndGet (gov : Governance) (tc : TSigVerifierCache) (round : Z)
    : option (result (option DKGGroupPublicKey) * TSigVerifierCache) :=
  match Update gov tc round with
  | None => None
  | Some (Err e, tc') => Some (Err e, tc')
  | Some (Panic, tc') => Some (Panic, tc')
  | Some (Ok false, tc') => Some (Ok None, tc')
  | Some (Ok true, tc') => Some (Ok (Get tc' round), tc')
  end.

(** The shape the verifier cache keeps: no cached round is below
    [minRound], [minRound] is cached unless nothing is, and no more than
    [cacheSize] rounds are cached. *)
Definition ordered (tc : TSigVerifierCache) : Prop :=
  (forall k, is_Some (verifier tc !! k) -> minRound tc <= k) /\
  (verifier tc <> ∅ -> is_Some (verifier tc !! minRound tc)) /\
  Z.of_nat (size (verifier tc)) <= cacheSize tc.

End Protocol.
End TSig.

(** ** core/consensus.go *)

Module Consensus.

Record Position : Type := mkPosition {
  ShardID : Z;
  ChainID : Z;
  Height : Z
}.

(** [types.Block]; [Timestamp] is a [time.Time] in nanoseconds. *)
Record Block : Type := mkBlock {
  ProposerID : NodeID;
  ParentHash : Hash;
  BlockPosition : Position;
  Timestamp : Z;
  Payload : list Byte.byte;
  Acks : gset Hash;
  BlockHash : Hash;
  BlockSignature : N
}.

Record WitnessAck : Type := mkWitnessAck {
  wa_ProposerID : NodeID;
  wa_WitnessBlockHash : Hash;
  wa_Hash : Hash;
  wa_Signature : N
}.

(** The fields of [types.Config] read in this file ([PhiRatio], a
    [float32], stays inside [newTotalOrdering]); the intervals are
    [time.Duration]s in nanoseconds. *)
Record Config : Type := mkConfig {
  NumChains : Z;
  K : Z;
  MinBlockInterval : Z;
  MaxBlockInterval : Z
}.

(** Calls on the application, through [nonBlocking]. *)
Inductive appEvent : Type :=
  | BlockConfirmed (hash : Hash)
  | StronglyAcked (hash : Hash)
  | TotalOrderingDelivered (hashes : list Hash) (early : bool)
  | BlockDelivered (b : Block).

(** The modules of package [core] and the helpers whose sources are not
    in this file. A method that changes its receiver returns the new
    receiver; an error of these modules is a number (it is none of the
    errors declared in [consensus.go]). *)
Class Modules `{NodeSetCache.Types} : Type := {
  hashBlock : Block -> libres Hash;
  SigToPub : Hash -> N -> libres NodeSetCache.PublicKey;
  IsGenesis : Block -> bool;
  reliableBroadcast : Type;
  newReliableBroadcast : reliableBroadcast;
  rb_setChainNum : reliableBroadcast -> Z -> reliableBroadcast;
  rb_addNode : reliableBroadcast -> NodeID -> reliableBroadcast;
  rb_chainNum : reliableBroadcast -> Z;
  rb_chainTime : reliableBroadcast -> Z -> Z;
  rb_processBlock : reliableBroadcast -> Block -> option N * reliableBroadcast;
  rb_extractBlocks : reliableBroadcast -> list Block * reliableBroadcast;
  totalOrdering : Type;
  newTotalOrdering : Config -> nat -> totalOrdering;
  to_processBlock :
    totalOrdering -> Block -> (list Block * bool * option N) * totalOrdering;
  consensusTimestamp : Type;
  newConsensusTimestamp : consensusTimestamp;
  ct_processBlocks :
    consensusTimestamp -> list Block -> (option N * list Block) * consensusTimestamp;
  blockDatabase : Type;
  db_Put : blockDatabase -> Block -> option N * blockDatabase;
  db_Update : blockDatabase -> Block -> option N * blockDatabase;
  compactionChain : Type;
  newCompactionChain : blockDatabase -> compactionChain;
  cc_processBlock : compactionChain -> Block -> (option N * Block) * compactionChain;
  cc_processWitnessAck : compactionChain -> WitnessAck -> option N * compactionChain;
  cc_witnessAcks : compactionChain -> gmap NodeID WitnessAck;
  agreement : Type;
  newAgreement : NodeID -> gset NodeID -> Hash -> agreement;
  ba_findCandidateBlock : agreement -> Hash -> option Block;
  ba_processBlock : agreement -> Block -> option N * agreement
}.

Section Core.
Context `{Modules}.

(** [Governance] as this file uses it: the calls of the node-set cache,
    [GetConfiguration] and [GetCRS]. *)
Record Governance : Type := mkGovernance {
  cacheGov : NodeSetCache.Governance;
  GetConfiguration : Z -> Config;
  GetCRS : Z -> Hash
}.

(** [dkgProtocol] as [newDKGProtocol] fills it, and the configuration
    chain that holds the registered one. *)
Record dkgProtocol : Type := mkDKGProtocol {
  dkg_ID : NodeID;
  dkg_round : Z;
  dkg_threshold : Z
}.

Definition newDKGProtocol (ID : NodeID) (round threshold : Z) : dkgProtocol :=
  {| dkg_ID := ID; dkg_round := round; dkg_threshold := threshold |}.

Record configurationChain : Type := mkCfgChain {
  cfg_ID : NodeID;
  cfg_dkg : option dkgProtocol
}.

Definition newConfigurationChain (ID : NodeID) : configurationChain :=
  {| cfg_ID := ID; cfg_dkg := None |}.

(** Modelled from the spec: [configurationChain.registerDKG] is not in the
    three files; the configuration chain "drives DKG for each round", and
    registering a round creates its [dkgProtocol] with [newDKGProtocol]. *)
Definition registerDKG (cc : configurationChain) (round threshold : Z)
    : configurationChain :=
  {| cfg_ID := cfg_ID cc; cfg_dkg := Some (newDKGProtocol (cfg_ID cc) round threshold) |}.

(** [consensusBAReceiver]; the channel is the queue of the values sent and
    not yet received. *)
Record consensusBAReceiver : Type := mkReceiver {
  recv_chainID : Z;
  restartNotary : list bool
}.

Record Consensus : Type := mkConsensus {
  ID : NodeID;
  currentConfig : Config;
  nbModule : list appEvent;
  baModules : list agreement;
  receivers : list consensusBAReceiver;
  cfgModule : configurationChain;
  rbModule : reliableBroadcast;
  toModule : totalOrdering;
  ctModule : consensusTimestamp;
  ccModule : compactionChain;
  db : blockDatabase;
  nodeSetCache : NodeSetCache.NodeSetCache;
  round : Z
}.

Definition with_nb (con : Consensus) (x : list appEvent) : Consensus :=
  mkConsensus (ID con) (currentConfig con) x (baModules con) (receivers con)
    (cfgModule con) (rbModule con) (toModule con) (ctModule con) (ccModule con)
    (db con) (nodeSetCache con) (round con).
Definition with_ba (con : Consensus) (x : list agreement) : Consensus :=
  mkConsensus (ID con) (currentConfig con) (nbModule con) x (receivers con)
    (cfgModule con) (rbModule con) (toModule con) (ctModule con) (ccModule con)
    (db con) (nodeSetCache con) (round con).
Definition with_receivers (con : Consensus) (x : list consensusBAReceiver) : Consensus :=
  mkConsensus (ID con) (currentConfig con) (nbModule con) (baModules con) x
    (cfgModule con) (rbModule con) (toModule con) (ctModule con) (ccModule con)
    (db con) (nodeSetCache con) (round con).
Definition with_rb (con : Consensus) (x : reliableBroadcast) : Consensus :=
  mkConsensus (ID con) (currentConfig con) (nbModule con) (baModules con) (receivers con)
    (cfgModule con) x (toModule con) (ctModule con) (ccModule con)
    (db con) (nodeSetCache con) (round con).
Definition with_to (con : Consensus) (x : totalOrdering) : Consensus :=
  mkConsensus (ID con) (currentConfig con) (nbModule con) (baModules con) (receivers con)
    (cfgModule con) (rbModule con) x (ctModule con) (ccModule con)
    (db con) (nodeSetCache con) (round con).
Definition with_ct (con : Consensus) (x : consensusTimestamp) : Consensus :=
  mkConsensus (ID con) (currentConfig con) (nbModule con) (baModules con) (receivers con)
    (cfgModule con) (rbModule con) (toModule con) x (ccModule con)
    (db con) (nodeSetCache con) (round con).
Definition with_cc (con : Consensus) (x : compactionChain) : Consensus :=
  mkConsensus (ID con) (currentConfig con) (nbModule con) (baModules con) (receivers con)
    (cfgModule con) (rbModule con) (toModule con) (ctModule con) x
    (db con) (nodeSetCache con) (round con).
Definition with_db (con : Consensus) (x : blockDatabase) : Consensus :=
  mkConsensus (ID con) (currentConfig con) (nbModule con) (baModules con) (receivers con)
    (cfgModule con) (rbModule con) (toModule con) (ctModule con) (ccModule con)
    x (nodeSetCache con) (round con).
Definition with_cache (con : Consensus) (x : NodeSetCache.NodeSetCache) : Consensus :=
  mkConsensus (ID con) (currentConfig con) (nbModule con) (baModules con) (receivers con)
    (cfgModule con) (rbModule con) (toModule con) (ctModule con) (ccModule con)
    (db con) x (round con).

(** The threshold [NewConsensus] registers the DKG of round 0 with:
    [len(nodes.IDs)/3]. *)
Definition initialThreshold (nodes : gset NodeID) : Z :=
  Z.of_nat (size nodes) / 3.

(** [NewConsensus]; [pub] is [prv.PublicKey()]. A failing [GetNodeSet(0)]
    panics. *)
Definition NewConsensus (gov : Governance) (db0 : blockDatabase)
    (pub : NodeSetCache.PublicKey) : result Consensus :=
  let round0 := 0 in
  let config := GetConfiguration gov round0 in
  let crs := GetCRS gov round0 in
  match NodeSetCache.GetNodeSet (cacheGov gov) NodeSetCache.NewNodeSetCache 0 with
  | (Ok nodes, cache) =>
      let rb := foldl rb_addNode (rb_setChainNum newReliableBroadcast (NumChains config))
                  (elements nodes) in
      let to := newTotalOrdering config (size nodes) in
      let ID0 := NodeSetCache.NewNodeID pub in
      let cfgModule0 := registerDKG (newConfigurationChain ID0) 0 (initialThreshold nodes) in
      let chains := seq 0 (Z.to_nat (NumChains config)) in
      Ok {| ID := ID0;
            currentConfig := config;
            nbModule := [];
            baModules := map (fun _ => newAgreement ID0 nodes crs) chains;
            receivers :=
              map (fun i => {| recv_chainID := Z.of_nat i; restartNotary := [] |}) chains;
            cfgModule := cfgModule0;
            rbModule := rb;
            toModule := to;
            ctModule := newConsensusTimestamp;
            ccModule := newCompactionChain db0;
            db := db0;
            nodeSetCache := cache;
            round := 0 |}
  | (Err _, _) => Panic
  | (Panic, _) => Panic
  end.

Definition errOf (e : option N) : option error :=
  match e with Some code => Some (ErrLibrary code) | None => None end.

(** [sanityCheck]: [None] is the nil error. *)
Definition sanityCheck (con : Consensus) (b : Block) : option error :=
  if negb (ShardID (BlockPosition b) =? 0)
     || (rb_chainNum (rbModule con) <=? ChainID (BlockPosition b))
  then Some ErrIncorrectBlockPosition
  else if negb (IsGenesis b)
          && ((Timestamp b <?
                 rb_chainTime (rbModule con) (ChainID (BlockPosition b))
                 + MinBlockInterval (currentConfig con))
              || (rb_chainTime (rbModule con) (ChainID (BlockPosition b))
                  + MaxBlockInterval (currentConfig con) <? Timestamp b))
  then Some ErrIncorrectBlockTime
  else
    match hashBlock b with
    | LibErr _ => Some ErrIncorrectHash
    | LibOk hash =>
        if negb (bool_decide (hash = BlockHash b)) then Some ErrIncorrectHash
        else
          match SigToPub (BlockHash b) (BlockSignature b) with
          | LibErr e => Some (ErrLibrary e)
          | LibOk pubKey =>
              if negb (bool_decide (ProposerID b = NodeSetCache.NewNodeID pubKey))
              then Some ErrIncorrectSignature
              else None
          end
    end.

(** [preProcessBlock]; indexing [baModules] out of range panics. *)
Definition preProcessBlock (con : Consensus) (b : Block)
    : result (option error) * Consensus :=
  match sanityCheck con b with
  | Some err => (Ok (Some err), con)
  | None =>
      match baModules con !! Z.to_nat (ChainID (BlockPosition b)) with
      | None => (Panic, con)
      | Some ba =>
          let '(err, ba') := ba_processBlock ba b in
          (Ok (errOf err),
           with_ba con (<[Z.to_nat (ChainID (BlockPosition b)) := ba']> (baModules con)))
      end
  end.

(** The loops of [processBlock]. Each returns the error that ends
    [processBlock] early (or nil) and the orchestrator so far. *)

(** The loop that puts every delivered block into the database. *)
Fixpoint putBlocks (con : Consensus) (blocks : list Block)
    : option error * Consensus :=
  match blocks with
  | [] => (None, con)
  | b :: blocks' =>
      let '(err, db') := db_Put (db con) b in
      match err with
      | Some code => (Some (ErrLibrary code), with_db con db')
      | None => putBlocks (with_db con db') blocks'
      end
  end.

(** The loop over [deliveredBlocks] that feeds the compaction chain. *)
Fixpoint compactBlocks (con : Consensus) (blocks : list Block)
    : option error * Consensus :=
  match blocks with
  | [] => (None, con)
  | b :: blocks' =>
      let '(err, b', cc') := cc_processBlock (ccModule con) b in
      match err with
      | Some code => (Some (ErrLibrary code), with_cc con cc')
      | None =>
          let '(err2, db') := db_Update (db (with_cc con cc')) b' in
          match err2 with
          | Some code => (Some (ErrLibrary code), with_db (with_cc con cc') db')
          | None =>
              let con' := with_db (with_cc con cc') db' in
              compactBlocks (with_nb con' (nbModule con' ++ [BlockDelivered b'])) blocks'
          end
      end
  end.

(** The loop over [con.rbModule.extractBlocks()]. *)
Fixpoint orderBlocks (con : Consensus) (blocks : list Block)
    : option error * Consensus :=
  match blocks with
  | [] => (None, con)
  | b :: blocks' =>
      let con1 := with_nb con (nbModule con ++ [StronglyAcked (BlockHash b)]) in
      let '(deliveredBlocks, earlyDelivered, err, to') :=
        to_processBlock (toModule con1) b in
      let con2 := with_to con1 to' in
      match err with
      | Some code => (Some (ErrLibrary code), con2)
      | None =>
          match deliveredBlocks with
          | [] => orderBlocks con2 blocks'
          | _ :: _ =>
              match putBlocks con2 deliveredBlocks with
              | (Some e, con3) => (Some e, con3)
              | (None, con3) =>
                  let con4 :=
                    with_nb con3
                      (nbModule con3 ++
                       [TotalOrderingDelivered (map BlockHash deliveredBlocks)
                          earlyDelivered]) in
                  let '(err3, timed, ct') :=
                    ct_processBlocks (ctModule con4) deliveredBlocks in
                  let con5 := with_ct con4 ct' in
                  match err3 with
                  | Some code => (Some (ErrLibrary code), con5)
                  | None =>
                      match compactBlocks con5 timed with
                      | (Some e, con6) => (Some e, con6)
                      | (None, con6) => orderBlocks con6 blocks'
                      end
                  end
              end
          end
      end
  end.

(** [processBlock]. *)
Definition processBlock (con : Consensus) (block : Block)
    : option error * Consensus :=
  match sanityCheck con block with
  | Some err => (Some err, con)
  | None =>
      let '(err, rb') := rb_processBlock (rbModule con) block in
      match err with
      | Some code => (Some (ErrLibrary code), with_rb con rb')
      | None =>
          let con1 := with_rb con rb' in
          let con2 := with_nb con1 (nbModule con1 ++ [BlockConfirmed (BlockHash block)]) in
          let '(blocks, rb'') := rb_extractBlocks (rbModule con2) in
          orderBlocks (with_rb con2 rb'') blocks
      end
  end.

(** [recv.restartNotary <- v] on the receiver of [chainID]. *)
Definition sendRestart (con : Consensus) (chainID : Z) (v : bool) : Consensus :=
  with_receivers con
    (map (fun r =>
            if bool_decide (recv_chainID r = chainID)
            then {| recv_chainID := recv_chainID r;
                    restartNotary := restartNotary r ++ [v] |}
            else r)
         (receivers con)).

(** [consensusBAReceiver.ConfirmBlock] of the receiver of [chainID]: what
    is logged (if anything) and the orchestrator after the call. *)
Definition ConfirmBlock (con : Consensus) (chainID : Z) (hash : Hash)
    : result (option error) * Consensus :=
  match baModules con !! Z.to_nat chainID with
  | None => (Panic, con)
  | Some ba =>
      match ba_findCandidateBlock ba hash with
      | None => (Ok (Some ErrUnknownBlockConfirmed), con)
      | Some block =>
          match processBlock con block with
          | (Some err, con') => (Ok (Some err), con')
          | (None, con') => (Ok None, sendRestart con' chainID false)
          end
      end
  end.

(** [ProcessWitnessAck]; the round is the local [var round uint64]. *)
Definition ProcessWitnessAck (gov : Governance) (con : Consensus)
    (witnessAck : WitnessAck) : result (option error) * Consensus :=
  let round0 := 0 in
  match NodeSetCache.Exists (cacheGov gov) (nodeSetCache con) round0
          (wa_ProposerID witnessAck) with
  | (Err e, cache') => (Ok (Some e), with_cache con cache')
  | (Panic, cache') => (Panic, with_cache con cache')
  | (Ok false, cache') => (Ok (Some ErrProposerNotInNodeSet), with_cache con cache')
  | (Ok true, cache') =>
      let '(err, cc') := cc_processWitnessAck (ccModule con) witnessAck in
      (Ok (errOf err), with_cc (with_cache con cache') cc')
  end.


(** *** Vocabulary for the statements about the orchestrator *)

(** The four tests of [sanityCheck]. *)
Definition positionOK (con : Consensus) (b : Block) : Prop :=
  ShardID (BlockPosition b) = 0 /\
  ChainID (BlockPosition b) < rb_chainNum (rbModule con).

Definition inInterval (con : Consensus) (b : Block) : Prop :=
  rb_chainTime (rbModule con) (ChainID (BlockPosition b))
    + MinBlockInterval (currentConfig con)
  <= Timestamp b
  <= rb_chainTime (rbModule con) (ChainID (BlockPosition b))
     + MaxBlockInterval (currentConfig con).

Definition hashOK (b : Block) : Prop := hashBlock b = LibOk (BlockHash b).

Definition signerOK (b : Block) : Prop :=
  exists pubKey,
    SigToPub (BlockHash b) (BlockSignature b) = LibOk pubKey /\
    ProposerID b = NodeSetCache.NewNodeID pubKey.


End Core.
End Consensus.

(** ** core/dkg-tsig-protocol.go: the DKG protocol of one node *)

Module DKGProtocol.
Import TSig.

(** The errors the methods of [dkgProtocol] return; [ErrDKGLibrary] is an
    error of the pairing or signature library. *)
Inductive dkgError : Type :=
  | ErrNotDKGParticipant
  | ErrIDShareNotFound
  | ErrNotReachThreshold
  | ErrIncorrectPrivateShareSignature
  | ErrDKGLibrary (code : N).

(** How a method ends: with an error or nil, or in a panic. *)
Inductive outcome : Type :=
  | Done (err : option dkgError)
  | Crash.

(** The private half of package [crypto/dkg], and two helpers of the
    repository: [newDKGID] ([dkg.NewID] of the node's hash) and
    [verifyDKGPrivateShareSignature]. [NewPrivateKeyShares] draws a random
    polynomial; here it is some function of the threshold. [zeroPrivateKey]
    and [zeroID] are the zero values of [dkg.PrivateKey] and [dkg.ID]. *)
Class PrvLib `{DKGLib} : Type := {
  PrivateKeyShares : Type;
  NewPrivateKeyShares : Z -> PrivateKeyShares * PublicKeyShares;
  NewEmptyPrivateKeyShares : PrivateKeyShares;
  SetParticipants : PrivateKeyShares -> list ID -> PrivateKeyShares;
  PrvShare : PrivateKeyShares -> ID -> option DKGPrivateKey;
  PrvAddShare : PrivateKeyShares -> ID -> DKGPrivateKey -> libres PrivateKeyShares;
  RecoverPrivateKey : PrivateKeyShares -> list ID -> libres DKGPrivateKey;
  zeroPrivateKey : DKGPrivateKey;
  zeroID : ID;
  newDKGID : NodeID -> ID;
  verifyDKGPrivateShareSignature : DKGPrivateShare -> libres bool
}.

Section Protocol.
Context `{Helpers} `{!PrvLib}.

(** The calls a [dkgProtocol] makes on its [dkgReceiver]. *)
Inductive proposal : Type :=
  | ProposeDKGComplaint (complaint : DKGComplaint)
  | ProposeDKGMasterPublicKey (mpk : DKGMasterPublicKey)
  | ProposeDKGPrivateShare (prv : DKGPrivateShare)
  | ProposeDKGAntiNackComplaint (prv : DKGPrivateShare)
  | ProposeDKGFinalize (proposer : NodeID) (round : Z).

(** [dkgProtocol]; [recv] is the list of the calls made on the receiver
    so far. *)
Record dkgProtocol : Type := mkDKG {
  ID : NodeID;
  recv : list proposal;
  round : Z;
  threshold : Z;
  idMap : gmap NodeID TSig.ID;
  mpkMap : gmap NodeID PublicKeyShares;
  masterPrivateShare : PrivateKeyShares;
  prvShares : PrivateKeyShares;
  prvSharesReceived : gset NodeID;
  nodeComplained : gset NodeID;
  antiComplaintReceived : gmap NodeID (gset NodeID)
}.

Definition propose (d : dkgProtocol) (p : proposal) : dkgProtocol :=
  mkDKG (ID d) (recv d ++ [p]) (round d) (threshold d) (idMap d) (mpkMap d)
    (masterPrivateShare d) (prvShares d) (prvSharesReceived d) (nodeComplained d)
    (antiComplaintReceived d).

(** [newDKGProtocol]. *)
Definition newDKGProtocol (ID0 : NodeID) (round0 threshold0 : Z) : dkgProtocol :=
  let '(prvShare, pubShare) := NewPrivateKeyShares threshold0 in
  {| ID := ID0;
     recv := [ProposeDKGMasterPublicKey
                {| mpk_ProposerID := ID0; mpk_Round := round0;
                   mpk_DKGID := newDKGID ID0; mpk_PublicKeyShares := pubShare |}];
     round := round0;
     threshold := threshold0;
     idMap := ∅;
     mpkMap := ∅;
     masterPrivateShare := prvShare;
     prvShares := NewEmptyPrivateKeyShares;
     prvSharesReceived := ∅;
     nodeComplained := ∅;
     antiComplaintReceived := ∅ |}.

(** The second loop of [processMasterPublicKeys]: a private share for
    every proposer. *)
Fixpoint sendPrivateShares (d : dkgProtocol) (mpks : list DKGMasterPublicKey)
    : option dkgError * dkgProtocol :=
  match mpks with
  | [] => (None, d)
  | mpk :: mpks' =>
      match PrvShare (masterPrivateShare d) (mpk_DKGID mpk) with
      | None => (Some ErrIDShareNotFound, d)
      | Some share =>
          sendPrivateShares
            (propose d
               (ProposeDKGPrivateShare
                  {| prv_ProposerID := ID d; prv_ReceiverID := mpk_ProposerID mpk;
                     prv_Round := round d; prv_PrivateShare := share |}))
            mpks'
      end
  end.

(** [processMasterPublicKeys]. *)
Definition processMasterPublicKeys (d : dkgProtocol) (mpks : list DKGMasterPublicKey)
    : option dkgError * dkgProtocol :=
  let idMap1 := foldl (fun m mpk => <[mpk_ProposerID mpk := mpk_DKGID mpk]> m) ∅ mpks in
  let mpkMap1 :=
    foldl (fun m mpk => <[mpk_ProposerID mpk := mpk_PublicKeyShares mpk]> m) ∅ mpks in
  let ids := map mpk_DKGID mpks in
  sendPrivateShares
    (mkDKG (ID d) (recv d) (round d) (threshold d) idMap1 mpkMap1
       (SetParticipants (masterPrivateShare d) ids) (prvShares d) ∅ (nodeComplained d)
       (antiComplaintReceived d))
    mpks.

(** The nack complaint of this node against [nID]: only the proposer and
    the round of the private share are set. *)
Definition nackComplaint (d : dkgProtocol) (nID : NodeID) : DKGComplaint :=
  {| cpl_ProposerID := ID d; cpl_Round := round d;
     cpl_PrivateShare :=
       {| prv_ProposerID := nID; prv_ReceiverID := 0%N; prv_Round := round d;
          prv_PrivateShare := zeroPrivateKey |} |}.

(** [proposeNackComplaints]; the keys of [mpkMap] are visited in the order
    of [map_to_list], one of the orders the Go map may be ranged in. *)
Definition proposeNackComplaints (d : dkgProtocol) : dkgProtocol :=
  foldl (fun d' nID =>
           if bool_decide (nID ∈ prvSharesReceived d') then d'
           else propose d' (ProposeDKGComplaint (nackComplaint d' nID)))
        d (map_to_list (mpkMap d)).*1.

(** [processNackComplaints]: the error is the last one met. *)
Definition processNackComplaint (acc : option dkgError * dkgProtocol)
    (complaint : DKGComplaint) : option dkgError * dkgProtocol :=
  let '(err, d) := acc in
  if negb (IsNack complaint) then acc
  else if negb (bool_decide (accused complaint = ID d)) then acc
  else
    match idMap d !! cpl_ProposerID complaint with
    | None => (Some ErrNotDKGParticipant, d)
    | Some id =>
        match PrvShare (masterPrivateShare d) id with
        | None => (Some ErrIDShareNotFound, d)
        | Some share =>
            (err,
             propose d
               (ProposeDKGAntiNackComplaint
                  {| prv_ProposerID := ID d; prv_ReceiverID := cpl_ProposerID complaint;
                     prv_Round := round d; prv_PrivateShare := share |}))
        end
    end.

Definition processNackComplaints (d : dkgProtocol) (complaints : list DKGComplaint)
    : option dkgError * dkgProtocol :=
  foldl processNackComplaint (None, d) complaints.

(** [enforceNackComplaints]. *)
Definition enforceNackComplaint (d : dkgProtocol) (complaint : DKGComplaint)
    : dkgProtocol :=
  if negb (IsNack complaint) then d
  else if bool_decide (accused complaint = ID d) then d
  else if bool_decide (cpl_ProposerID complaint = ID d) then d
  else if bool_decide
            (accused complaint ∈
               default ∅ (antiComplaintReceived d !! cpl_ProposerID complaint))
  then d
  else propose d (ProposeDKGComplaint (nackComplaint d (accused complaint))).

Definition enforceNackComplaints (d : dkgProtocol) (complaints : list DKGComplaint)
    : dkgProtocol :=
  foldl enforceNackComplaint d complaints.

(** [dkgProtocol.sanityCheck]. *)
Definition sanityCheck (d : dkgProtocol) (prvShare : DKGPrivateShare)
    : option dkgError :=
  match idMap d !! prv_ProposerID prvShare with
  | None => Some ErrNotDKGParticipant
  | Some _ =>
      match verifyDKGPrivateShareSignature prvShare with
      | LibErr e => Some (ErrDKGLibrary e)
      | LibOk false => Some ErrIncorrectPrivateShareSignature
      | LibOk true => None
      end
  end.

(** [processPrivateShare]; calling [VerifyPrvShare] through a missing
    master public key is the panic. *)
Definition processPrivateShare (d : dkgProtocol) (prvShare : DKGPrivateShare)
    : outcome * dkgProtocol :=
  if negb (bool_decide (round d = prv_Round prvShare)) then (Done None, d)
  else
    match idMap d !! prv_ReceiverID prvShare with
    | None => (Done None, d)
    | Some receiverID =>
        match sanityCheck d prvShare with
        | Some err => (Done (Some err), d)
        | None =>
            match mpkMap d !! prv_ProposerID prvShare with
            | None => (Crash, d)
            | Some mpk =>
                match VerifyPrvShare mpk receiverID (prv_PrivateShare prvShare) with
                | LibErr e => (Done (Some (ErrDKGLibrary e)), d)
                | LibOk ok =>
                    let d1 :=
                      if bool_decide (prv_ReceiverID prvShare = ID d)
                      then mkDKG (ID d) (recv d) (round d) (threshold d) (idMap d)
                             (mpkMap d) (masterPrivateShare d) (prvShares d)
                             ({[prv_ProposerID prvShare]} ∪ prvSharesReceived d)
                             (nodeComplained d) (antiComplaintReceived d)
                      else d in
                    if negb ok then
                      if bool_decide (prv_ProposerID prvShare ∈ nodeComplained d1)
                      then (Done None, d1)
                      else
                        (Done None,
                         propose
                           (mkDKG (ID d1) (recv d1) (round d1) (threshold d1) (idMap d1)
                              (mpkMap d1) (masterPrivateShare d1) (prvShares d1)
                              (prvSharesReceived d1)
                              ({[prv_ProposerID prvShare]} ∪ nodeComplained d1)
                              (antiComplaintReceived d1))
                           (ProposeDKGComplaint
                              {| cpl_ProposerID := ID d1; cpl_Round := round d1;
                                 cpl_PrivateShare := prvShare |}))
                    else if bool_decide (prv_ReceiverID prvShare = ID d1) then
                      let sender := default zeroID (idMap d1 !! prv_ProposerID prvShare) in
                      match PrvAddShare (prvShares d1) sender
                              (prv_PrivateShare prvShare) with
                      | LibErr e => (Done (Some (ErrDKGLibrary e)), d1)
                      | LibOk shares =>
                          (Done None,
                           mkDKG (ID d1) (recv d1) (round d1) (threshold d1) (idMap d1)
                             (mpkMap d1) (masterPrivateShare d1) shares
                             (prvSharesReceived d1) (nodeComplained d1)
                             (antiComplaintReceived d1))
                      end
                    else
                      let d2 :=
                        match antiComplaintReceived d1 !! prv_ReceiverID prvShare with
                        | Some _ => d1
                        | None =>
                            propose
                              (mkDKG (ID d1) (recv d1) (round d1) (threshold d1) (idMap d1)
                                 (mpkMap d1) (masterPrivateShare d1) (prvShares d1)
                                 (prvSharesReceived d1) (nodeComplained d1)
                                 (<[prv_ReceiverID prvShare := ∅]> (antiComplaintReceived d1)))
                              (ProposeDKGAntiNackComplaint prvShare)
                        end in
                      (Done None,
                       mkDKG (ID d2) (recv d2) (round d2) (threshold d2) (idMap d2)
                         (mpkMap d2) (masterPrivateShare d2) (prvShares d2)
                         (prvSharesReceived d2) (nodeComplained d2)
                         (<[prv_ReceiverID prvShare :=
                              {[prv_ProposerID prvShare]}
                              ∪ default ∅ (antiComplaintReceived d2
                                             !! prv_ReceiverID prvShare)]>
                            (antiComplaintReceived d2)))
                end
            end
        end
    end.

(** [proposeFinalize]. *)
Definition proposeFinalize (d : dkgProtocol) : dkgProtocol :=
  propose d (ProposeDKGFinalize (ID d) (round d)).

(** [recoverShareSecret]: the private key of the share secret. *)
Definition recoverShareSecret (d : dkgProtocol) (qualifyIDs : list TSig.ID)
    : dkgError + DKGPrivateKey :=
  if Z.of_nat (length qualifyIDs) <? threshold d then inl ErrNotReachThreshold
  else
    match RecoverPrivateKey (prvShares d) qualifyIDs with
    | LibErr e => inl (ErrDKGLibrary e)
    | LibOk prvKey => inr prvKey
    end.

(** *** Vocabulary *)

(** A run of [processPrivateShare] over the shares received. *)
Definition processPrivateShares (d : dkgProtocol) (shares : list DKGPrivateShare)
    : dkgProtocol :=
  foldl (fun d' prv => (processPrivateShare d' prv).2) d shares.

(** The nodes accused by the complaints among some calls, and the
    complainers whose anti-nack complaints are among them. *)
Definition complaintTargets (l : list proposal) : list NodeID :=
  omap (fun p => match p with
                 | ProposeDKGComplaint c => Some (accused c)
                 | _ => None
                 end) l.

Definition antiNackReceivers (l : list proposal) : list NodeID :=
  omap (fun p => match p with
                 | ProposeDKGAntiNackComplaint prv => Some (prv_ReceiverID prv)
                 | _ => None
                 end) l.

(** What calls of [processPrivateShare] on the shares [shares] do to the
    state: the calls [new] are made; the identity, the round and the two
    maps of the participants stay; the three records of what was seen only
    grow; a complaint is about a share given and accuses a node not
    complained about before; an anti-nack complaint is a share given whose
    receiver had no anti-nack complaint recorded before. *)
Record extends (shares : list DKGPrivateShare) (d d' : dkgProtocol)
    (new : list proposal) : Prop := {
  ext_recv : recv d' = recv d ++ new;
  ext_ID : ID d' = ID d;
  ext_round : round d' = round d;
  ext_idMap : idMap d' = idMap d;
  ext_mpkMap : mpkMap d' = mpkMap d;
  ext_received : prvSharesReceived d ⊆ prvSharesReceived d';
  ext_complained : nodeComplained d ⊆ nodeComplained d';
  ext_anti : forall from to,
    to ∈ default ∅ (antiComplaintReceived d !! from) ->
    to ∈ default ∅ (antiComplaintReceived d' !! from);
  ext_anti_dom : forall from,
    is_Some (antiComplaintReceived d !! from) ->
    is_Some (antiComplaintReceived d' !! from);
  ext_targets : forall n, n ∈ complaintTargets new ->
    (n ∉ nodeComplained d) /\ (n ∈ nodeComplained d');
  ext_targets_nodup : NoDup (complaintTargets new);
  ext_receivers : forall n, n ∈ antiNackReceivers new ->
    antiComplaintReceived d !! n = None /\ is_Some (antiComplaintReceived d' !! n);
  ext_receivers_nodup : NoDup (antiNackReceivers new);
  ext_calls : Forall (fun p =>
    match p with
    | ProposeDKGComplaint c => (cpl_PrivateShare c ∈ shares) /\ cpl_ProposerID c = ID d
    | ProposeDKGAntiNackComplaint prv => prv ∈ shares
    | _ => False
    end) new
}.

End Protocol.
End DKGProtocol.

(** ** Concrete instances

    A small world to run the definitions in: keys are numbers and a
    node's ID is its key. *)

Module Examples.

Definition exTypes : NodeSetCache.Types :=
  {| NodeSetCache.PublicKey := N;
     NodeSetCache.NewNodeID := fun key => key;
     NodeSetCache.SubSetTarget := N;
     NodeSetCache.NewDKGSetTarget := fun crs => crs;
     NodeSetCache.NewNotarySetTarget := fun crs _ => crs;
     NodeSetCache.GetSubSet := fun ns _ _ => ns |}.

(** Rounds 0, 1, 6 and 7 are published, with four chains each. *)
Definition exNodeSet (round : Z) : option (list N) :=
  if decide (round = 0) then Some [1; 2; 3]%N
  else if decide (round = 1) then Some [2; 3; 4]%N
  else if decide (round = 6) then Some [5; 6]%N
  else if decide (round = 7) then Some [3; 7]%N
  else None.

Definition exGov : @NodeSetCache.Governance exTypes :=
  @NodeSetCache.mkGovernance exTypes exNodeSet
    (fun _ => NodeSetCache.mkConfig 4 7 7) (fun _ => 0%N).

(** The cache after [GetNodeSet(0)] and [GetNodeSet(1)]. *)
Definition exCache01 : @NodeSetCache.NodeSetCache exTypes :=
  (@NodeSetCache.GetNodeSet exTypes exGov
     (@NodeSetCache.GetNodeSet exTypes exGov
        (@NodeSetCache.NewNodeSetCache exTypes) 0).2 1).2.

(** The cache after [GetNodeSet(6)] alone. *)
Definition exCache6 : @NodeSetCache.NodeSetCache exTypes :=
  (@NodeSetCache.GetNodeSet exTypes exGov (@NodeSetCache.NewNodeSetCache exTypes) 6).2.

(** A toy pairing library: shares, keys and signatures are numbers; a
    private share [k] is right for commitments [s] and receiver [id] when
    [k = s + id]; a signature [sig] on [h] verifies under [pk] when
    [sig = pk + h]. No call fails. *)
Definition exDKG : TSig.DKGLib :=
  {| TSig.PublicKeyShares := N;
     TSig.DKGPublicKey := N;
     TSig.DKGPrivateKey := N;
     TSig.Signature := N;
     TSig.NewEmptyPublicKeyShares := 0%N;
     TSig.Share := fun s id => LibOk (s + id)%N;
     TSig.AddShare := fun s _ pk => LibOk (s + pk)%N;
     TSig.RecoverPublicKey := fun s _ => LibOk s;
     TSig.RecoverGroupPublicKey := fun l => foldr N.add 0%N l;
     TSig.VerifyPrvShare := fun s id k => LibOk (k =? s + id)%N;
     TSig.VerifySignature := fun pk h sig => (sig =? pk + h)%N;
     TSig.RecoverSignature := fun sigs _ => LibOk (foldr N.add 0%N sigs) |}.

(** A complaint is a nack when it carries the zero share; a partial
    signature is signed by its proposer when the signature is the
    proposer's ID. *)
Definition exHelpers : @TSig.Helpers exDKG :=
  @TSig.Build_Helpers exDKG
    (fun c => (@TSig.prv_PrivateShare exDKG (@TSig.cpl_PrivateShare exDKG c) =? 0)%N)
    (fun psig => LibOk (@TSig.psig_Signature exDKG psig =? @TSig.psig_ProposerID exDKG psig)%N).

(** Nodes 1, 2 and 3 propose master public keys 10, 20 and 30 under the
    DKG IDs 101, 102 and 103. *)
Definition exMpks : list (@TSig.DKGMasterPublicKey exDKG) :=
  [ @TSig.mkMPK exDKG 1%N 0 101%N 10%N;
    @TSig.mkMPK exDKG 2%N 0 102%N 20%N;
    @TSig.mkMPK exDKG 3%N 0 103%N 30%N ].


(** Node 3 reports that it got no share from node 2. *)
Definition exNack : @TSig.DKGComplaint exDKG :=
  @TSig.mkComplaint exDKG 3%N 0 (@TSig.mkPrvShare exDKG 2%N 3%N 0 0%N).

(** Governance for the verifier cache: the DKG of round 0 is final with
    the keys and complaints above, and the DKG set has 7 members. *)
Definition exTSigGov : @TSig.Governance exDKG :=
  @TSig.mkGovernance exDKG (fun round => bool_decide (round = 0))
    (fun _ => exMpks) (fun _ => [exNack]) (fun _ => 7).

(** Two proposers under the same DKG ID 101. *)
Definition exMpksShared : list (@TSig.DKGMasterPublicKey exDKG) :=
  [ @TSig.mkMPK exDKG 1%N 0 101%N 10%N;
    @TSig.mkMPK exDKG 2%N 0 101%N 20%N ].

(** The group key [NewDKGGroupPublicKey] builds for round 0 from the
    three master public keys, without complaints and with threshold 2 (the
    public key of node 1 is 363), and the partial signature of node 1 on
    hash 5, received twice. *)
Definition exGPK2 : @TSig.DKGGroupPublicKey exDKG :=
  match @TSig.NewDKGGroupPublicKey exDKG exHelpers 0 exMpks [] 2 with
  | Ok gpk => gpk
  | _ => @TSig.mkGPK exDKG 0 [] ∅ ∅ ∅ 0%N 0
  end.

Definition exPSigsTwice : list (@TSig.DKGPartialSignature exDKG) :=
  [ @TSig.mkPSig exDKG 1%N 0 5%N 368%N 1%N;
    @TSig.mkPSig exDKG 1%N 0 5%N 368%N 1%N ].

(** A toy orchestrator world. The reliable broadcast keeps the number of
    chains, the time of the chain tip and the next height, and rejects a
    block that is not at the next height; total ordering delivers every
    block at once; the compaction chain keeps the last ack per node; an
    agreement module is its list of candidate blocks. A block hashes to
    its parent hash plus one and is signed by the node whose ID is the
    signature. A genesis block has height 0 and no parent. *)
Record exRB : Type := mkExRB { ex_chainNum : Z; ex_tipTime : Z; ex_nextHeight : Z }.

Definition exModules : @Consensus.Modules exTypes :=
  {| Consensus.hashBlock := fun b => LibOk (Consensus.ParentHash b + 1)%N;
     Consensus.SigToPub := fun _ sig => LibOk (sig : @NodeSetCache.PublicKey exTypes);
     Consensus.IsGenesis := fun b =>
       (Consensus.Height (Consensus.BlockPosition b) =? 0)
       && (Consensus.ParentHash b =? 0)%N;
     Consensus.reliableBroadcast := exRB;
     Consensus.newReliableBroadcast := mkExRB 0 0 0;
     Consensus.rb_setChainNum := fun rb n => mkExRB n (ex_tipTime rb) (ex_nextHeight rb);
     Consensus.rb_addNode := fun rb _ => rb;
     Consensus.rb_chainNum := ex_chainNum;
     Consensus.rb_chainTime := fun rb _ => ex_tipTime rb;
     Consensus.rb_processBlock := fun rb b =>
       if Consensus.Height (Consensus.BlockPosition b) =? ex_nextHeight rb
       then (None, mkExRB (ex_chainNum rb) (Consensus.Timestamp b) (ex_nextHeight rb + 1))
       else (Some 1%N, rb);
     Consensus.rb_extractBlocks := fun rb => ([], rb);
     Consensus.totalOrdering := unit;
     Consensus.newTotalOrdering := fun _ _ => tt;
     Consensus.to_processBlock := fun to b => (([b], false, None), to);
     Consensus.consensusTimestamp := unit;
     Consensus.newConsensusTimestamp := tt;
     Consensus.ct_processBlocks := fun ct bs => ((None, bs), ct);
     Consensus.blockDatabase := list Consensus.Block;
     Consensus.db_Put := fun db b => (None, b :: db);
     Consensus.db_Update := fun db b => (None, db);
     Consensus.compactionChain := gmap N Consensus.WitnessAck;
     Consensus.newCompactionChain := fun _ => ∅;
     Consensus.cc_processBlock := fun cc b => ((None, b), cc);
     Consensus.cc_processWitnessAck := fun cc w =>
       (None, <[Consensus.wa_ProposerID w := w]> cc);
     Consensus.cc_witnessAcks := fun cc => cc;
     Consensus.agreement := list Consensus.Block;
     Consensus.newAgreement := fun _ _ _ => [];
     Consensus.ba_findCandidateBlock := fun ba h =>
       find (fun b => bool_decide (Consensus.BlockHash b = h)) ba;
     Consensus.ba_processBlock := fun ba b => (None, b :: ba) |}.

(** Seven nodes in round 0; four chains; blocks 1000 to 5000 ns apart. *)
Definition exGov7 : @NodeSetCache.Governance exTypes :=
  @NodeSetCache.mkGovernance exTypes
    (fun round => if decide (round = 0) then Some [1; 2; 3; 4; 5; 6; 7]%N else None)
    (fun _ => NodeSetCache.mkConfig 4 7 7) (fun _ => 0%N).

Definition exConGov : @Consensus.Governance exTypes :=
  @Consensus.mkGovernance exTypes exGov7
    (fun _ => Consensus.mkConfig 4 0 1000 5000) (fun _ => 0%N).

(** The orchestrator of node 1 as [NewConsensus] builds it. *)
Definition exCon : @Consensus.Consensus exTypes exModules :=
  match @Consensus.NewConsensus exTypes exModules exConGov [] 1%N with
  | Ok con => con
  | _ =>
      @Consensus.mkConsensus exTypes exModules 0%N (Consensus.mkConfig 0 0 0 0) [] [] []
        (Consensus.newConfigurationChain 0%N) (mkExRB 0 0 0) tt tt ∅ []
        (@NodeSetCache.NewNodeSetCache exTypes) 0
  end.

(** A genesis block of node 2 on chain 0, dated far from the chain time
    (which is 0). *)
Definition exGenesis : Consensus.Block :=
  Consensus.mkBlock 2%N 0%N (Consensus.mkPosition 0 0 0) 1000000000 [] ∅ 1%N 2%N.

(** A block of node 2 for height 1 of chain 0, dated 2000. *)
Definition exBlock1 : Consensus.Block :=
  Consensus.mkBlock 2%N 1%N (Consensus.mkPosition 0 0 1) 2000 [] ∅ 2%N 2%N.

(** The orchestrator later on: chain 0 has [exBlock1] as a candidate,
    while the reliable broadcast already is at height 1 with a tip dated
    100000. *)
Definition exConLate : @Consensus.Consensus exTypes exModules :=
  Consensus.with_rb
    (Consensus.with_ba exCon [[exBlock1]; []; []; []])
    (mkExRB 4 100000 1).

(** The same, with a tip dated 500: [exBlock1] is in time. *)
Definition exConReady : @Consensus.Consensus exTypes exModules :=
  Consensus.with_rb
    (Consensus.with_ba exCon [[exBlock1]; []; []; []])
    (mkExRB 4 500 1).

(** A governance that lists the key of node 9 twice in round 0, and one
    that publishes round 2 with an empty, non-nil list. *)
Definition exGovRepeat : @NodeSetCache.Governance exTypes :=
  @NodeSetCache.mkGovernance exTypes
    (fun round => if decide (round = 0) then Some [9; 9]%N
                  else if decide (round = 6) then Some [5]%N else None)
    (fun _ => NodeSetCache.mkConfig 4 7 7) (fun _ => 0%N).

Definition exGovEmpty : @NodeSetCache.Governance exTypes :=
  @NodeSetCache.mkGovernance exTypes
    (fun round => if decide (round = 2) then Some [] else None)
    (fun _ => NodeSetCache.mkConfig 4 7 7) (fun _ => 0%N).

(** The private half of the library above: private key shares are a
    secret and the participants set; the share for a participant is the
    secret plus its DKG ID, so that [VerifyPrvShare] accepts it under the
    public key shares of the same value. Every new polynomial has secret 10;
    a private share is signed well unless its round is 99. *)
Definition exPrvLib : @DKGProtocol.PrvLib exDKG :=
  @DKGProtocol.Build_PrvLib exDKG
    (N * list N)
    (fun _ => ((10%N, []), 10%N))
    (0%N, [])
    (fun s ids => (s.1, ids))
    (fun s id => if bool_decide (id ∈ s.2) then Some (s.1 + id)%N else None)
    (fun s _ k => LibOk ((s.1 + k)%N, s.2))
    (fun s _ => LibOk s.1)
    0%N
    0%N
    (fun n => (100 + n)%N)
    (fun prv => LibOk (negb (@TSig.prv_Round exDKG prv =? 99))).

(** Node 1 takes part in the DKG of round 0 with the three master public
    keys above. *)
Definition exProtocol : @DKGProtocol.dkgProtocol exDKG exPrvLib :=
  (@DKGProtocol.processMasterPublicKeys exDKG exPrvLib
     (@DKGProtocol.newDKGProtocol exDKG exPrvLib 1%N 0 2) exMpks).2.

(** The share of node 2 for node 1, and a wrong share of node 3 for
    node 1; the share of node 2 for node 3, as node 2 sends it to answer
    the nack of node 3. *)
Definition exShare21 : @TSig.DKGPrivateShare exDKG := @TSig.mkPrvShare exDKG 2%N 1%N 0 121%N.
Definition exShare31 : @TSig.DKGPrivateShare exDKG := @TSig.mkPrvShare exDKG 3%N 1%N 0 5%N.
Definition exShare23 : @TSig.DKGPrivateShare exDKG := @TSig.mkPrvShare exDKG 2%N 3%N 0 123%N.

End Examples.

(** * Theorems *)

(** ** The node-set cache *)

Section NodeSetCacheFacts.
Import NodeSetCache.
Context `{Types}.

Lemma refCount_insert (pool : gmap NodeID keyRec) n rec m :
  refCount (<[n := rec]> pool) m = if decide (m = n) then refCnt rec else refCount pool m.
Proof.
  unfold refCount. destruct (decide (m = n)) as [->|Hne].
  - by rewrite lookup_insert_eq.
  - by rewrite lookup_insert_ne.
Qed.

Lemma refCount_delete (pool : gmap NodeID keyRec) n m :
  refCount (delete n pool) m = if decide (m = n) then 0 else refCount pool m.
Proof.
  unfold refCount. destruct (decide (m = n)) as [->|Hne].
  - by rewrite lookup_delete_eq.
  - by rewrite lookup_delete_ne.
Qed.

Lemma pool_wf_insert (pool : gmap NodeID keyRec) n rec :
  pool_wf pool -> 0 < refCnt rec -> pool_wf (<[n := rec]> pool).
Proof.
  intros Hwf Hpos m rec' Hm. destruct (decide (m = n)) as [->|Hne].
  - rewrite lookup_insert_eq in Hm. by simplify_eq.
  - rewrite lookup_insert_ne in Hm by done. eauto.
Qed.

Lemma pool_wf_delete (pool : gmap NodeID keyRec) n :
  pool_wf pool -> pool_wf (delete n pool).
Proof.
  intros Hwf m rec' Hm. destruct (decide (m = n)) as [->|Hne].
  - by rewrite lookup_delete_eq in Hm.
  - rewrite lookup_delete_ne in Hm by done. eauto.
Qed.

Lemma refCount_pos_lookup (pool : gmap NodeID keyRec) n :
  0 < refCount pool n -> is_Some (pool !! n).
Proof. unfold refCount. destruct (pool !! n); [eauto | lia]. Qed.

Lemma refCount_nonneg (pool : gmap NodeID keyRec) n :
  pool_wf pool -> 0 <= refCount pool n.
Proof.
  intros Hwf. unfold refCount. destruct (pool !! n) eqn:E; [|lia].
  apply Hwf in E. lia.
Qed.

(** One release: the count of [n] drops by one, the record goes when the
    count reaches zero. *)
Lemma releaseKey_spec (pool : gmap NodeID keyRec) n :
  pool_wf pool -> 0 < refCount pool n ->
  exists pool', releaseKey pool n = Some pool' /\ pool_wf pool' /\
    forall m, refCount pool' m = refCount pool m - (if decide (m = n) then 1 else 0).
Proof.
  intros Hwf Hpos. unfold releaseKey.
  destruct (pool !! n) as [rec|] eqn:E.
  2:{ unfold refCount in Hpos. rewrite E in Hpos. lia. }
  assert (refCount pool n = refCnt rec) as Hc by (unfold refCount; by rewrite E).
  simpl. destruct (Z.eqb_spec (refCnt rec - 1) 0) as [Hz|Hz].
  - eexists; split; [done|]. split; [by apply pool_wf_delete|].
    intros m. rewrite refCount_delete. destruct (decide (m = n)); subst; lia.
  - eexists; split; [done|]. split.
    + apply pool_wf_insert; [done|]. simpl. apply Hwf in E. lia.
    + intros m. rewrite refCount_insert. destruct (decide (m = n)); subst; simpl; lia.
Qed.

Lemma releaseKeys_spec (ids : list NodeID) : forall (pool : gmap NodeID keyRec),
  NoDup ids -> pool_wf pool -> (forall n, n ∈ ids -> 0 < refCount pool n) ->
  exists pool', releaseKeys pool ids = Some pool' /\ pool_wf pool' /\
    forall m, refCount pool' m = refCount pool m - (if decide (m ∈ ids) then 1 else 0).
Proof.
  induction ids as [|n ids IH]; intros pool Hnd Hwf Hpos.
  - exists pool. split; [done|]. split; [done|]. intros m.
    destruct (decide (m ∈ [])) as [Hin|]; [by apply elem_of_nil in Hin | lia].
  - apply NoDup_cons in Hnd as [Hn Hnd].
    destruct (releaseKey_spec pool n Hwf) as (pool1 & E1 & Hwf1 & Hc1).
    { apply Hpos. by left. }
    destruct (IH pool1 Hnd Hwf1) as (pool2 & E2 & Hwf2 & Hc2).
    { intros k Hk. rewrite Hc1. destruct (decide (k = n)) as [->|]; [done|].
      specialize (Hpos k (list_elem_of_further _ _ _ Hk)). lia. }
    exists pool2. split; [simpl; by rewrite E1|]. split; [done|].
    intros m. rewrite Hc2, Hc1.
    destruct (decide (m = n)) as [->|Hne].
    + destruct (decide (n ∈ ids)); [done|].
      destruct (decide (n ∈ n :: ids)) as [|Hnot]; [lia|].
      exfalso. apply Hnot. by left.
    + destruct (decide (m ∈ ids)) as [Hin|Hnin].
      * destruct (decide (m ∈ n :: ids)) as [|Hnot]; [lia|].
        exfalso. apply Hnot. by right.
      * destruct (decide (m ∈ n :: ids)) as [Hin'|]; [|lia].
        apply elem_of_cons in Hin' as [?|?]; done.
Qed.

Lemma holders_nil n : holders n [] = 0.
Proof. done. Qed.

Lemma holders_cons n (e : Z * sets) l :
  holders n (e :: l) = (if decide (n ∈ nodeSet e.2) then 1 else 0) + holders n l.
Proof.
  unfold holders. rewrite filter_cons.
  destruct (decide (n ∈ nodeSet e.2)); simpl; lia.
Qed.

Lemma holders_nonneg n (l : list (Z * sets)) : 0 <= holders n l.
Proof. unfold holders. lia. Qed.

Lemma holders_Permutation n (l1 l2 : list (Z * sets)) :
  l1 ≡ₚ l2 -> holders n l1 = holders n l2.
Proof. intros Hp. unfold holders. by rewrite Hp. Qed.

Lemma holders_pos n (l : list (Z * sets)) :
  0 < holders n l <-> exists e, e ∈ l /\ n ∈ nodeSet e.2.
Proof.
  induction l as [|e l IH].
  - rewrite holders_nil. split; [lia|]. intros (e & He & _). by apply elem_of_nil in He.
  - rewrite holders_cons. pose proof (holders_nonneg n l) as Hge. split.
    + intros Hpos. destruct (decide (n ∈ nodeSet e.2)) as [Hin|Hnin].
      * exists e. split; [by left | done].
      * destruct IH as [IH _]. destruct IH as (e' & He' & Hn); [lia|].
        exists e'. split; [by right | done].
    + intros (e' & He' & Hn). apply elem_of_cons in He' as [->|He'].
      * destruct (decide (n ∈ nodeSet e.2)); [lia | done].
      * destruct IH as [_ IH]. specialize (IH (ex_intro _ e' (conj He' Hn))).
        destruct (decide (n ∈ nodeSet e.2)); lia.
Qed.

(** Splitting the cached rounds into the purged and the kept ones. *)
Lemma holders_split round n (l : list (Z * sets)) :
  holders n l =
  holders n (filter (purged round) l) + holders n (filter (fun e => ¬ purged round e) l).
Proof.
  induction l as [|e l IH]; [done|].
  rewrite holders_cons, IH. destruct (decide (purged round e)) as [Hp|Hp].
  - rewrite (filter_cons_True (purged round)) by done.
    rewrite (filter_cons_False (fun e => ¬ purged round e)) by tauto.
    rewrite holders_cons. lia.
  - rewrite (filter_cons_False (purged round)) by done.
    rewrite (filter_cons_True (fun e => ¬ purged round e)) by done.
    rewrite holders_cons. lia.
Qed.

(** The purge loop, on any list of entries: it ends without a panic as
    long as the pool counts at least the purged rounds of every node; it
    lowers every count by the number of purged rounds that hold the node,
    and deletes exactly the purged rounds. *)
Lemma purgeRounds_spec round (l : list (Z * sets)) : forall cache,
  pool_wf (keyPool cache) ->
  (forall n, holders n (filter (purged round) l) <= refCount (keyPool cache) n) ->
  exists cache', purgeRounds round cache l = Some cache' /\
    pool_wf (keyPool cache') /\
    (forall n, refCount (keyPool cache') n =
               refCount (keyPool cache) n - holders n (filter (purged round) l)) /\
    (forall r, rounds cache' !! r =
               if decide (r ∈ (filter (purged round) l).*1) then None
               else rounds cache !! r).
Proof.
  induction l as [|e l IH]; intros cache Hwf Hle.
  - exists cache. split; [done|]. split; [done|]. split.
    + intros n. rewrite filter_nil, holders_nil. lia.
    + intros r. rewrite filter_nil. simpl.
      destruct (decide (r ∈ [])) as [Hin|]; [by apply elem_of_nil in Hin | done].
  - simpl. unfold purgeRound. destruct (keeps round e.1) eqn:Ek.
    + assert (¬ purged round e) as Hnp by (unfold purged; congruence).
      rewrite (filter_cons_False (purged round)) in Hle |- * by done.
      destruct (IH cache Hwf Hle) as (cache' & E & Hwf' & Hc & Hr).
      by exists cache'.
    + assert (purged round e) as Hp by done.
      rewrite (filter_cons_True (purged round)) in Hle by done.
      destruct (releaseKeys_spec (elements (nodeSet e.2)) (keyPool cache))
        as (pool1 & E1 & Hwf1 & Hc1); [apply NoDup_elements | done | |].
      { intros n Hn. apply elem_of_elements in Hn.
        specialize (Hle n). rewrite holders_cons in Hle.
        pose proof (holders_nonneg n (filter (purged round) l)).
        destruct (decide (n ∈ nodeSet e.2)); [lia | done]. }
      rewrite E1.
      destruct (IH {| rounds := delete e.1 (rounds cache); keyPool := pool1 |})
        as (cache' & E & Hwf' & Hc & Hr); [done | |].
      { intros n. simpl. rewrite Hc1. specialize (Hle n). rewrite holders_cons in Hle.
        destruct (decide (n ∈ nodeSet e.2)) as [Hin|Hnin].
        - destruct (decide (n ∈ elements (nodeSet e.2))) as [|Hnot]; [lia|].
          exfalso. apply Hnot. by apply elem_of_elements.
        - destruct (decide (n ∈ elements (nodeSet e.2))) as [Hin'|]; [|lia].
          apply elem_of_elements in Hin'. done. }
      exists cache'. split; [done|]. split; [done|].
      rewrite (filter_cons_True (purged round)) by done. split.
      * intros n. rewrite Hc. simpl. rewrite Hc1, holders_cons.
        destruct (decide (n ∈ nodeSet e.2)) as [Hin|Hnin].
        -- destruct (decide (n ∈ elements (nodeSet e.2))) as [|Hnot]; [lia|].
           exfalso. apply Hnot. by apply elem_of_elements.
        -- destruct (decide (n ∈ elements (nodeSet e.2))) as [Hin'|]; [|lia].
           apply elem_of_elements in Hin'. done.
      * intros r. rewrite Hr, fmap_cons. simpl.
        destruct (decide (r ∈ (filter (purged round) l).*1)) as [Hin|Hnin].
        -- destruct (decide (r ∈ e.1 :: (filter (purged round) l).*1)) as [|Hnot]; [done|].
           exfalso. apply Hnot. by right.
        -- destruct (decide (r = e.1)) as [->|Hne].
           ++ rewrite lookup_delete_eq.
              destruct (decide (e.1 ∈ e.1 :: (filter (purged round) l).*1)) as [|Hnot]; [done|].
              exfalso. apply Hnot. by left.
           ++ rewrite lookup_delete_ne by done.
              destruct (decide (r ∈ e.1 :: (filter (purged round) l).*1)) as [Hin'|]; [|done].
              apply elem_of_cons in Hin' as [?|?]; done.
Qed.

Lemma occurrences_nil n : occurrences n [] = 0.
Proof. done. Qed.

Lemma occurrences_cons n key keySet :
  occurrences n (key :: keySet) =
  (if decide (NewNodeID key = n) then 1 else 0) + occurrences n keySet.
Proof.
  unfold occurrences. rewrite filter_cons.
  destruct (decide (NewNodeID key = n)); simpl; lia.
Qed.

Lemma occurrences_nonneg n keySet : 0 <= occurrences n keySet.
Proof. unfold occurrences. lia. Qed.

Lemma occurrences_member n keySet :
  n ∈ NewNodeID <$> keySet -> 1 <= occurrences n keySet.
Proof.
  induction keySet as [|key keySet IH]; intros Hin.
  - by apply elem_of_nil in Hin.
  - rewrite occurrences_cons. pose proof (occurrences_nonneg n keySet).
    rewrite fmap_cons in Hin. apply elem_of_cons in Hin as [->|Hin].
    + destruct (decide (NewNodeID key = NewNodeID key)); [lia | done].
    + specialize (IH Hin). destruct (decide (NewNodeID key = n)); lia.
Qed.

Lemma occurrences_not_member n keySet :
  n ∉ NewNodeID <$> keySet -> occurrences n keySet = 0.
Proof.
  induction keySet as [|key keySet IH]; intros Hin; [done|].
  rewrite occurrences_cons. rewrite fmap_cons in Hin.
  apply not_elem_of_cons in Hin as [Hne Hin]. rewrite IH by done.
  destruct (decide (NewNodeID key = n)); [congruence | lia].
Qed.

Lemma occurrences_NoDup n keySet :
  NoDup (NewNodeID <$> keySet) -> n ∈ NewNodeID <$> keySet ->
  occurrences n keySet = 1.
Proof.
  induction keySet as [|key keySet IH]; intros Hnd Hin.
  - by apply elem_of_nil in Hin.
  - rewrite fmap_cons in Hnd, Hin. apply NoDup_cons in Hnd as [Hfresh Hnd].
    rewrite occurrences_cons. apply elem_of_cons in Hin as [->|Hin].
    + rewrite occurrences_not_member by done.
      destruct (decide (NewNodeID key = NewNodeID key)); [lia | done].
    + rewrite IH by done.
      destruct (decide (NewNodeID key = n)) as [Heq|]; [|lia].
      subst. done.
Qed.

(** The first loop of [update]: the node set is the set of the listed
    IDs, and every listed key adds one to the count of its ID. *)
Lemma cacheKeys_fold keySet : forall (ns : gset NodeID) (pool : gmap NodeID keyRec),
  pool_wf pool ->
  pool_wf (foldl cacheKey (ns, pool) keySet).2 /\
  (forall n, refCount (foldl cacheKey (ns, pool) keySet).2 n =
             refCount pool n + occurrences n keySet) /\
  (forall n, n ∈ (foldl cacheKey (ns, pool) keySet).1 <->
             n ∈ ns \/ n ∈ NewNodeID <$> keySet).
Proof.
  induction keySet as [|key keySet IH]; intros ns pool Hwf.
  - simpl. split; [done|]. split.
    + intros n. rewrite occurrences_nil. lia.
    + intros n. split; [by left|]. intros [?|Hin]; [done|]. by apply elem_of_nil in Hin.
  - simpl.
    set (pool1 := (cacheKey (ns, pool) key).2).
    set (ns1 := (cacheKey (ns, pool) key).1).
    assert (pool_wf pool1 /\
            forall n, refCount pool1 n =
                      refCount pool n + (if decide (NewNodeID key = n) then 1 else 0))
      as [Hwf1 Hc1].
    { subst pool1. unfold cacheKey. simpl.
      destruct (pool !! NewNodeID key) as [rec|] eqn:E.
      - split.
        + apply pool_wf_insert; [done|]. simpl. apply Hwf in E. lia.
        + intros n. rewrite refCount_insert. simpl.
          destruct (decide (n = NewNodeID key)) as [->|Hne].
          * unfold refCount. rewrite E.
            destruct (decide (NewNodeID key = NewNodeID key)); [lia | done].
          * destruct (decide (NewNodeID key = n)); [congruence | lia].
      - split.
        + apply pool_wf_insert; [done|]. simpl. lia.
        + intros n. rewrite refCount_insert. simpl.
          destruct (decide (n = NewNodeID key)) as [->|Hne].
          * unfold refCount. rewrite E.
            destruct (decide (NewNodeID key = NewNodeID key)); [lia | done].
          * destruct (decide (NewNodeID key = n)); [congruence | lia]. }
    replace (cacheKey (ns, pool) key) with (ns1, pool1)
      by (subst ns1 pool1; by destruct (cacheKey (ns, pool) key)).
    destruct (IH ns1 pool1 Hwf1) as (Hwf2 & Hc2 & Hm2).
    split; [done|]. split.
    + intros n. rewrite Hc2, Hc1, occurrences_cons. lia.
    + intros n. rewrite Hm2, elem_of_cons. subst ns1. unfold cacheKey.
      simpl. rewrite elem_of_union, elem_of_singleton. tauto.
Qed.

Lemma cacheKeys_spec keySet (pool : gmap NodeID keyRec) :
  pool_wf pool ->
  pool_wf (cacheKeys keySet pool).2 /\
  (forall n, refCount (cacheKeys keySet pool).2 n = refCount pool n + occurrences n keySet) /\
  (forall n, n ∈ (cacheKeys keySet pool).1 <-> n ∈ NewNodeID <$> keySet).
Proof.
  intros Hwf. destruct (cacheKeys_fold keySet ∅ pool Hwf) as (H1 & H2 & H3).
  split; [done|]. split; [done|]. intros n. unfold cacheKeys. rewrite H3.
  split; [intros [Hin|?]; [by apply not_elem_of_empty in Hin | done] | by right].
Qed.

(** The round being updated is never purged. *)
Lemma keeps_self round : keeps round round = true.
Proof. unfold keeps, sub64. rewrite Z.sub_diag. done. Qed.

Lemma purged_keys round (m : gmap Z sets) r :
  r ∈ (filter (purged round) (map_to_list m)).*1 <->
  is_Some (m !! r) /\ keeps round r = false.
Proof.
  rewrite list_elem_of_fmap. split.
  - intros ([r' x] & -> & Hin). apply list_elem_of_filter in Hin as [Hp Hin].
    apply elem_of_map_to_list in Hin. simpl. split; [eauto | done].
  - intros [[x Hx] Hk]. exists (r, x). split; [done|].
    apply list_elem_of_filter. split; [done|]. by apply elem_of_map_to_list.
Qed.

Lemma map_to_list_filter_perm (P : Z * sets -> Prop) `{!forall e, Decision (P e)}
    (m : gmap Z sets) :
  map_to_list (filter P m) ≡ₚ filter P (map_to_list m).
Proof.
  apply NoDup_Permutation.
  - apply NoDup_map_to_list.
  - apply NoDup_filter, NoDup_map_to_list.
  - intros [r x]. rewrite elem_of_map_to_list, map_lookup_filter_Some.
    rewrite list_elem_of_filter, elem_of_map_to_list. tauto.
Qed.

Lemma holders_insert_fresh n (m : gmap Z sets) r x :
  m !! r = None ->
  holders n (map_to_list (<[r := x]> m)) =
  (if decide (n ∈ nodeSet x) then 1 else 0) + holders n (map_to_list m).
Proof.
  intros Hr. rewrite (holders_Permutation n _ _ (map_to_list_insert m r x Hr)).
  by rewrite holders_cons.
Qed.

Lemma holders_delete_le n (m : gmap Z sets) r :
  holders n (map_to_list (delete r m)) <= holders n (map_to_list m).
Proof.
  destruct (m !! r) as [x|] eqn:E.
  - rewrite <- (holders_Permutation n _ _ (map_to_list_delete m r x E)).
    rewrite holders_cons. destruct (decide (n ∈ nodeSet (r, x).2)); lia.
  - rewrite delete_id by done. lia.
Qed.

Lemma holders_insert_le n (m : gmap Z sets) r x :
  holders n (map_to_list (<[r := x]> m)) <=
  (if decide (n ∈ nodeSet x) then 1 else 0) + holders n (map_to_list m).
Proof.
  rewrite <- insert_delete_eq.
  rewrite holders_insert_fresh by apply lookup_delete_eq.
  pose proof (holders_delete_le n m r). lia.
Qed.

(** What a successful [update] does, from any cache whose pool counts at
    least the cached rounds of every node: no panic; the cached rounds are
    the old ones and the new one, without the purged; every count goes up
    by the occurrences of the node in the key list and down by the number
    of purged rounds that hold it. *)
Lemma update_spec gov cache round keySet :
  NodeSet gov round = Some keySet ->
  pool_wf (keyPool cache) ->
  (forall n, references cache n <= refCount (keyPool cache) n) ->
  exists cache',
    update gov cache round =
      (Ok (newSets gov round (cacheKeys keySet (keyPool cache)).1), cache') /\
    pool_wf (keyPool cache') /\
    rounds cache' =
      filter (fun e => ¬ purged round e) (rounds (stored gov cache round keySet)) /\
    (forall n, refCount (keyPool cache') n =
               refCount (keyPool cache) n + occurrences n keySet
               - holders n (filter (purged round)
                              (map_to_list (rounds (stored gov cache round keySet))))).
Proof.
  intros Hgov Hwf Hle. unfold update. rewrite Hgov.
  destruct (cacheKeys_spec keySet (keyPool cache) Hwf) as (Hwf1 & Hc1 & Hm1).
  set (cache1 := stored gov cache round keySet).
  destruct (purgeRounds_spec round (map_to_list (rounds cache1)) cache1)
    as (cache2 & E & Hwf2 & Hc2 & Hr2).
  { done. }
  { intros n. subst cache1. unfold stored. simpl. rewrite Hc1.
    set (new := newSets gov round (cacheKeys keySet (keyPool cache)).1).
    pose proof (holders_split round n (map_to_list (<[round := new]> (rounds cache)))) as Hs.
    pose proof (holders_nonneg n
      (filter (fun e => ¬ purged round e) (map_to_list (<[round := new]> (rounds cache))))).
    pose proof (holders_insert_le n (rounds cache) round new) as Hi.
    specialize (Hle n). unfold references in Hle.
    assert ((if decide (n ∈ nodeSet new) then 1 else 0) <= occurrences n keySet).
    { destruct (decide (n ∈ nodeSet new)) as [Hin|]; [|apply occurrences_nonneg].
      apply occurrences_member. subst new. simpl in Hin. by apply Hm1. }
    lia. }
  rewrite E. exists cache2. split; [done|]. split; [done|]. split.
  - apply map_eq. intros r. rewrite Hr2, map_lookup_filter.
    destruct (decide (r ∈ (filter (purged round) (map_to_list (rounds cache1))).*1))
      as [Hin|Hnin].
    + apply purged_keys in Hin as [[x Hx] Hk]. rewrite Hx. simpl.
      rewrite option_guard_False; [done|]. unfold purged. simpl. by intros [].
    + destruct (rounds cache1 !! r) as [x|] eqn:Hx; [|done]. simpl.
      rewrite option_guard_True; [done|]. intros Hp. apply Hnin.
      apply purged_keys. split; [eauto | done].
  - intros n. rewrite Hc2. subst cache1. unfold stored at 1. simpl. rewrite Hc1. done.
Qed.

Lemma refCount_zero (pool : gmap NodeID keyRec) n :
  pool_wf pool -> (refCount pool n = 0 <-> pool !! n = None).
Proof.
  intros Hwf. unfold refCount. destruct (pool !! n) as [rec|] eqn:E.
  - apply Hwf in E. split; [lia | done].
  - done.
Qed.

Lemma kept_holders_stored gov cache round keySet n :
  rounds cache !! round = None ->
  holders n (filter (fun e => ¬ purged round e)
               (map_to_list (rounds (stored gov cache round keySet)))) =
  references cache n
  + (if decide (n ∈ (cacheKeys keySet (keyPool cache)).1) then 1 else 0)
  - holders n (filter (purged round)
                 (map_to_list (rounds (stored gov cache round keySet)))).
Proof.
  intros Hfresh.
  pose proof (holders_split round n
    (map_to_list (rounds (stored gov cache round keySet)))) as Hs.
  assert (holders n (map_to_list (rounds (stored gov cache round keySet))) =
          (if decide (n ∈ (cacheKeys keySet (keyPool cache)).1) then 1 else 0)
          + references cache n) as Hi.
  { unfold stored. simpl. by rewrite holders_insert_fresh. }
  lia.
Qed.

Lemma kept_holders_pos gov cache round keySet n :
  0 < holders n (filter (fun e => ¬ purged round e)
                   (map_to_list (rounds (stored gov cache round keySet)))) <->
  exists r s,
    filter (fun e => ¬ purged round e) (rounds (stored gov cache round keySet)) !! r
      = Some s /\ n ∈ nodeSet s.
Proof.
  rewrite holders_pos. split.
  - intros ([r x] & Hin & Hn). exists r, x. split; [|done].
    apply list_elem_of_filter in Hin as [Hp Hin]. apply elem_of_map_to_list in Hin.
    by apply map_lookup_filter_Some.
  - intros (r & x & Hl & Hn). exists (r, x). split; [|done].
    apply map_lookup_filter_Some in Hl as [Hl Hp].
    apply list_elem_of_filter. split; [done|]. by apply elem_of_map_to_list.
Qed.

(** A consistent cache stays consistent when [update] fills a round that
    was not cached from a key list without repetitions. *)
Lemma update_consistent gov cache round keySet :
  consistent cache ->
  rounds cache !! round = None ->
  NodeSet gov round = Some keySet ->
  NoDup (NewNodeID <$> keySet) ->
  consistent (update gov cache round).2.
Proof.
  intros [Hwf Hc] Hfresh Hgov Hnd.
  destruct (update_spec gov cache round keySet Hgov Hwf) as (cache' & E & Hwf' & Hr & Hc').
  { intros n. rewrite Hc. lia. }
  rewrite E. simpl. split; [done|]. intros n. rewrite Hc'. unfold references.
  rewrite Hr, (holders_Permutation n _ _ (map_to_list_filter_perm _ _)).
  rewrite kept_holders_stored by done. rewrite Hc.
  destruct (cacheKeys_spec keySet (keyPool cache) Hwf) as (_ & _ & Hm).
  destruct (decide (n ∈ (cacheKeys keySet (keyPool cache)).1)) as [Hin|Hnin].
  - rewrite occurrences_NoDup; [lia | done | by apply Hm].
  - rewrite occurrences_not_member; [lia|]. intros Hin. apply Hnin. by apply Hm.
Qed.

Lemma NewNodeSetCache_consistent : consistent NewNodeSetCache.
Proof.
  split.
  - intros n rec Hn. simpl in Hn. by rewrite lookup_empty in Hn.
  - intros n. unfold references, refCount. simpl.
    by rewrite lookup_empty, map_to_list_empty.
Qed.

Lemma update_miss_consistent gov cache round :
  consistent cache -> distinct_keys gov -> rounds cache !! round = None ->
  consistent (update gov cache round).2.
Proof.
  intros Hc Hd Hfresh. destruct (NodeSet gov round) as [keySet|] eqn:Hgov.
  - eapply update_consistent; eauto.
  - unfold update. by rewrite Hgov.
Qed.

Lemma getOrUpdate_consistent gov cache round :
  consistent cache -> distinct_keys gov ->
  consistent (getOrUpdate gov cache round).2.
Proof.
  intros Hc Hd. unfold getOrUpdate, get.
  destruct (rounds cache !! round) eqn:E; [done|]. by apply update_miss_consistent.
Qed.

(** Every cache a program can build is consistent. *)
Lemma reachable_consistent cache : reachable cache -> consistent cache.
Proof.
  induction 1 as [|gov cache round nodeID _ IH Hd|gov cache round _ IH Hd
                  |gov cache round chainID _ IH Hd|gov cache round _ IH Hd].
  - apply NewNodeSetCache_consistent.
  - unfold Exists, get. destruct (rounds cache !! round) eqn:E; [done|].
    pose proof (update_miss_consistent gov cache round IH Hd E) as Hu.
    by destruct (update gov cache round) as [[?| |] ?].
  - unfold GetNodeSet, get. destruct (rounds cache !! round) eqn:E; [done|].
    pose proof (update_miss_consistent gov cache round IH Hd E) as Hu.
    by destruct (update gov cache round) as [[?| |] ?].
  - unfold GetNotarySet.
    pose proof (getOrUpdate_consistent gov cache round IH Hd) as Hu.
    destruct (getOrUpdate gov cache round) as [[IDs| |] ?]; try done.
    destruct (_ <=? _); [done|]. by destruct (_ !! _).
  - unfold GetDKGSet.
    pose proof (getOrUpdate_consistent gov cache round IH Hd) as Hu.
    by destruct (getOrUpdate gov cache round) as [[IDs| |] ?].
Qed.

Lemma purged_stored_fresh gov cache round keySet :
  rounds cache !! round = None ->
  filter (purged round) (map_to_list (rounds (stored gov cache round keySet))) ≡ₚ
  filter (purged round) (map_to_list (rounds cache)).
Proof.
  intros Hfresh. unfold stored. simpl.
  rewrite (map_to_list_insert _ _ _ Hfresh).
  rewrite filter_cons_False; [done|].
  unfold purged. simpl. rewrite keeps_self. done.
Qed.

Lemma stored_round gov cache round keySet :
  rounds (stored gov cache round keySet) !! round =
  Some (newSets gov round (cacheKeys keySet (keyPool cache)).1).
Proof. unfold stored. simpl. apply lookup_insert_eq. Qed.

(** [C1] After a successful [update] for [round] (called, as in the code,
    for a round that is not cached, on a consistent cache): no round
    [r'] with [round - r' > 5] is cached (on [uint64], hence also as
    integers); the key pool holds exactly the nodes of the cached rounds;
    the count of every node has dropped by the number of purged rounds it
    was a member of, and a node has no record exactly when its count is
    zero. *)
Theorem update_window_and_key_pool gov cache round keySet :
  consistent cache ->
  is_uint64 round ->
  rounds cache !! round = None ->
  NodeSet gov round = Some keySet ->
  exists nIDs cache',
    update gov cache round = (Ok nIDs, cache') /\
    (forall r', is_Some (rounds cache' !! r') -> sub64 round r' <= 5) /\
    (forall r', is_uint64 r' -> is_Some (rounds cache' !! r') -> ¬ (round - r' > 5)) /\
    (forall n, is_Some (keyPool cache' !! n) <->
               exists r s, rounds cache' !! r = Some s /\ n ∈ nodeSet s) /\
    (forall n, refCount (keyPool cache') n =
               refCount (keyPool cache) n + occurrences n keySet
               - holders n (filter (purged round) (map_to_list (rounds cache)))) /\
    (forall n, keyPool cache' !! n = None <-> refCount (keyPool cache') n = 0).
Proof.
  intros [Hwf Hc] Hround Hfresh Hgov.
  destruct (update_spec gov cache round keySet Hgov Hwf) as (cache' & E & Hwf' & Hr & Hc').
  { intros n. rewrite Hc. lia. }
  eexists _, cache'. split; [exact E|].
  assert (forall r', is_Some (rounds cache' !! r') -> sub64 round r' <= 5) as Hwin.
  { intros r' [s Hs]. rewrite Hr in Hs. apply map_lookup_filter_Some in Hs as [_ Hk].
    unfold purged, keeps in Hk. simpl in Hk.
    destruct (Z.leb_spec (sub64 round r') 5); [lia | done]. }
  split; [done|]. split.
  { intros r' Hr' Hs Hgt. specialize (Hwin r' Hs). unfold sub64 in Hwin.
    unfold is_uint64, uint64_mod in *. rewrite Z.mod_small in Hwin by lia. lia. }
  split.
  { intros n. rewrite Hr, <- kept_holders_pos.
    rewrite kept_holders_stored by done.
    destruct (cacheKeys_spec keySet (keyPool cache) Hwf) as (_ & _ & Hm).
    specialize (Hc' n). rewrite Hc in Hc'.
    pose proof (refCount_zero (keyPool cache') n Hwf') as Hz.
    pose proof (refCount_nonneg (keyPool cache') n Hwf') as Hnn.
    pose proof (occurrences_nonneg n keySet) as Ho.
    assert (is_Some (keyPool cache' !! n) <-> 0 < refCount (keyPool cache') n) as ->.
    { split.
      - intros [rec Hrec]. destruct (decide (refCount (keyPool cache') n = 0)) as [Hz0|]; [|lia].
        apply Hz in Hz0. congruence.
      - apply refCount_pos_lookup. }
    destruct (decide (n ∈ (cacheKeys keySet (keyPool cache)).1)) as [Hin|Hnin].
    - apply Hm in Hin. pose proof (occurrences_member n keySet Hin).
      assert (0 < holders n
        (filter (fun e => ¬ purged round e)
           (map_to_list (rounds (stored gov cache round keySet))))) as Hk.
      { apply holders_pos.
        exists (round, newSets gov round (cacheKeys keySet (keyPool cache)).1).
        split; [|simpl; by apply Hm].
        apply list_elem_of_filter. split.
        - unfold purged. simpl. rewrite keeps_self. done.
        - apply elem_of_map_to_list, stored_round. }
      rewrite kept_holders_stored in Hk by done.
      destruct (decide (n ∈ (cacheKeys keySet (keyPool cache)).1)) as [|Hnot];
        [lia | exfalso; apply Hnot; by apply Hm].
    - rewrite occurrences_not_member in Hc'; [lia|].
      intros Hin. apply Hnin. by apply Hm. }
  split.
  { intros n. rewrite Hc'.
    by rewrite (holders_Permutation n _ _ (purged_stored_fresh gov cache round keySet Hfresh)). }
  intros n. symmetry. by apply refCount_zero.
Qed.

(** [C2] The purge test subtracts on [uint64]: for a cached round [r']
    that is newer than the updated [round] (and less than [2^64 - 5]
    ahead) the difference wraps to [2^64 - (r' - round) > 5], so [r'] is
    purged, and every member of [r'] loses one count for each purged round
    it was a member of, [r'] among them. *)
Theorem update_purges_newer_rounds gov cache round keySet r' s' :
  consistent cache ->
  is_uint64 round -> is_uint64 r' ->
  rounds cache !! round = None ->
  NodeSet gov round = Some keySet ->
  rounds cache !! r' = Some s' ->
  round < r' -> r' - round < uint64_mod - 5 ->
  sub64 round r' = uint64_mod - (r' - round) /\
  5 < sub64 round r' /\
  exists nIDs cache',
    update gov cache round = (Ok nIDs, cache') /\
    rounds cache' !! r' = None /\
    forall n, n ∈ nodeSet s' ->
      1 <= holders n (filter (purged round) (map_to_list (rounds cache))) /\
      refCount (keyPool cache') n =
        refCount (keyPool cache) n + occurrences n keySet
        - holders n (filter (purged round) (map_to_list (rounds cache))).
Proof.
  intros [Hwf Hc] Hround Hr' Hfresh Hgov Hs' Hlt Hgap.
  assert (sub64 round r' = uint64_mod - (r' - round)) as Hwrap.
  { unfold sub64, is_uint64, uint64_mod in *.
    replace (round - r') with ((2 ^ 64 - (r' - round)) + (-1) * 2 ^ 64) by lia.
    rewrite Z.mod_add by lia. apply Z.mod_small. lia. }
  split; [done|]. split; [lia|].
  destruct (update_spec gov cache round keySet Hgov Hwf) as (cache' & E & Hwf' & Hr & Hc').
  { intros n. rewrite Hc. lia. }
  assert (purged round (r', s')) as Hp.
  { unfold purged, keeps. simpl. apply Z.leb_gt. lia. }
  eexists _, cache'. split; [exact E|]. split.
  { rewrite Hr. apply map_lookup_filter_None. right. intros x _ Hx. by apply Hx. }
  intros n Hn. split.
  - assert (0 < holders n (filter (purged round) (map_to_list (rounds cache)))); [|lia].
    apply holders_pos. exists (r', s'). split; [|done].
    apply list_elem_of_filter. split; [done|]. by apply elem_of_map_to_list.
  - rewrite Hc'.
    by rewrite (holders_Permutation n _ _ (purged_stored_fresh gov cache round keySet Hfresh)).
Qed.

(** The purge loop only deletes rounds. *)
Lemma purgeRounds_rounds round (l : list (Z * sets)) : forall cache cache',
  purgeRounds round cache l = Some cache' ->
  forall r, is_Some (rounds cache' !! r) -> is_Some (rounds cache !! r).
Proof.
  induction l as [|e l IH]; intros cache cache' E r Hr; simpl in E.
  - by simplify_eq.
  - destruct (purgeRound round cache e) as [cache1|] eqn:E1; [|done].
    specialize (IH cache1 cache' E r Hr). unfold purgeRound in E1.
    destruct (keeps round e.1); [by simplify_eq|].
    destruct (releaseKeys _ _); [|done]. simplify_eq. simpl in IH.
    destruct (decide (r = e.1)) as [->|Hne].
    + rewrite lookup_delete_eq in IH. by destruct IH.
    + by rewrite lookup_delete_ne in IH.
Qed.

Lemma update_agrees gov cache round :
  agrees gov cache -> agrees gov (update gov cache round).2.
Proof.
  intros Ha. unfold update. destruct (NodeSet gov round) as [keySet|] eqn:Hgov; [|done].
  assert (agrees gov (stored gov cache round keySet)) as Hs.
  { intros r Hr. unfold stored in Hr. simpl in Hr.
    destruct (decide (r = round)) as [->|Hne]; [by rewrite Hgov|].
    rewrite lookup_insert_ne in Hr by done. by apply Ha. }
  destruct (purgeRounds _ _ _) as [cache2|] eqn:E; [|done]. simpl.
  intros r Hr. apply Hs. eapply purgeRounds_rounds; eauto.
Qed.

Lemma getOrUpdate_agrees gov cache round :
  agrees gov cache -> agrees gov (getOrUpdate gov cache round).2.
Proof.
  intros Ha. unfold getOrUpdate, get. destruct (rounds cache !! round); [done|].
  by apply update_agrees.
Qed.

Lemma NewNodeSetCache_agrees gov : agrees gov NewNodeSetCache.
Proof. intros r [x Hx]. simpl in Hx. by rewrite lookup_empty in Hx. Qed.

Lemma Exists_agrees gov cache round nodeID :
  agrees gov cache -> agrees gov (Exists gov cache round nodeID).2.
Proof.
  intros Ha. unfold Exists, get. destruct (rounds cache !! round); [done|].
  pose proof (update_agrees gov cache round Ha).
  by destruct (update gov cache round) as [[?| |] ?].
Qed.

Lemma GetNodeSet_agrees gov cache round :
  agrees gov cache -> agrees gov (GetNodeSet gov cache round).2.
Proof.
  intros Ha. unfold GetNodeSet, get. destruct (rounds cache !! round); [done|].
  pose proof (update_agrees gov cache round Ha).
  by destruct (update gov cache round) as [[?| |] ?].
Qed.

Lemma GetNotarySet_agrees gov cache round chainID :
  agrees gov cache -> agrees gov (GetNotarySet gov cache round chainID).2.
Proof.
  intros Ha. unfold GetNotarySet.
  pose proof (getOrUpdate_agrees gov cache round Ha).
  destruct (getOrUpdate gov cache round) as [[IDs| |] ?]; try done.
  destruct (_ <=? _); [done|]. by destruct (_ !! _).
Qed.

Lemma GetDKGSet_agrees gov cache round :
  agrees gov cache -> agrees gov (GetDKGSet gov cache round).2.
Proof.
  intros Ha. unfold GetDKGSet.
  pose proof (getOrUpdate_agrees gov cache round Ha).
  by destruct (getOrUpdate gov cache round) as [[IDs| |] ?].
Qed.

(** [cloneMap] returns a set with the same members. *)
Lemma cloneMap_id (nIDs : gset NodeID) : cloneMap nIDs = nIDs.
Proof.
  unfold cloneMap. transitivity (list_to_set (C := gset NodeID) (elements nIDs)).
  - induction (elements nIDs) as [|k l IH]; [done|]. simpl. by rewrite IH.
  - apply list_to_set_elements_L.
Qed.

(** A cache filled by asking a governance holds no round the governance
    has not published. *)
Lemma agrees_not_cached gov cache round :
  agrees gov cache -> NodeSet gov round = None -> rounds cache !! round = None.
Proof.
  intros Ha Hgov. destruct (rounds cache !! round) eqn:E; [|done].
  destruct (Ha round) as [x Hx]; [eauto | congruence].
Qed.

(** [C7, as the code has it] When [round] is not cached and the governance
    returns nil for it (no list at all: an empty list that is not nil is
    a node set), each of [Exists], [GetNodeSet], [GetNotarySet] and
    [GetDKGSet] returns [ErrRoundNotReady] and the cache it leaves is the
    cache it found; once the governance has a list for the round, empty
    or not, the same calls on that cache succeed (for [GetNotarySet]:
    [getOrUpdate] inside it succeeds). *)
Theorem round_not_ready gov cache round nodeID chainID :
  NodeSet gov round = None ->
  rounds cache !! round = None ->
  Exists gov cache round nodeID = (Err ErrRoundNotReady, cache) /\
  GetNodeSet gov cache round = (Err ErrRoundNotReady, cache) /\
  GetNotarySet gov cache round chainID = (Err ErrRoundNotReady, cache) /\
  GetDKGSet gov cache round = (Err ErrRoundNotReady, cache) /\
  (consistent cache ->
   forall gov' keySet, NodeSet gov' round = Some keySet ->
     exists nIDs cache',
       getOrUpdate gov' cache round = (Ok nIDs, cache') /\
       Exists gov' cache round nodeID = (Ok (bool_decide (nodeID ∈ nodeSet nIDs)), cache') /\
       GetNodeSet gov' cache round = (Ok (nodeSet nIDs), cache') /\
       GetDKGSet gov' cache round = (Ok (dkgSet nIDs), cache')).
Proof.
  intros Hgov Hmiss.
  assert (update gov cache round = (Err ErrRoundNotReady, cache)) as Hu
    by (unfold update; by rewrite Hgov).
  unfold Exists, GetNodeSet, GetNotarySet, GetDKGSet, getOrUpdate, get.
  rewrite Hmiss, Hu. repeat split; try done.
  intros [Hwf Hc] gov' keySet Hgov'.
  destruct (update_spec gov' cache round keySet Hgov' Hwf) as (cache' & E & _).
  { intros n. rewrite Hc. lia. }
  eexists _, cache'. rewrite E. simpl. rewrite cloneMap_id. done.
Qed.


End NodeSetCacheFacts.

(** ** The DKG group public key *)

Section DKGFacts.
Import TSig.
Context `{Helpers}.



Lemma nacks_nonneg complaints j : 0 <= nacks complaints j.
Proof. unfold nacks. lia. Qed.




(** The third loop keeps the master public keys of the nodes that are not
    disqualified, in order. *)
Lemma qualify_fold disqualifyIDs mpks : forall q0 : qualified,
  let q := foldl (qualifyStep disqualifyIDs) q0 mpks in
  let Q := qualifiedMpks disqualifyIDs mpks in
  q_qualifyIDs q = q_qualifyIDs q0 ++ (mpk_DKGID <$> Q) /\
  (forall n, n ∈ q_qualifyNodeIDs q <->
             n ∈ q_qualifyNodeIDs q0 \/ n ∈ mpk_ProposerID <$> Q) /\
  (forall id, id ∉ mpk_DKGID <$> Q -> q_mpkMap q !! id = q_mpkMap q0 !! id) /\
  (NoDup (mpk_DKGID <$> Q) ->
   forall m, m ∈ Q -> q_mpkMap q !! mpk_DKGID m = Some m).
Proof.
  induction mpks as [|mpk mpks IH]; intros q0; simpl.
  - split; [by rewrite app_nil_r|]. split; [|split; [done|]].
    + intros n. split; [by left|]. intros [?|Hin]; [done|]. by apply elem_of_nil in Hin.
    + intros _ m Hm. by apply elem_of_nil in Hm.
  - unfold qualifiedMpks. rewrite filter_cons.
    fold (qualifiedMpks disqualifyIDs mpks).
    destruct (IH (qualifyStep disqualifyIDs q0 mpk)) as (H1 & H2 & H3 & H4).
    unfold qualifyStep in H1, H2, H3, H4 |- *.
    destruct (decide (mpk_ProposerID mpk ∉ disqualifyIDs)) as [Hok|Hbad].
    + rewrite bool_decide_eq_false_2 in H1, H2, H3, H4 |- * by done.
      simpl in H1, H2, H3, H4. split; [|split; [|split]].
      * rewrite H1, fmap_cons, <- app_assoc. done.
      * intros n. rewrite H2, fmap_cons, elem_of_cons, elem_of_union, elem_of_singleton.
        tauto.
      * intros id Hid. rewrite fmap_cons in Hid. apply not_elem_of_cons in Hid as [Hne Hid].
        rewrite H3 by done. by rewrite lookup_insert_ne.
      * intros Hnd m Hm. rewrite fmap_cons in Hnd. apply NoDup_cons in Hnd as [Hfresh Hnd].
        apply elem_of_cons in Hm as [->|Hm]; [|by apply H4].
        rewrite H3 by done. apply lookup_insert_eq.
    + rewrite bool_decide_eq_true_2 in H1, H2, H3, H4 |- *
        by (destruct (decide (mpk_ProposerID mpk ∈ disqualifyIDs)); tauto).
      done.
Qed.

Lemma collectShares_cases (mpkMap : gmap ID DKGMasterPublicKey) recvID ids :
  (forall id, id ∈ ids -> is_Some (mpkMap !! id)) ->
  forall pubShares,
    (exists e, collectShares mpkMap recvID pubShares ids = Err (ErrLibrary e)) \/
    (exists pubShares', collectShares mpkMap recvID pubShares ids = Ok pubShares').
Proof.
  induction ids as [|id ids IH]; intros Hdom pubShares; simpl; [right; eauto|].
  destruct (Hdom id) as [mpk ->]; [by left|].
  destruct (Share _ _) as [pubShare|e]; [|left; eauto].
  destruct (AddShare _ _ _) as [pubShares'|e]; [|left; eauto].
  apply IH. intros id' Hid'. apply Hdom. by right.
Qed.

Lemma recoverPublicKeys_cases (mpkMap : gmap ID DKGMasterPublicKey) qualifyIDs recvIDs :
  (forall id, id ∈ qualifyIDs -> is_Some (mpkMap !! id)) ->
  (forall id, id ∈ recvIDs -> is_Some (mpkMap !! id)) ->
  forall pubKeys,
    (exists e, recoverPublicKeys mpkMap qualifyIDs pubKeys recvIDs = Err (ErrLibrary e)) \/
    (exists pubKeys', recoverPublicKeys mpkMap qualifyIDs pubKeys recvIDs = Ok pubKeys').
Proof.
  intros Hq. induction recvIDs as [|recvID recvIDs IH]; intros Hdom pubKeys; simpl;
    [right; eauto|].
  destruct (collectShares_cases mpkMap recvID qualifyIDs Hq NewEmptyPublicKeyShares)
    as [[e ->]|[pubShares ->]]; [left; eauto|].
  destruct (RecoverPublicKey _ _) as [pubKey|e]; [|left; eauto].
  destruct (Hdom recvID) as [mpk ->]; [by left|].
  apply IH. intros id' Hid'. apply Hdom. by right.
Qed.

Lemma groupShares_spec (mpkMap : gmap ID DKGMasterPublicKey)
    (Q : list DKGMasterPublicKey) :
  (forall m, m ∈ Q -> mpkMap !! mpk_DKGID m = Some m) ->
  groupShares mpkMap (mpk_DKGID <$> Q) = Ok (mpk_PublicKeyShares <$> Q).
Proof.
  induction Q as [|m Q IH]; intros Hdom; [done|]. rewrite !fmap_cons. simpl.
  rewrite (Hdom m) by (by left). rewrite IH; [done|].
  intros m' Hm'. apply Hdom. by right.
Qed.

(** The third loop, without any assumption on the DKG IDs: every
    qualified ID has a master public key in [mpkMap], and [idMap] has
    exactly the qualified proposers. *)
Lemma qualify_maps disqualifyIDs mpks : forall q0 : qualified,
  (forall id, id ∈ q_qualifyIDs q0 -> is_Some (q_mpkMap q0 !! id)) ->
  let q := foldl (qualifyStep disqualifyIDs) q0 mpks in
  (forall id, id ∈ q_qualifyIDs q -> is_Some (q_mpkMap q !! id)) /\
  (forall n, is_Some (q_idMap q !! n) <->
             is_Some (q_idMap q0 !! n) \/
             n ∈ mpk_ProposerID <$> qualifiedMpks disqualifyIDs mpks).
Proof.
  induction mpks as [|mpk mpks IH]; intros q0 Hq0; simpl.
  - split; [done|]. intros n. split; [by left|]. intros [?|Hin]; [done|].
    by apply elem_of_nil in Hin.
  - unfold qualifiedMpks. rewrite filter_cons. fold (qualifiedMpks disqualifyIDs mpks).
    destruct (decide (mpk_ProposerID mpk ∉ disqualifyIDs)) as [Hok|Hbad].
    + destruct (IH (qualifyStep disqualifyIDs q0 mpk)) as [H1 H2].
      { unfold qualifyStep. rewrite bool_decide_eq_false_2 by done. simpl.
        intros id Hid. apply elem_of_app in Hid as [Hid|Hid].
        - destruct (decide (id = mpk_DKGID mpk)) as [->|Hne];
            [rewrite lookup_insert_eq; eauto|].
          rewrite lookup_insert_ne by done. by apply Hq0.
        - apply list_elem_of_singleton in Hid. subst. rewrite lookup_insert_eq. eauto. }
      split; [done|]. intros n. rewrite H2. unfold qualifyStep.
      rewrite bool_decide_eq_false_2 by done. simpl.
      rewrite elem_of_cons.
      destruct (decide (n = mpk_ProposerID mpk)) as [->|Hne].
      * rewrite lookup_insert_eq. split; [intros _; right; by left | intros _; left; eauto].
      * rewrite lookup_insert_ne by done. tauto.
    + assert (qualifyStep disqualifyIDs q0 mpk = q0) as ->.
      { unfold qualifyStep. rewrite bool_decide_eq_true_2; [done|].
        destruct (decide (mpk_ProposerID mpk ∈ disqualifyIDs)); tauto. }
      by apply IH.
Qed.





Lemma groupShares_no_err (mpkMap : gmap ID DKGMasterPublicKey) ids e :
  groupShares mpkMap ids <> Err e.
Proof.
  induction ids as [|id ids IH]; simpl; [done|].
  destruct (mpkMap !! id); [|done]. by destruct (groupShares mpkMap ids).
Qed.



End DKGFacts.

(** ** The threshold signature *)

Section TSigFacts.
Import TSig.
Context `{Helpers}.

(** [accepts] only looks at the group key and the hash of the protocol. *)
Lemma accepts_same tsig1 tsig2 psig :
  tsig_groupPublicKey tsig1 = tsig_groupPublicKey tsig2 ->
  tsig_hash tsig1 = tsig_hash tsig2 ->
  accepts tsig1 psig -> accepts tsig2 psig.
Proof. unfold accepts. intros -> ->. done. Qed.

(** A partial signature that passes the checks is stored under the DKG
    ID of its proposer. *)
Lemma processPartialSignature_accepted tsig psig :
  accepts tsig psig ->
  exists id,
    idMap (tsig_groupPublicKey tsig) !! psig_ProposerID psig = Some id /\
    processPartialSignature tsig psig =
      (Ok None,
       {| tsig_groupPublicKey := tsig_groupPublicKey tsig;
          tsig_hash := tsig_hash tsig;
          tsig_sigs := <[id := psig_PartialSignature psig]> (tsig_sigs tsig);
          tsig_threshold := tsig_threshold tsig |}).
Proof.
  intros (Hr & [id Hid] & Hv & Hh & pubKey & Hpk & Hs).
  exists id. split; [done|]. unfold processPartialSignature, sanityCheck.
  rewrite bool_decide_eq_true_2 by done. simpl.
  rewrite Hid, Hpk, Hv. rewrite bool_decide_eq_true_2 by done.
  by rewrite Hs.
Qed.

(** Any other partial signature leaves the protocol as it was. *)
Lemma processPartialSignature_rejected tsig psig :
  ¬ accepts tsig psig -> (processPartialSignature tsig psig).2 = tsig.
Proof.
  intros Hno. unfold processPartialSignature.
  destruct (decide (psig_Round psig = round (tsig_groupPublicKey tsig))) as [Hr|Hr].
  2:{ by rewrite bool_decide_eq_false_2. }
  rewrite bool_decide_eq_true_2 by done. simpl.
  destruct (idMap _ !! _) as [id|] eqn:Hid; [|done].
  unfold sanityCheck.
  destruct (publicKeys _ !! _) as [pubKey|] eqn:Hpk; [|done].
  destruct (verifyDKGPartialSignatureSignature psig) as [[|]|e] eqn:Hv; [|done|done].
  destruct (decide (psig_Hash psig = tsig_hash tsig)) as [Hh|Hh].
  2:{ by rewrite bool_decide_eq_false_2. }
  rewrite bool_decide_eq_true_2 by done.
  destruct (VerifySignature _ _ _) eqn:Hs; [|done].
  exfalso. apply Hno. unfold accepts. rewrite Hid, Hpk. eauto 10.
Qed.

Lemma acceptedIDs_elem tsig psigs id :
  id ∈ acceptedIDs tsig psigs <->
  exists psig, psig ∈ psigs /\ accepts tsig psig /\
    idMap (tsig_groupPublicKey tsig) !! psig_ProposerID psig = Some id.
Proof.
  unfold acceptedIDs. rewrite elem_of_list_to_set, list_elem_of_omap.
  split.
  - intros (psig & Hin & Hid). apply list_elem_of_filter in Hin as [Ha Hin]. eauto.
  - intros (psig & Hin & Ha & Hid). exists psig. split; [|done].
    by apply list_elem_of_filter.
Qed.

(** A run of [processPartialSignature]: the group key and the hash stay,
    and the stored signatures are those that were there and the accepted
    ones, each under the DKG ID of its proposer. *)
Lemma processPartialSignatures_spec psigs : forall tsig,
  let tsig' := processPartialSignatures tsig psigs in
  tsig_groupPublicKey tsig' = tsig_groupPublicKey tsig /\
  tsig_hash tsig' = tsig_hash tsig /\
  (forall id, is_Some (tsig_sigs tsig' !! id) <->
     is_Some (tsig_sigs tsig !! id) \/
     exists psig, psig ∈ psigs /\ accepts tsig psig /\
       idMap (tsig_groupPublicKey tsig) !! psig_ProposerID psig = Some id) /\
  (forall id sig, tsig_sigs tsig' !! id = Some sig ->
     tsig_sigs tsig !! id = Some sig \/
     exists psig, psig ∈ psigs /\ accepts tsig psig /\
       idMap (tsig_groupPublicKey tsig) !! psig_ProposerID psig = Some id /\
       sig = psig_PartialSignature psig).
Proof.
  induction psigs as [|psig psigs IH]; intros tsig; simpl.
  - split; [done|]. split; [done|]. split.
    + intros id. split; [by left|]. intros [?|(p & Hp & _)]; [done|].
      by apply elem_of_nil in Hp.
    + intros id sig Hs. by left.
  - destruct (IH (processPartialSignature tsig psig).2) as (Hg & Hh & Hd & Hv).
    fold (processPartialSignatures (processPartialSignature tsig psig).2 psigs)
      in Hg, Hh, Hd, Hv |- *.
    destruct (decide (accepts tsig psig)) as [Ha|Hno].
    + destruct (processPartialSignature_accepted tsig psig Ha) as (id0 & Hid0 & E).
      rewrite E in Hg, Hh, Hd, Hv |- *. simpl in Hg, Hh, Hd, Hv.
      set (tsig1 := {| tsig_groupPublicKey := tsig_groupPublicKey tsig;
                       tsig_hash := tsig_hash tsig;
                       tsig_sigs := <[id0 := psig_PartialSignature psig]> (tsig_sigs tsig);
                       tsig_threshold := tsig_threshold tsig |}) in *.
      split; [done|]. split; [done|]. split.
      * intros id. rewrite Hd. split.
        -- intros [Hs|(p & Hp & Hap & Hidp)].
           ++ destruct (decide (id = id0)) as [->|Hne].
              ** right. exists psig. split; [by left | done].
              ** left. by rewrite lookup_insert_ne in Hs.
           ++ right. exists p. split; [by right|]. split; [|done].
              by apply (accepts_same tsig1 tsig).
        -- intros [Hs|(p & Hp & Hap & Hidp)].
           ++ left. destruct (decide (id = id0)) as [->|Hne].
              ** rewrite lookup_insert_eq. eauto.
              ** by rewrite lookup_insert_ne.
           ++ apply elem_of_cons in Hp as [->|Hp].
              ** left. replace id with id0 by congruence. rewrite lookup_insert_eq. eauto.
              ** right. exists p. split; [done|]. split; [|done].
                 by apply (accepts_same tsig tsig1).
      * intros id sig Hs. destruct (Hv id sig Hs) as [Hs1|(p & Hp & Hap & Hidp & ->)].
        -- destruct (decide (id = id0)) as [->|Hne].
           ++ rewrite lookup_insert_eq in Hs1. simplify_eq. right. exists psig.
              split; [by left | done].
           ++ left. by rewrite lookup_insert_ne in Hs1.
        -- right. exists p. split; [by right|]. split; [|done].
           by apply (accepts_same tsig1 tsig).
    + rewrite (processPartialSignature_rejected tsig psig Hno) in Hg, Hh, Hd, Hv |- *.
      split; [done|]. split; [done|]. split.
      * intros id. rewrite Hd. split.
        -- intros [?|(p & Hp & Hap & Hidp)]; [by left|]. right. exists p.
           split; [by right | done].
        -- intros [?|(p & Hp & Hap & Hidp)]; [by left|].
           apply elem_of_cons in Hp as [->|Hp]; [done|]. right. by exists p.
      * intros id sig Hs. destruct (Hv id sig Hs) as [?|(p & Hp & Hap & Hidp & ->)];
          [by left|]. right. exists p. split; [by right | done].
Qed.

(** [C4, as the code has it] After any run of [processPartialSignature]
    on a fresh protocol, the protocol holds one partial signature for
    each DKG ID that has an accepted partial signature (one that passed
    the qualification, signature, hash and verification checks), and none
    else; [signature] fails with [ErrNotEnoughtPartialSignatures] exactly
    when fewer than [threshold] distinct DKG IDs have an accepted partial
    signature, however many partial signatures were accepted, and
    otherwise hands the held partial signatures and their DKG IDs to
    [RecoverSignature]. *)
Theorem signature_threshold gpk hash psigs :
  let tsig := processPartialSignatures (newTSigProtocol gpk hash) psigs in
  dom (tsig_sigs tsig) = acceptedIDs (newTSigProtocol gpk hash) psigs /\
  (forall id sig, tsig_sigs tsig !! id = Some sig ->
     exists psig, psig ∈ psigs /\ accepts (newTSigProtocol gpk hash) psig /\
       idMap gpk !! psig_ProposerID psig = Some id /\
       sig = psig_PartialSignature psig) /\
  (signature tsig = Err ErrNotEnoughtPartialSignatures <->
     Z.of_nat (size (acceptedIDs (newTSigProtocol gpk hash) psigs)) < threshold gpk) /\
  (threshold gpk <= Z.of_nat (size (acceptedIDs (newTSigProtocol gpk hash) psigs)) ->
     signature tsig =
       match RecoverSignature (map_to_list (tsig_sigs tsig)).*2
               (map_to_list (tsig_sigs tsig)).*1 with
       | LibOk sig => Ok sig
       | LibErr e => Err (ErrLibrary e)
       end).
Proof.
  intros tsig.
  destruct (processPartialSignatures_spec psigs (newTSigProtocol gpk hash))
    as (Hg & Hh & Hd & Hv).
  fold tsig in Hg, Hh, Hd, Hv. simpl in Hg, Hh, Hd, Hv.
  assert (dom (tsig_sigs tsig) = acceptedIDs (newTSigProtocol gpk hash) psigs) as Hdom.
  { apply set_eq. intros id. rewrite elem_of_dom, Hd, acceptedIDs_elem. simpl.
    rewrite lookup_empty. split; [|by right].
    intros [[? ?]|?]; [done | done]. }
  assert (size (tsig_sigs tsig) = size (acceptedIDs (newTSigProtocol gpk hash) psigs))
    as Hsize by (by rewrite <- Hdom, size_dom).
  split; [done|]. split.
  { intros id sig Hs. destruct (Hv id sig Hs) as [Hs0|?]; [|done].
    by rewrite lookup_empty in Hs0. }
  unfold signature. rewrite Hg, Hsize.
  destruct (Z.ltb_spec (Z.of_nat (size (acceptedIDs (newTSigProtocol gpk hash) psigs)))
              (threshold gpk)) as [Hlt|Hge].
  - split; [done|]. intros ?. lia.
  - split; [|done]. split; [|lia]. intros E. by destruct (RecoverSignature _ _).
Qed.

(** The group key [NewDKGGroupPublicKey] returns carries the threshold it
    was called with. *)
Lemma NewDKGGroupPublicKey_threshold round0 mpks complaints threshold0 gpk :
  NewDKGGroupPublicKey round0 mpks complaints threshold0 = Ok gpk ->
  threshold gpk = threshold0.
Proof.
  unfold NewDKGGroupPublicKey. destruct (_ <? _); [done|].
  destruct (recoverPublicKeys _ _ _ _); [|done|done].
  destruct (groupShares _ _); [|done|done].
  intros ?; by simplify_eq.
Qed.

(** [Update] builds the group key of a round with the threshold
    [DKGSetSize/3 + 1]. *)
Lemma Update_threshold gov tc round0 tc' gpk :
  verifier tc !! round0 = None ->
  Update gov tc round0 = Some (Ok true, tc') ->
  verifier tc' !! round0 = Some gpk ->
  threshold gpk = DKGSetSize gov round0 / 3 + 1.
Proof.
  intros Hmiss. unfold Update. destruct (_ <? _); [done|]. rewrite Hmiss.
  destruct (IsDKGFinal gov round0); simpl; [|done].
  destruct (NewDKGGroupPublicKey _ _ _ _) as [gpk0| |] eqn:E; [|done|done].
  apply NewDKGGroupPublicKey_threshold in E.
  destruct (advanceMinRound _ _); [|done]. intros ?; simplify_eq. simpl.
  intros Hl. destruct (_ <? _) in Hl.
  - apply lookup_delete_Some in Hl as [_ Hl]. rewrite lookup_insert_eq in Hl.
    by simplify_eq.
  - rewrite lookup_insert_eq in Hl. by simplify_eq.
Qed.

Lemma least_None (l : list Z) : least l = None <-> l = [].
Proof.
  destruct l as [|x l]; [done|]. simpl. fold (least l). split; [|done].
  by destruct (least l).
Qed.

Lemma least_Some (l : list Z) k :
  least l = Some k -> k ∈ l /\ forall x, x ∈ l -> k <= x.
Proof.
  revert k. induction l as [|x l IH]; intros k; [done|]. simpl.
  fold (least l). destruct (least l) as [y|] eqn:E.
  - intros ?; simplify_eq. destruct (IH y eq_refl) as [Hy Hmin]. split.
    + destruct (Z.min_spec x y) as [[_ ->]|[_ ->]]; [by left | by right].
    + intros z Hz. apply elem_of_cons in Hz as [->|Hz]; [lia|].
      specialize (Hmin z Hz). lia.
  - intros ?; simplify_eq. apply least_None in E. subst l. split; [by left|].
    intros z Hz. apply list_elem_of_singleton in Hz. lia.
Qed.

(** [advanceMinRound] is what the last loop of [Update] computes: it stops
    at a cached round, and no round it stepped over (from [minRound] up,
    and after the wrap from 0 up) is cached. *)
Lemma advanceMinRound_spec (verifier0 : gmap Z DKGGroupPublicKey) minRound0 k :
  advanceMinRound verifier0 minRound0 = Some k ->
  is_Some (verifier0 !! k) /\
  (minRound0 <= k -> forall j, minRound0 <= j < k -> verifier0 !! j = None) /\
  (k < minRound0 -> forall j, minRound0 <= j \/ j < k -> verifier0 !! j = None).
Proof.
  unfold advanceMinRound.
  assert (forall j, j ∈ (map_to_list verifier0).*1 <-> is_Some (verifier0 !! j)) as Hkeys.
  { intros j. rewrite list_elem_of_fmap. split.
    - intros ([j' x] & -> & Hin). apply elem_of_map_to_list in Hin. eauto.
    - intros [x Hx]. exists (j, x). split; [done|]. by apply elem_of_map_to_list. }
  destruct (least (filter _ _)) as [k'|] eqn:E.
  - intros ?; simplify_eq. apply least_Some in E as [Hin Hmin].
    apply list_elem_of_filter in Hin as [Hge Hin]. split; [by apply Hkeys|]. split.
    + intros _ j Hj. destruct (verifier0 !! j) eqn:Ej; [|done].
      assert (k <= j); [|lia]. apply Hmin. apply list_elem_of_filter.
      split; [lia|]. apply Hkeys. eauto.
    + intros ?. lia.
  - intros E2. apply least_None in E. apply least_Some in E2 as [Hin Hmin].
    assert (forall j, minRound0 <= j -> verifier0 !! j = None) as Habove.
    { intros j Hj. destruct (verifier0 !! j) eqn:Ej; [|done].
      assert (j ∈ filter (fun k0 => minRound0 <= k0) (map_to_list verifier0).*1) as Hf.
      { apply list_elem_of_filter. split; [done|]. apply Hkeys. eauto. }
      rewrite E in Hf. by apply elem_of_nil in Hf. }
    split; [by apply Hkeys|]. split.
    + intros Hle. apply Hkeys in Hin as [x Hx]. rewrite Habove in Hx by done. done.
    + intros _ j [Hj|Hj]; [by apply Habove|].
      destruct (verifier0 !! j) eqn:Ej; [|done].
      assert (k <= j); [|lia]. apply Hmin, Hkeys. eauto.
Qed.

(** On an empty map the loop finds nothing to stop at. *)
Lemma advanceMinRound_empty minRound0 :
  advanceMinRound (∅ : gmap Z DKGGroupPublicKey) minRound0 = None.
Proof. unfold advanceMinRound. by rewrite map_to_list_empty. Qed.

End TSigFacts.

(** ** The orchestrator *)

Section ConsensusFacts.
Import Consensus.
Context `{Modules}.

(** The DKG [NewConsensus] registers for round 0 has the threshold
    [len(nodes.IDs)/3]. *)
Lemma NewConsensus_threshold gov db0 pub con :
  NewConsensus gov db0 pub = Ok con ->
  exists nodes cache,
    NodeSetCache.GetNodeSet (cacheGov gov) NodeSetCache.NewNodeSetCache 0
      = (Ok nodes, cache) /\
    cfg_dkg (cfgModule con) =
      Some (newDKGProtocol (NodeSetCache.NewNodeID pub) 0 (Z.of_nat (size nodes) / 3)).
Proof.
  unfold NewConsensus.
  destruct (NodeSetCache.GetNodeSet _ _ _) as [[nodes| |] cache]; [|done|done].
  intros ?; simplify_eq. exists nodes, cache. done.
Qed.

(** The tests of [sanityCheck], in order: which one a block fails first
    decides the result. *)
Lemma sanityCheck_cases con b :
  (¬ positionOK con b /\ sanityCheck con b = Some ErrIncorrectBlockPosition) \/
  (positionOK con b /\ IsGenesis b = false /\ ¬ inInterval con b /\
   sanityCheck con b = Some ErrIncorrectBlockTime) \/
  (positionOK con b /\ (IsGenesis b = true \/ inInterval con b) /\ ¬ hashOK b /\
   sanityCheck con b = Some ErrIncorrectHash) \/
  (positionOK con b /\ (IsGenesis b = true \/ inInterval con b) /\ hashOK b /\
   exists e, SigToPub (BlockHash b) (BlockSignature b) = LibErr e /\
     sanityCheck con b = Some (ErrLibrary e)) \/
  (positionOK con b /\ (IsGenesis b = true \/ inInterval con b) /\ hashOK b /\
   exists pubKey, SigToPub (BlockHash b) (BlockSignature b) = LibOk pubKey /\
     ProposerID b <> NodeSetCache.NewNodeID pubKey /\
     sanityCheck con b = Some ErrIncorrectSignature) \/
  (positionOK con b /\ (IsGenesis b = true \/ inInterval con b) /\ hashOK b /\
   signerOK b /\ sanityCheck con b = None).
Proof.
  unfold sanityCheck, positionOK, inInterval, hashOK, signerOK.
  destruct (Z.eqb_spec (ShardID (BlockPosition b)) 0) as [Hs|Hs]; simpl.
  2:{ left. split; [tauto | done]. }
  destruct (Z.leb_spec (rb_chainNum (rbModule con)) (ChainID (BlockPosition b)))
    as [Hc|Hc]; simpl.
  { left. split; [lia | done]. }
  right.
  assert ((IsGenesis b = true \/
           rb_chainTime (rbModule con) (ChainID (BlockPosition b))
             + MinBlockInterval (currentConfig con) <= Timestamp b
             <= rb_chainTime (rbModule con) (ChainID (BlockPosition b))
                + MaxBlockInterval (currentConfig con)) \/
          (IsGenesis b = false /\
           ¬ (rb_chainTime (rbModule con) (ChainID (BlockPosition b))
                + MinBlockInterval (currentConfig con) <= Timestamp b
                <= rb_chainTime (rbModule con) (ChainID (BlockPosition b))
                   + MaxBlockInterval (currentConfig con)))) as [Ht|[Hg Ht]].
  { destruct (IsGenesis b); [left; by left|].
    destruct (decide (rb_chainTime (rbModule con) (ChainID (BlockPosition b))
                + MinBlockInterval (currentConfig con) <= Timestamp b
                <= rb_chainTime (rbModule con) (ChainID (BlockPosition b))
                   + MaxBlockInterval (currentConfig con))); [left; by right | by right]. }
  2:{ left. rewrite Hg. simpl.
      destruct (Z.ltb_spec (Timestamp b)
                  (rb_chainTime (rbModule con) (ChainID (BlockPosition b))
                   + MinBlockInterval (currentConfig con))); simpl; [done|].
      destruct (Z.ltb_spec (rb_chainTime (rbModule con) (ChainID (BlockPosition b))
                            + MaxBlockInterval (currentConfig con)) (Timestamp b));
        simpl; [done | lia]. }
  right.
  assert (negb (IsGenesis b)
          && ((Timestamp b <? rb_chainTime (rbModule con) (ChainID (BlockPosition b))
                 + MinBlockInterval (currentConfig con))
              || (rb_chainTime (rbModule con) (ChainID (BlockPosition b))
                  + MaxBlockInterval (currentConfig con) <? Timestamp b)) = false) as ->.
  { destruct Ht as [->|Ht]; [done|]. apply andb_false_iff. right.
    apply orb_false_iff. split; [apply Z.ltb_ge | apply Z.ltb_ge]; lia. }
  destruct (hashBlock b) as [hash|e] eqn:Hh; [|left; done].
  destruct (decide (hash = BlockHash b)) as [->|Hne].
  2:{ rewrite bool_decide_eq_false_2 by done. simpl. left.
      repeat split; try done. congruence. }
  rewrite bool_decide_eq_true_2 by done. simpl. right.
  destruct (SigToPub _ _) as [pubKey|e] eqn:Hp; [|left; eauto 10].
  right. destruct (decide (ProposerID b = NodeSetCache.NewNodeID pubKey)) as [Hid|Hid].
  - rewrite bool_decide_eq_true_2 by done. simpl. right. eauto 10.
  - rewrite bool_decide_eq_false_2 by done. simpl. left. eauto 10.
Qed.

(** [C6, as the code has it] [sanityCheck] accepts a block exactly when
    its shard is 0 and its chain is below the chain number of the reliable
    broadcast, its timestamp is within [chainTime + MinBlockInterval,
    chainTime + MaxBlockInterval] or the block is a genesis block (which
    is not tested for its time), the recomputed hash is its hash, and the
    node ID of the recovered signer is its proposer. The first failing
    test gives [ErrIncorrectBlockPosition], [ErrIncorrectBlockTime],
    [ErrIncorrectHash], the error of the signature recovery, or
    [ErrIncorrectSignature]; and [preProcessBlock] then returns that error
    without calling the agreement module: the orchestrator is as it
    was. *)
Theorem sanityCheck_accepts con b :
  (sanityCheck con b = None <->
     positionOK con b /\ (IsGenesis b = true \/ inInterval con b) /\
     hashOK b /\ signerOK b) /\
  (¬ positionOK con b -> sanityCheck con b = Some ErrIncorrectBlockPosition) /\
  (positionOK con b -> IsGenesis b = false -> ¬ inInterval con b ->
     sanityCheck con b = Some ErrIncorrectBlockTime) /\
  (positionOK con b -> (IsGenesis b = true \/ inInterval con b) -> ¬ hashOK b ->
     sanityCheck con b = Some ErrIncorrectHash) /\
  (positionOK con b -> (IsGenesis b = true \/ inInterval con b) -> hashOK b ->
     forall e, SigToPub (BlockHash b) (BlockSignature b) = LibErr e ->
     sanityCheck con b = Some (ErrLibrary e)) /\
  (positionOK con b -> (IsGenesis b = true \/ inInterval con b) -> hashOK b ->
     forall pubKey, SigToPub (BlockHash b) (BlockSignature b) = LibOk pubKey ->
     ProposerID b <> NodeSetCache.NewNodeID pubKey ->
     sanityCheck con b = Some ErrIncorrectSignature) /\
  (forall err, sanityCheck con b = Some err ->
     preProcessBlock con b = (Ok (Some err), con)).
Proof.
  assert (forall err, sanityCheck con b = Some err ->
            preProcessBlock con b = (Ok (Some err), con)) as Hpre.
  { intros err E. unfold preProcessBlock. by rewrite E. }
  destruct (sanityCheck_cases con b)
    as [(Hp & E)|[(Hp & Hg & Ht & E)|[(Hp & Ht & Hh & E)|[(Hp & Ht & Hh & e & Hs & E)
       |[(Hp & Ht & Hh & pk & Hs & Hid & E)|(Hp & Ht & Hh & Hs & E)]]]]];
    (split; [rewrite E; split; [intros ? | intros (? & ? & ? & ?)]
            | repeat (split; [|try exact Hpre]); intros ]);
    unfold signerOK in *;
    repeat match goal with
           | Hx : exists _, _ |- _ => destruct Hx
           | Hx : _ /\ _ |- _ => destruct Hx
           | Hx : _ \/ _ |- _ => destruct Hx
           end;
    try done; try tauto; try congruence; eauto 10.
Qed.

(** [processBlock] and its loops leave the receivers (hence their
    channels) and the agreement modules alone. *)
Lemma putBlocks_receivers blocks : forall con,
  receivers (putBlocks con blocks).2 = receivers con.
Proof.
  induction blocks as [|b blocks IH]; intros con; simpl; [done|].
  destruct (db_Put (db con) b) as [[code|] db']; [done|]. by rewrite IH.
Qed.

Lemma compactBlocks_receivers blocks : forall con,
  receivers (compactBlocks con blocks).2 = receivers con.
Proof.
  induction blocks as [|b blocks IH]; intros con; simpl; [done|].
  destruct (cc_processBlock (ccModule con) b) as [[[code|] b'] cc']; [done|].
  destruct (db_Update _ b') as [[code|] db']; [done|]. by rewrite IH.
Qed.

Lemma orderBlocks_receivers blocks : forall con,
  receivers (orderBlocks con blocks).2 = receivers con.
Proof.
  induction blocks as [|b blocks IH]; intros con; simpl; [done|].
  destruct (to_processBlock _ b) as [[[delivered early] [code|]] to']; [done|].
  destruct delivered as [|d delivered]; [by rewrite IH|].
  destruct (putBlocks _ _) as [[e|] con3] eqn:E3;
    pose proof (putBlocks_receivers (d :: delivered)
                  (with_to (with_nb con (nbModule con ++ [StronglyAcked (BlockHash b)])) to'))
      as H3; rewrite E3 in H3; simpl in H3; [done|].
  destruct (ct_processBlocks _ _) as [[[code|] timed] ct']; [done|].
  destruct (compactBlocks _ timed) as [[e|] con6] eqn:E6;
    pose proof (compactBlocks_receivers timed
                  (with_ct
                     (with_nb con3
                        (nbModule con3 ++
                         [TotalOrderingDelivered (map BlockHash (d :: delivered)) early]))
                     ct'))
      as H6; rewrite E6 in H6; simpl in H6; simpl; [by rewrite H6|].
  rewrite IH. by rewrite H6.
Qed.

Lemma processBlock_receivers con block :
  receivers (processBlock con block).2 = receivers con.
Proof.
  unfold processBlock. destruct (sanityCheck con block); [done|].
  destruct (rb_processBlock _ _) as [[code|] rb']; [done|].
  destruct (rb_extractBlocks _) as [blocks rb'']. by rewrite orderBlocks_receivers.
Qed.

(** A block [processBlock] lets through passed the sanity check and was
    taken by the reliable broadcast. *)
Lemma processBlock_delivered con block con' :
  processBlock con block = (None, con') ->
  sanityCheck con block = None /\
  (rb_processBlock (rbModule con) block).1 = None.
Proof.
  unfold processBlock. destruct (sanityCheck con block); [done|].
  destruct (rb_processBlock _ _) as [[code|] rb']; [done|]. done.
Qed.

(** [C8, as the code has it] [ConfirmBlock(h)] on the receiver of a
    chain: when [h] is not among the candidate blocks of the chain it logs
    [ErrUnknownBlockConfirmed] and nothing else happens (the orchestrator,
    its reliable broadcast and its channels are as before); when [h] is a
    candidate the block goes to [processBlock]: if that succeeds the block
    passed the sanity check and the reliable broadcast, and [false] is
    sent on [restartNotary]; if it fails, the error is logged and nothing
    is sent. *)
Theorem ConfirmBlock_cases con chainID hash ba :
  baModules con !! Z.to_nat chainID = Some ba ->
  (ba_findCandidateBlock ba hash = None ->
     ConfirmBlock con chainID hash = (Ok (Some ErrUnknownBlockConfirmed), con)) /\
  (forall block con',
     ba_findCandidateBlock ba hash = Some block ->
     processBlock con block = (None, con') ->
     sanityCheck con block = None /\
     (rb_processBlock (rbModule con) block).1 = None /\
     ConfirmBlock con chainID hash = (Ok None, sendRestart con' chainID false) /\
     receivers (sendRestart con' chainID false) =
       map (fun r =>
              if bool_decide (recv_chainID r = chainID)
              then {| recv_chainID := recv_chainID r;
                      restartNotary := restartNotary r ++ [false] |}
              else r)
           (receivers con)) /\
  (forall block err con',
     ba_findCandidateBlock ba hash = Some block ->
     processBlock con block = (Some err, con') ->
     ConfirmBlock con chainID hash = (Ok (Some err), con') /\
     receivers con' = receivers con).
Proof.
  intros Hba. unfold ConfirmBlock. rewrite Hba. split; [|split].
  - by intros ->.
  - intros block con' -> E. destruct (processBlock_delivered con block con' E) as [Hs Hrb].
    pose proof (processBlock_receivers con block) as Hr. rewrite E in Hr |- *.
    simpl in Hr. split; [done|]. split; [done|]. split; [done|].
    unfold sendRestart. simpl. by rewrite Hr.
  - intros block err con' -> E.
    pose proof (processBlock_receivers con block) as Hr. rewrite E in Hr |- *.
    done.
Qed.

(** What [Exists] answers when the round is cached. *)
Lemma Exists_cached gov cache round0 nodeID s :
  NodeSetCache.rounds cache !! round0 = Some s ->
  NodeSetCache.Exists gov cache round0 nodeID
    = (Ok (bool_decide (nodeID ∈ NodeSetCache.nodeSet s)), cache).
Proof. intros Hs. unfold NodeSetCache.Exists, NodeSetCache.get. by rewrite Hs. Qed.

Lemma with_cache_same con : with_cache con (nodeSetCache con) = con.
Proof. by destruct con. Qed.







End ConsensusFacts.

(** ** The cache theorems at work *)

Lemma exGov_distinct_keys : @NodeSetCache.distinct_keys Examples.exTypes Examples.exGov.
Proof.
  intros round keySet. simpl. unfold Examples.exNodeSet.
  repeat case_decide; intros ?; simplify_eq;
    apply (bool_decide_unpack _); vm_compute; exact I.
Qed.

Lemma exCache01_reachable : @NodeSetCache.reachable Examples.exTypes Examples.exCache01.
Proof.
  unfold Examples.exCache01.
  apply NodeSetCache.reachable_GetNodeSet; [|apply exGov_distinct_keys].
  apply NodeSetCache.reachable_GetNodeSet; [|apply exGov_distinct_keys].
  apply NodeSetCache.reachable_new.
Qed.

Lemma exCache6_reachable : @NodeSetCache.reachable Examples.exTypes Examples.exCache6.
Proof.
  unfold Examples.exCache6.
  apply NodeSetCache.reachable_GetNodeSet; [|apply exGov_distinct_keys].
  apply NodeSetCache.reachable_new.
Qed.

Lemma exCache01_agrees : @NodeSetCache.agrees Examples.exTypes Examples.exGov Examples.exCache01.
Proof.
  unfold Examples.exCache01.
  apply GetNodeSet_agrees, GetNodeSet_agrees, NewNodeSetCache_agrees.
Qed.

(** Updating round 6 on the cache of rounds 0 and 1. *)
Lemma update_window_and_key_pool_witness :
  @NodeSetCache.consistent Examples.exTypes Examples.exCache01 /\
  NodeSetCache.rounds Examples.exCache01 !! 6 = None /\
  exists nIDs cache',
    @NodeSetCache.update Examples.exTypes Examples.exGov Examples.exCache01 6
      = (Ok nIDs, cache') /\
    (forall r', is_Some (NodeSetCache.rounds cache' !! r') -> sub64 6 r' <= 5) /\
    (forall n, is_Some (NodeSetCache.keyPool cache' !! n) <->
       exists r s, NodeSetCache.rounds cache' !! r = Some s /\
                   n ∈ NodeSetCache.nodeSet s).
Proof.
  assert (@NodeSetCache.consistent Examples.exTypes Examples.exCache01) as Hc
    by exact (reachable_consistent _ exCache01_reachable).
  assert (NodeSetCache.rounds Examples.exCache01 !! 6 = None) as Hm
    by (vm_compute; reflexivity).
  split; [exact Hc|]. split; [exact Hm|].
  destruct (@update_window_and_key_pool Examples.exTypes Examples.exGov
              Examples.exCache01 6 [5; 6]%N Hc)
    as (nIDs & cache' & E & Hw & _ & Hp & _).
  - unfold is_uint64, uint64_mod. lia.
  - exact Hm.
  - reflexivity.
  - exists nIDs, cache'. split; [exact E|]. split; [exact Hw | exact Hp].
Defined.

(** Updating round 1 on the cache of round 6: round 6 goes. *)
Lemma update_purges_newer_rounds_witness :
  sub64 1 6 = uint64_mod - 5 /\
  exists nIDs cache',
    @NodeSetCache.update Examples.exTypes Examples.exGov Examples.exCache6 1
      = (Ok nIDs, cache') /\
    NodeSetCache.rounds cache' !! 6 = None.
Proof.
  destruct (@update_purges_newer_rounds Examples.exTypes Examples.exGov
              Examples.exCache6 1 [2; 3; 4]%N 6
              (@NodeSetCache.newSets Examples.exTypes Examples.exGov 6 {[5%N; 6%N]}))
    as (Hwrap & _ & nIDs & cache' & E & Hr & _).
  - exact (reachable_consistent _ exCache6_reachable).
  - unfold is_uint64, uint64_mod. lia.
  - unfold is_uint64, uint64_mod. lia.
  - vm_compute. reflexivity.
  - reflexivity.
  - vm_compute. reflexivity.
  - lia.
  - unfold uint64_mod. lia.
  - split; [exact Hwrap|]. exists nIDs, cache'. split; [exact E | exact Hr].
Defined.

(** Round 2 is not published: nothing is cached for it. *)
Lemma round_not_ready_witness :
  @NodeSetCache.GetNodeSet Examples.exTypes Examples.exGov Examples.exCache01 2
    = (Err ErrRoundNotReady, Examples.exCache01) /\
  @NodeSetCache.GetNotarySet Examples.exTypes Examples.exGov Examples.exCache01 2 0
    = (Err ErrRoundNotReady, Examples.exCache01).
Proof.
  destruct (@round_not_ready Examples.exTypes Examples.exGov Examples.exCache01 2 1%N 0)
    as (_ & H2 & H3 & _).
  - reflexivity.
  - apply (agrees_not_cached Examples.exGov Examples.exCache01 2 exCache01_agrees).
    reflexivity.
  - split; [exact H2 | exact H3].
Defined.


(** ** The DKG and orchestrator theorems at work *)

#[local] Existing Instance Examples.exTypes.
#[local] Existing Instance Examples.exDKG.
#[local] Existing Instance Examples.exHelpers.
#[local] Existing Instance Examples.exModules.



(** Two master public keys under one DKG ID: both proposers qualify, and
    the group public key is recovered from the shares of the second key
    taken twice, [20 + 20], not from [10] and [20]. *)
Lemma shared_dkg_id_example :
  exists gpk,
    TSig.NewDKGGroupPublicKey 0 Examples.exMpksShared [] 1 = Ok gpk /\
    TSig.qualifyNodeIDs gpk = {[1%N; 2%N]} /\
    TSig.groupPublicKey gpk = 40%N /\
    TSig.RecoverGroupPublicKey (TSig.mpk_PublicKeyShares <$> Examples.exMpksShared) = 30%N.
Proof.
  eexists. split; [vm_compute; reflexivity|]. split; [|split; reflexivity].
  apply (bool_decide_unpack _). vm_compute. exact I.
Qed.

(** [C4, as stated, fails] The partial signature of node 1 arrives
    twice. Both times it passes every check and [processPartialSignature]
    returns nil: two partial signatures have been accepted, and the
    threshold is 2. They are stored under the one DKG ID of node 1, so one
    signature is held and [signature] fails with
    [ErrNotEnoughtPartialSignatures]. *)
Lemma duplicate_partial_signature_example :
  TSig.NewDKGGroupPublicKey 0 Examples.exMpks [] 2 = Ok Examples.exGPK2 /\
  TSig.threshold Examples.exGPK2 = 2 /\
  length Examples.exPSigsTwice = 2%nat /\
  Forall (TSig.accepts (TSig.newTSigProtocol Examples.exGPK2 5%N)) Examples.exPSigsTwice /\
  (TSig.processPartialSignature (TSig.newTSigProtocol Examples.exGPK2 5%N)
     (@TSig.mkPSig Examples.exDKG 1%N 0 5%N 368%N 1%N)).1 = Ok None /\
  (TSig.processPartialSignature
     (TSig.processPartialSignature (TSig.newTSigProtocol Examples.exGPK2 5%N)
        (@TSig.mkPSig Examples.exDKG 1%N 0 5%N 368%N 1%N)).2
     (@TSig.mkPSig Examples.exDKG 1%N 0 5%N 368%N 1%N)).1 = Ok None /\
  TSig.signature
    (TSig.processPartialSignatures (TSig.newTSigProtocol Examples.exGPK2 5%N)
       Examples.exPSigsTwice)
  = Err ErrNotEnoughtPartialSignatures.
Proof.
  split; [vm_compute; reflexivity|]. split; [reflexivity|]. split; [reflexivity|].
  split; [apply (bool_decide_unpack _); vm_compute; exact I|].
  split; [vm_compute; reflexivity|]. split; vm_compute; reflexivity.
Qed.

(** [C5, the code at the failing input] With seven nodes in round 0 and a
    DKG set of seven, [NewConsensus] registers the DKG of round 0 with
    threshold [7/3 = 2], while [Update] builds the group key of the round
    with [7/3 + 1 = 3]. *)
Theorem initial_dkg_threshold_differs :
  (exists con,
     Consensus.NewConsensus Examples.exConGov [] 1%N = Ok con /\
     Consensus.dkg_threshold <$> Consensus.cfg_dkg (Consensus.cfgModule con) = Some 2) /\
  NodeSetCache.NumDKGSet (NodeSetCache.Configuration Examples.exGov7 0) = 7 /\
  TSig.DKGSetSize Examples.exTSigGov 0 = 7 /\
  TSig.updateThreshold Examples.exTSigGov 0 = 3 /\
  7 / 3 + 1 = 3.
Proof.
  split; [|repeat split].
  eexists. split; [vm_compute; reflexivity|]. reflexivity.
Qed.

(** [C6, as stated, fails] A genesis block dated a second after the chain
    time, far outside [chainTime + 1000, chainTime + 5000], passes
    [sanityCheck]. *)
Lemma genesis_block_skips_time_check :
  Consensus.IsGenesis Examples.exGenesis = true /\
  Consensus.sanityCheck Examples.exCon Examples.exGenesis = None /\
  ¬ Consensus.inInterval Examples.exCon Examples.exGenesis.
Proof.
  split; [reflexivity|]. split; [vm_compute; reflexivity|].
  unfold Consensus.inInterval. vm_compute. intros [_ Hhi]. apply Hhi. reflexivity.
Qed.

(** [C8, as stated, fails] Block 2 is a candidate of chain 0, but by the
    time it is confirmed the chain tip is dated 100000 and the block
    fails the sanity check: [ConfirmBlock] logs [ErrIncorrectBlockTime],
    the block does not reach the reliable broadcast, and nothing is sent
    on [restartNotary]. *)
Lemma confirmed_candidate_not_delivered :
  (exists ba, Consensus.baModules Examples.exConLate !! 0%nat = Some ba /\
     Consensus.ba_findCandidateBlock ba 2%N = Some Examples.exBlock1) /\
  Consensus.ConfirmBlock Examples.exConLate 0 2%N
    = (Ok (Some ErrIncorrectBlockTime), Examples.exConLate) /\
  Forall (fun r => Consensus.restartNotary r = [])
    (Consensus.receivers (Consensus.ConfirmBlock Examples.exConLate 0 2%N).2).
Proof.
  split; [|split].
  - eexists. split; vm_compute; reflexivity.
  - vm_compute. reflexivity.
  - vm_compute. repeat constructor.
Qed.

(** The same candidate while it is in time: it goes through, and [false]
    is sent on the channel of chain 0. *)
Lemma ConfirmBlock_cases_witness :
  exists con',
    Consensus.ConfirmBlock Examples.exConReady 0 2%N = (Ok None, con') /\
    Consensus.restartNotary <$> Consensus.receivers con' = [[false]; []; []; []].
Proof.
  destruct (@ConfirmBlock_cases Examples.exTypes Examples.exModules
              Examples.exConReady 0 2%N [Examples.exBlock1])
    as (_ & Hok & _).
  - vm_compute. reflexivity.
  - destruct (Hok Examples.exBlock1
                (Consensus.processBlock Examples.exConReady Examples.exBlock1).2)
      as (_ & _ & E & Hr).
    + vm_compute. reflexivity.
    + vm_compute. reflexivity.
    + eexists. split; [exact E|]. rewrite Hr. vm_compute. reflexivity.
Defined.


(** ** The governance the cache expects *)

(** [C7, as stated, fails] The governance returns an empty list for round
    2, one that is not nil. No operation fails with [ErrRoundNotReady]:
    each of the four succeeds, with an empty set, and the round is cached
    afterwards. *)
Lemma empty_node_set_is_cached :
  NodeSetCache.NodeSet Examples.exGovEmpty 2 = Some [] /\
  exists cache',
    NodeSetCache.rounds cache' !! 2
      = Some (@NodeSetCache.newSets Examples.exTypes Examples.exGovEmpty 2 ∅) /\
    NodeSetCache.Exists Examples.exGovEmpty NodeSetCache.NewNodeSetCache 2 1%N
      = (Ok false, cache') /\
    NodeSetCache.GetNodeSet Examples.exGovEmpty NodeSetCache.NewNodeSetCache 2
      = (Ok ∅, cache') /\
    NodeSetCache.GetNotarySet Examples.exGovEmpty NodeSetCache.NewNodeSetCache 2 0
      = (Ok ∅, cache') /\
    NodeSetCache.GetDKGSet Examples.exGovEmpty NodeSetCache.NewNodeSetCache 2
      = (Ok ∅, cache').
Proof.
  split; [reflexivity|].
  exists (NodeSetCache.GetNodeSet Examples.exGovEmpty NodeSetCache.NewNodeSetCache 2).2.
  split; [vm_compute; reflexivity|].
  split; [vm_compute; reflexivity|]. split; [vm_compute; reflexivity|].
  split; vm_compute; reflexivity.
Qed.

(** A key listed twice in a round is counted twice and released once:
    after round 0 is purged, node 9 still has its record. *)
Lemma repeated_key_is_kept :
  let cache :=
    (NodeSetCache.GetNodeSet Examples.exGovRepeat
       (NodeSetCache.GetNodeSet Examples.exGovRepeat NodeSetCache.NewNodeSetCache 0).2
       6).2 in
  NodeSetCache.rounds cache !! 0 = None /\
  NodeSetCache.GetPublicKey cache 9%N = Some 9%N /\
  NodeSetCache.refCount (NodeSetCache.keyPool cache) 9%N = 1.
Proof. vm_compute. repeat split; reflexivity. Qed.

(** * Further properties of the code *)

(** ** The node-set cache: what [update] keeps, in any order *)

Section NodeSetCacheMore.
Import NodeSetCache.
Context `{Types}.

Lemma lowerRec_zero rec : 0 < refCnt rec -> lowerRec 0 rec = Some rec.
Proof.
  intros Hpos. unfold lowerRec. rewrite Z.sub_0_r.
  destruct (Z.eqb_spec (refCnt rec) 0); [lia|]. by destruct rec.
Qed.

Lemma lowerRec_add d1 d2 rec :
  lowerRec d1 rec ≫= lowerRec d2 =
  if refCnt rec - d1 =? 0 then None else lowerRec (d1 + d2) rec.
Proof.
  unfold lowerRec. destruct (Z.eqb_spec (refCnt rec - d1) 0); [done|]. simpl.
  by rewrite Z.sub_add_distr.
Qed.

(** One release, record by record. *)
Lemma releaseKey_lookup (pool pool' : gmap NodeID keyRec) n :
  releaseKey pool n = Some pool' ->
  forall m, pool' !! m = if decide (m = n) then pool !! n ≫= lowerRec 1 else pool !! m.
Proof.
  unfold releaseKey. destruct (pool !! n) as [rec|] eqn:E; [|done]. simpl.
  unfold lowerRec. destruct (refCnt rec - 1 =? 0); intros ? m; simplify_eq.
  - destruct (decide (m = n)) as [->|Hne];
      [by rewrite lookup_delete_eq | by rewrite lookup_delete_ne].
  - destruct (decide (m = n)) as [->|Hne];
      [by rewrite lookup_insert_eq | by rewrite lookup_insert_ne].
Qed.

Lemma releaseKeys_lookup (ids : list NodeID) : forall (pool pool' : gmap NodeID keyRec),
  NoDup ids ->
  releaseKeys pool ids = Some pool' ->
  forall m, pool' !! m = if decide (m ∈ ids) then pool !! m ≫= lowerRec 1 else pool !! m.
Proof.
  induction ids as [|n ids IH]; intros pool pool' Hnd E m; simpl in E.
  - simplify_eq. destruct (decide (m ∈ [])) as [Hin|]; [by apply elem_of_nil in Hin | done].
  - apply NoDup_cons in Hnd as [Hfresh Hnd].
    destruct (releaseKey pool n) as [pool1|] eqn:E1; [|done].
    rewrite (IH pool1 pool' Hnd E m), (releaseKey_lookup pool pool1 n E1 m).
    destruct (decide (m = n)) as [->|Hne].
    + destruct (decide (n ∈ ids)); [done|].
      destruct (decide (n ∈ n :: ids)) as [|Hnot]; [done|]. exfalso. apply Hnot. by left.
    + destruct (decide (m ∈ ids)) as [Hin|Hnin].
      * destruct (decide (m ∈ n :: ids)) as [|Hnot]; [done|]. exfalso. apply Hnot. by right.
      * destruct (decide (m ∈ n :: ids)) as [Hin'|]; [|done].
        apply elem_of_cons in Hin' as [?|?]; done.
Qed.

(** The purge loop, record by record: the record of [m] is lowered by the
    number of purged rounds that hold [m]. *)
Lemma purgeRounds_lookup round (l : list (Z * sets)) : forall cache cache',
  pool_wf (keyPool cache) ->
  (forall n, holders n (filter (purged round) l) <= refCount (keyPool cache) n) ->
  purgeRounds round cache l = Some cache' ->
  forall m, keyPool cache' !! m =
            keyPool cache !! m ≫= lowerRec (holders m (filter (purged round) l)).
Proof.
  induction l as [|e l IH]; intros cache cache' Hwf Hle E m; simpl in E.
  - simplify_eq. rewrite filter_nil, holders_nil.
    destruct (keyPool cache' !! m) as [rec|] eqn:Em; [|done]. simpl.
    symmetry. apply lowerRec_zero. eauto.
  - unfold purgeRound in E. destruct (keeps round e.1) eqn:Ek.
    + assert (¬ purged round e) as Hnp by (unfold purged; congruence).
      rewrite (filter_cons_False (purged round)) in Hle |- * by done. eauto.
    + assert (purged round e) as Hp by done.
      rewrite (filter_cons_True (purged round)) in Hle |- * by done.
      destruct (releaseKeys_spec (elements (nodeSet e.2)) (keyPool cache))
        as (pool1 & E1 & Hwf1 & Hc1); [apply NoDup_elements | done | |].
      { intros n Hn. apply elem_of_elements in Hn.
        specialize (Hle n). rewrite holders_cons in Hle.
        pose proof (holders_nonneg n (filter (purged round) l)).
        destruct (decide (n ∈ nodeSet e.2)); [lia | done]. }
      rewrite E1 in E.
      assert (forall n, (if decide (n ∈ elements (nodeSet e.2)) then 1 else 0) =
                        (if decide (n ∈ nodeSet e.2) then 1 else 0)) as Hel.
      { intros n. destruct (decide (n ∈ nodeSet e.2)) as [Hin|Hnin].
        - destruct (decide (n ∈ elements (nodeSet e.2))) as [|Hnot]; [done|].
          exfalso. apply Hnot. by apply elem_of_elements.
        - destruct (decide (n ∈ elements (nodeSet e.2))) as [Hin'|]; [|done].
          apply elem_of_elements in Hin'. done. }
      rewrite (IH {| rounds := delete e.1 (rounds cache); keyPool := pool1 |} cache' Hwf1)
        by (try done; intros n; simpl; rewrite Hc1, Hel; specialize (Hle n);
            rewrite holders_cons in Hle; lia).
      simpl.
      rewrite (releaseKeys_lookup _ _ _ (NoDup_elements _) E1 m), holders_cons.
      destruct (decide (m ∈ nodeSet e.2)) as [Hin|Hnin].
      * destruct (decide (m ∈ elements (nodeSet e.2))) as [|Hnot];
          [|exfalso; apply Hnot; by apply elem_of_elements].
        destruct (keyPool cache !! m) as [rec|] eqn:Em; [|done]. simpl.
        rewrite lowerRec_add. destruct (Z.eqb_spec (refCnt rec - 1) 0) as [Hz|Hz]; [|done].
        specialize (Hle m). rewrite holders_cons in Hle.
        destruct (decide (m ∈ nodeSet e.2)); [|done].
        pose proof (holders_nonneg m (filter (purged round) l)).
        unfold refCount in Hle. rewrite Em in Hle.
        replace (holders m (filter (purged round) l)) with 0 by lia.
        unfold lowerRec. by destruct (Z.eqb_spec (refCnt rec - (1 + 0)) 0); [|lia].
      * destruct (decide (m ∈ elements (nodeSet e.2))) as [Hin'|];
          [apply elem_of_elements in Hin'; done|].
        done.
Qed.

(** [X1] Go visits the entries of [cache.rounds] in no fixed order; the
    purge loop of [update] ends in the same cache whatever the order (as
    long as the pool counts at least the purged rounds of every node, so
    that no nil record is met). *)
Theorem purge_order_irrelevant round cache (l1 l2 : list (Z * sets)) :
  l1 ≡ₚ l2 ->
  pool_wf (keyPool cache) ->
  (forall n, holders n (filter (purged round) l1) <= refCount (keyPool cache) n) ->
  is_Some (purgeRounds round cache l1) /\
  purgeRounds round cache l1 = purgeRounds round cache l2.
Proof.
  intros Hperm Hwf Hle1.
  assert (forall n, holders n (filter (purged round) l2) <= refCount (keyPool cache) n)
    as Hle2.
  { intros n. rewrite <- (holders_Permutation n (filter (purged round) l1)); [done|].
    by rewrite Hperm. }
  destruct (purgeRounds_spec round l1 cache Hwf Hle1) as (c1 & E1 & _ & _ & Hr1).
  destruct (purgeRounds_spec round l2 cache Hwf Hle2) as (c2 & E2 & _ & _ & Hr2).
  split; [rewrite E1; eauto|]. rewrite E1, E2. f_equal.
  assert (rounds c1 = rounds c2) as Hrounds.
  { apply map_eq. intros r. rewrite Hr1, Hr2.
    destruct (decide (r ∈ (filter (purged round) l1).*1)) as [Hin|Hnin];
      destruct (decide (r ∈ (filter (purged round) l2).*1)) as [Hin2|Hnin2]; try done.
    - exfalso. apply Hnin2. by rewrite <- Hperm.
    - exfalso. apply Hnin. by rewrite Hperm. }
  assert (keyPool c1 = keyPool c2) as Hpool.
  { apply map_eq. intros m.
    rewrite (purgeRounds_lookup round l1 cache c1 Hwf Hle1 E1 m).
    rewrite (purgeRounds_lookup round l2 cache c2 Hwf Hle2 E2 m).
    f_equal. f_equal. apply holders_Permutation. by rewrite Hperm. }
  destruct c1, c2. simpl in *. by subst.
Qed.

(** The rounds of the cache after [update], by lookup. *)
Lemma update_rounds_lookup gov cache round keySet cache' :
  rounds cache' =
    filter (fun e => ¬ purged round e) (rounds (stored gov cache round keySet)) ->
  forall r',
    rounds cache' !! r' =
    if keeps round r'
    then (if decide (r' = round)
          then Some (newSets gov round (cacheKeys keySet (keyPool cache)).1)
          else rounds cache !! r')
    else None.
Proof.
  intros Hr r'. rewrite Hr, map_lookup_filter. unfold stored. simpl.
  destruct (decide (r' = round)) as [->|Hne].
  - rewrite lookup_insert_eq, keeps_self. simpl.
    rewrite option_guard_True; [done|]. unfold purged. simpl. by rewrite keeps_self.
  - rewrite lookup_insert_ne by done.
    destruct (rounds cache !! r') as [x|] eqn:Ex; simpl; [|by destruct (keeps round r')].
    destruct (keeps round r') eqn:Ek.
    + rewrite option_guard_True; [done|]. unfold purged. simpl. congruence.
    + rewrite option_guard_False; [done|]. unfold purged. simpl. by intros [].
Qed.

Lemma update_retains_window_aux gov cache round keySet :
  consistent cache ->
  NodeSet gov round = Some keySet ->
  exists cache',
    update gov cache round
      = (Ok (newSets gov round (cacheKeys keySet (keyPool cache)).1), cache') /\
    rounds cache' !! round
      = Some (newSets gov round (cacheKeys keySet (keyPool cache)).1).
Proof.
  intros [Hwf Hc] Hgov.
  destruct (update_spec gov cache round keySet Hgov Hwf) as (cache' & E & _ & Hr & _).
  { intros n. rewrite Hc. lia. }
  exists cache'. split; [done|].
  rewrite (update_rounds_lookup gov cache round keySet cache' Hr), keeps_self.
  by destruct (decide (round = round)).
Qed.

(** [X2] What [update(round)] keeps: afterwards the cache holds the new
    round with the sets built from the governance, every round that was
    cached and lies at most 5 below [round] (on [uint64]) with the sets it
    had, and nothing else. *)
Theorem update_retains_window gov cache round keySet :
  consistent cache ->
  NodeSet gov round = Some keySet ->
  exists cache',
    update gov cache round
      = (Ok (newSets gov round (cacheKeys keySet (keyPool cache)).1), cache') /\
    rounds cache' !! round
      = Some (newSets gov round (cacheKeys keySet (keyPool cache)).1) /\
    (forall r', r' <> round -> sub64 round r' <= 5 ->
       rounds cache' !! r' = rounds cache !! r') /\
    (forall r', 5 < sub64 round r' -> rounds cache' !! r' = None).
Proof.
  intros [Hwf Hc] Hgov.
  destruct (update_spec gov cache round keySet Hgov Hwf) as (cache' & E & _ & Hr & _).
  { intros n. rewrite Hc. lia. }
  exists cache'. split; [done|].
  pose proof (update_rounds_lookup gov cache round keySet cache' Hr) as Hl.
  split; [|split].
  - rewrite Hl, keeps_self. by destruct (decide (round = round)).
  - intros r' Hne Hk. rewrite Hl. unfold keeps.
    destruct (Z.leb_spec (sub64 round r') 5); [|lia].
    by destruct (decide (r' = round)).
  - intros r' Hk. rewrite Hl. unfold keeps.
    by destruct (Z.leb_spec (sub64 round r') 5); [lia|].
Qed.

(** The first loop of [update] stores every key under its own node ID. *)
Lemma cacheKeys_keys_match keySet : forall (ns : gset NodeID) (pool : gmap NodeID keyRec),
  keys_match pool -> keys_match (foldl cacheKey (ns, pool) keySet).2.
Proof.
  induction keySet as [|key keySet IH]; intros ns pool Hk; [done|]. simpl.
  destruct (cacheKey (ns, pool) key) as [ns1 pool1] eqn:E. apply IH.
  unfold cacheKey in E. simpl in E. simplify_eq.
  intros n rec. destruct (pool !! NewNodeID key) as [rec0|] eqn:E0.
  - destruct (decide (n = NewNodeID key)) as [->|Hne].
    + rewrite lookup_insert_eq. intros ?; simplify_eq. simpl. by apply Hk in E0.
    + rewrite lookup_insert_ne by done. apply Hk.
  - destruct (decide (n = NewNodeID key)) as [->|Hne].
    + rewrite lookup_insert_eq. intros ?; by simplify_eq.
    + rewrite lookup_insert_ne by done. apply Hk.
Qed.

Lemma lowerRec_pubKey d rec rec' : lowerRec d rec = Some rec' -> pubKey rec' = pubKey rec.
Proof. unfold lowerRec. destruct (_ =? _); intros ?; by simplify_eq. Qed.

(** [update] keeps the keys right. *)
Lemma update_keys_match gov cache round :
  consistent cache -> keys_match (keyPool cache) ->
  keys_match (keyPool (update gov cache round).2).
Proof.
  intros [Hwf Hc] Hk. unfold update.
  destruct (NodeSet gov round) as [keySet|] eqn:Hgov; [|done].
  assert (keys_match (keyPool (stored gov cache round keySet))) as Hk1
    by (unfold stored, cacheKeys; simpl; by apply cacheKeys_keys_match).
  destruct (purgeRounds _ _ _) as [cache2|] eqn:E; [|done]. simpl.
  destruct (cacheKeys_spec keySet (keyPool cache) Hwf) as (Hwf1 & Hc1 & Hm1).
  intros n rec Hn.
  rewrite (purgeRounds_lookup round (map_to_list (rounds (stored gov cache round keySet)))
             (stored gov cache round keySet) cache2) in Hn;
    [|done| |done].
  - destruct (keyPool (stored gov cache round keySet) !! n) as [rec0|] eqn:E0; [|done].
    simpl in Hn. apply lowerRec_pubKey in Hn. rewrite Hn. by apply Hk1 in E0.
  - intros m. unfold stored. simpl. rewrite Hc1.
    set (new := newSets gov round (cacheKeys keySet (keyPool cache)).1).
    pose proof (holders_split round m (map_to_list (<[round := new]> (rounds cache)))) as Hs.
    pose proof (holders_nonneg m
      (filter (fun e => ¬ purged round e) (map_to_list (<[round := new]> (rounds cache))))).
    pose proof (holders_insert_le m (rounds cache) round new) as Hi.
    specialize (Hc m). unfold references in Hc.
    assert ((if decide (m ∈ nodeSet new) then 1 else 0) <= occurrences m keySet).
    { destruct (decide (m ∈ nodeSet new)) as [Hin|]; [|apply occurrences_nonneg].
      apply occurrences_member. subst new. simpl in Hin. by apply Hm1. }
    lia.
Qed.

(** In a consistent cache every member of a cached round has a record. *)
Lemma consistent_member_has_key cache r s n :
  consistent cache -> rounds cache !! r = Some s -> n ∈ nodeSet s ->
  is_Some (keyPool cache !! n).
Proof.
  intros [Hwf Hc] Hs Hn. apply refCount_pos_lookup. rewrite Hc. unfold references.
  apply holders_pos. exists (r, s). split; [by apply elem_of_map_to_list | done].
Qed.

(** [X3] The check of [TestBasicUsage]: for every node of a node set that
    [GetNodeSet] returns, [GetPublicKey] has a key, and the key is one of
    that node (it hashes to the node's ID). *)
Theorem GetNodeSet_members_have_keys gov cache round nodes cache' :
  consistent cache ->
  keys_match (keyPool cache) ->
  distinct_keys gov ->
  GetNodeSet gov cache round = (Ok nodes, cache') ->
  consistent cache' /\ keys_match (keyPool cache') /\
  forall n, n ∈ nodes ->
    exists key, GetPublicKey cache' n = Some key /\ NewNodeID key = n.
Proof.
  intros Hcons Hk Hd E.
  assert (consistent cache' /\ keys_match (keyPool cache') /\
          exists s, rounds cache' !! round = Some s /\ nodes = nodeSet s)
    as (Hcons' & Hk' & s & Hs & ->).
  { unfold GetNodeSet, get in E. destruct (rounds cache !! round) as [s|] eqn:Hs.
    - simplify_eq. split; [done|]. split; [done|]. eauto.
    - pose proof (update_miss_consistent gov cache round Hcons Hd Hs) as Hc2.
      pose proof (update_keys_match gov cache round Hcons Hk) as Hk2.
      destruct (NodeSet gov round) as [keySet|] eqn:Hgov.
      2:{ unfold update in E. rewrite Hgov in E. done. }
      destruct (update_retains_window_aux gov cache round keySet Hcons Hgov)
        as (c2 & E2 & Hr2).
      rewrite E2 in E, Hc2, Hk2. simplify_eq. simpl in *.
      split; [done|]. split; [done|]. eauto. }
  split; [done|]. split; [done|]. intros n Hn.
  destruct (consistent_member_has_key cache' round s n Hcons' Hs Hn) as [rec Hrec].
  exists (pubKey rec). unfold GetPublicKey. rewrite Hrec. split; [done|]. by apply Hk'.
Qed.

(** On [uint64], a round at most 5 below [round] is one of the six rounds
    of the window. *)
Lemma window_member round r' :
  is_uint64 round -> is_uint64 r' -> sub64 round r' <= 5 -> r' ∈ window round.
Proof.
  intros Hr Hr' Hk. unfold window.
  assert (0 <= sub64 round r') as Hnn
    by (unfold sub64, uint64_mod; apply Z.mod_pos_bound; lia).
  assert (sub64 round (sub64 round r') = r') as Hback.
  { unfold sub64, is_uint64, uint64_mod in *.
    destruct (Z_le_gt_dec r' round).
    - rewrite (Z.mod_small (round - r')) by lia. rewrite Z.mod_small; lia.
    - replace (round - r') with ((round - r' + 2 ^ 64) + (-1) * 2 ^ 64) by lia.
      rewrite Z.mod_add by lia. rewrite (Z.mod_small (round - r' + 2 ^ 64)) by lia.
      replace (round - (round - r' + 2 ^ 64)) with (r' + (-1) * 2 ^ 64) by lia.
      rewrite Z.mod_add by lia. apply Z.mod_small. lia. }
  rewrite <- Hback. apply list_elem_of_fmap_2.
  assert (sub64 round r' = 0 \/ sub64 round r' = 1 \/ sub64 round r' = 2 \/
          sub64 round r' = 3 \/ sub64 round r' = 4 \/ sub64 round r' = 5)
    as [-> | [-> | [-> | [-> | [-> | ->]]]]] by lia;
    repeat (first [apply list_elem_of_here | apply list_elem_of_further]).
Qed.

(** [X4] The cache is bounded: after a successful [update(round)] every
    cached round is one of [round, round-1, ..., round-5] (on [uint64]),
    so at most six rounds are cached. *)
Theorem update_caches_at_most_six gov cache round keySet :
  consistent cache ->
  uint64_rounds cache ->
  is_uint64 round ->
  NodeSet gov round = Some keySet ->
  uint64_rounds (update gov cache round).2 /\
  (forall r', is_Some (rounds (update gov cache round).2 !! r') -> r' ∈ window round) /\
  (size (rounds (update gov cache round).2) <= 6)%nat.
Proof.
  intros Hcons Hu Hround Hgov.
  destruct Hcons as [Hwf Hc].
  destruct (update_spec gov cache round keySet Hgov Hwf) as (cache' & E & _ & Hr & _).
  { intros n. rewrite Hc. lia. }
  rewrite E. simpl.
  pose proof (update_rounds_lookup gov cache round keySet cache' Hr) as Hl.
  assert (uint64_rounds cache') as Hu'.
  { intros r' Hs. rewrite Hl in Hs. destruct (keeps round r'); [|by destruct Hs].
    destruct (decide (r' = round)) as [->|]; [done | by apply Hu]. }
  assert (forall r', is_Some (rounds cache' !! r') -> r' ∈ window round) as Hw.
  { intros r' Hs. apply window_member; [done | by apply Hu'|].
    rewrite Hl in Hs. unfold keeps in Hs.
    destruct (Z.leb_spec (sub64 round r') 5); [done | by destruct Hs]. }
  split; [done|]. split; [done|].
  rewrite <- length_map_to_list, <- (length_fmap fst).
  change 6%nat with (length (window round)).
  apply submseteq_length, NoDup_submseteq; [apply NoDup_fst_map_to_list|].
  intros r' Hin. apply Hw. apply list_elem_of_fmap in Hin as ([r'' x] & -> & Hin).
  apply elem_of_map_to_list in Hin. simpl. eauto.
Qed.

(** [X5] On a miss the answers come from the governance's list: the node
    set is the set of the IDs of the listed keys, [Exists] says whether
    the node is among them, and the DKG set is the subset [GetSubSet]
    picks from them with the round's [NumDKGSet] and CRS. *)
Theorem miss_answers_from_governance gov cache round keySet nodeID :
  consistent cache ->
  rounds cache !! round = None ->
  NodeSet gov round = Some keySet ->
  exists cache',
    (forall n, n ∈ nodeSet (newSets gov round (cacheKeys keySet (keyPool cache)).1)
               <-> n ∈ NewNodeID <$> keySet) /\
    GetNodeSet gov cache round
      = (Ok (nodeSet (newSets gov round (cacheKeys keySet (keyPool cache)).1)), cache') /\
    Exists gov cache round nodeID
      = (Ok (bool_decide (nodeID ∈ NewNodeID <$> keySet)), cache') /\
    GetDKGSet gov cache round
      = (Ok (GetSubSet (nodeSet (newSets gov round (cacheKeys keySet (keyPool cache)).1))
               (NumDKGSet (Configuration gov round))
               (NewDKGSetTarget (CRS gov round))), cache').
Proof.
  intros Hcons Hmiss Hgov.
  destruct (update_retains_window_aux gov cache round keySet Hcons Hgov) as (cache' & E & _).
  destruct Hcons as [Hwf _].
  destruct (cacheKeys_spec keySet (keyPool cache) Hwf) as (_ & _ & Hm).
  exists cache'. split; [done|].
  unfold GetNodeSet, Exists, GetDKGSet, getOrUpdate, get. rewrite Hmiss, E. simpl.
  split; [done|]. split.
  - do 2 f_equal. apply bool_decide_ext. apply Hm.
  - by rewrite cloneMap_id.
Qed.

(** [X6] A round, once cached, answers from the cache: after a successful
    [getOrUpdate] the same call, under any governance, returns the same
    sets and leaves the cache as it is. *)
Theorem getOrUpdate_twice gov gov' cache round IDs cache' :
  consistent cache ->
  getOrUpdate gov cache round = (Ok IDs, cache') ->
  getOrUpdate gov' cache' round = (Ok IDs, cache') /\
  GetNodeSet gov' cache' round = (Ok (nodeSet IDs), cache') /\
  GetDKGSet gov' cache' round = (Ok (dkgSet IDs), cache').
Proof.
  intros Hcons E.
  assert (rounds cache' !! round = Some IDs) as Hs.
  { unfold getOrUpdate, get in E. destruct (rounds cache !! round) as [s|] eqn:Hs.
    - by simplify_eq.
    - destruct (NodeSet gov round) as [keySet|] eqn:Hgov.
      2:{ unfold update in E. rewrite Hgov in E. done. }
      destruct (update_retains_window_aux gov cache round keySet Hcons Hgov)
        as (c2 & E2 & Hr2).
      rewrite E2 in E. by simplify_eq. }
  unfold GetNodeSet, GetDKGSet, getOrUpdate, get. rewrite Hs.
  by rewrite cloneMap_id.
Qed.

End NodeSetCacheMore.

(** ** The verifier cache *)

Section VerifierCacheFacts.
Import TSig.
Context `{Helpers}.

Lemma least_cons_Some x (l : list Z) : is_Some (least (x :: l)).
Proof. simpl. fold (least l). destruct (least l); eauto. Qed.

(** With a cached round at or above [minRound] the last loop of [Update]
    ends, at the lowest cached round when none is below [minRound]. *)
Lemma advanceMinRound_lowest (verifier0 : gmap Z DKGGroupPublicKey) minRound0 :
  verifier0 <> ∅ ->
  (forall k, is_Some (verifier0 !! k) -> minRound0 <= k) ->
  exists k, advanceMinRound verifier0 minRound0 = Some k /\
    is_Some (verifier0 !! k) /\
    forall j, is_Some (verifier0 !! j) -> k <= j.
Proof.
  intros Hne Hge.
  assert (exists k, advanceMinRound verifier0 minRound0 = Some k) as [k E].
  { unfold advanceMinRound. destruct (least (filter _ _)) as [k|]; [eauto|].
    destruct (map_to_list verifier0) as [|[r x] l] eqn:El.
    - by apply map_to_list_empty_iff in El.
    - rewrite fmap_cons. destruct (least_cons_Some (r, x).1 l.*1) as [k ->]. eauto. }
  exists k. split; [done|].
  destruct (advanceMinRound_spec verifier0 minRound0 k E) as (Hk & Hup & _).
  split; [done|]. intros j Hj.
  destruct (Z_le_gt_dec k j) as [|Hlt]; [done|].
  rewrite (Hup (Hge k Hk) j) in Hj; [by destruct Hj|]. split; [by apply Hge | lia].
Qed.

(** What [Update] does when it has a new group key to store. *)
Lemma Update_insert gov tc round0 gpk :
  ordered tc -> 1 <= cacheSize tc ->
  minRound tc <= round0 ->
  verifier tc !! round0 = None ->
  IsDKGFinal gov round0 = true ->
  NewDKGGroupPublicKey round0 (DKGMasterPublicKeys gov round0)
    (DKGComplaints gov round0) (updateThreshold gov round0) = Ok gpk ->
  exists tc',
    Update gov tc round0 = Some (Ok true, tc') /\
    cacheSize tc' = cacheSize tc /\
    verifier tc' =
      (if cacheSize tc <? Z.of_nat (S (size (verifier tc)))
       then delete (minRound tc) (<[round0 := gpk]> (verifier tc))
       else <[round0 := gpk]> (verifier tc)) /\
    verifier tc' !! round0 = Some gpk /\
    ordered tc'.
Proof.
  intros (Hge & Hmin & Hsize) Hcap Hround Hmiss Hfinal Hgpk.
  unfold Update. destruct (Z.ltb_spec round0 (minRound tc)); [lia|].
  rewrite Hmiss, Hfinal, Hgpk. simpl.
  rewrite (map_size_insert_None _ _ _ Hmiss).
  set (minRound1 := if bool_decide (size (verifier tc) = 0%nat) then round0 else minRound tc).
  set (verifier2 :=
         if cacheSize tc <? Z.of_nat (S (size (verifier tc)))
         then delete minRound1 (<[round0 := gpk]> (verifier tc))
         else <[round0 := gpk]> (verifier tc)).
  assert (verifier2 =
          (if cacheSize tc <? Z.of_nat (S (size (verifier tc)))
           then delete (minRound tc) (<[round0 := gpk]> (verifier tc))
           else <[round0 := gpk]> (verifier tc)) /\
          verifier2 !! round0 = Some gpk /\
          Z.of_nat (size verifier2) <= cacheSize tc /\
          (forall k, is_Some (verifier2 !! k) -> minRound1 <= k)) as (Hv2 & Hr2 & Hs2 & Hge2).
  { subst verifier2 minRound1.
    destruct (Z.ltb_spec (cacheSize tc) (Z.of_nat (S (size (verifier tc))))) as [Hfull|Hroom].
    - assert (size (verifier tc) <> 0%nat) as Hne by lia.
      rewrite bool_decide_eq_false_2 by done.
      destruct (Hmin (proj1 (map_size_non_empty_iff _) Hne)) as [old Hold].
      assert (minRound tc <> round0) as Hdiff by congruence.
      split; [done|]. split; [by rewrite lookup_delete_ne, lookup_insert_eq|]. split.
      + rewrite map_size_delete, lookup_insert_ne, Hold by done.
        rewrite (map_size_insert_None _ _ _ Hmiss). simpl. lia.
      + intros k Hk. destruct (decide (k = minRound tc)) as [->|Hk']; [lia|].
        rewrite lookup_delete_ne in Hk by done.
        destruct (decide (k = round0)) as [->|Hk'']; [done|].
        rewrite lookup_insert_ne in Hk by done. by apply Hge.
    - split; [done|]. split; [by rewrite lookup_insert_eq|]. split.
      + rewrite (map_size_insert_None _ _ _ Hmiss). lia.
      + intros k Hk. destruct (decide (k = round0)) as [->|Hk''].
        * by destruct (bool_decide _).
        * rewrite lookup_insert_ne in Hk by done.
          destruct (decide (size (verifier tc) = 0%nat)) as [Hz|Hnz].
          -- apply map_size_empty_iff in Hz. rewrite Hz, lookup_empty in Hk.
             by destruct Hk.
          -- rewrite bool_decide_eq_false_2 by done. by apply Hge. }
  destruct (advanceMinRound_lowest verifier2 minRound1) as (k & -> & Hk & Hlow);
    [|done|].
  { intros Hempty. rewrite Hempty, lookup_empty in Hr2. done. }
  eexists. split; [done|]. simpl. split; [done|]. split; [done|]. split; [done|].
  split; [done|]. split; [done|]. done.
Qed.

(** [X7] The verifier cache keeps its shape, and evicts oldest first: from
    a cache in shape with room for at least one round, [Update] returns,
    leaves a cache in shape (the lowest cached round is [minRound], at
    most [cacheSize] rounds are cached), has the round cached when it
    answers [true], caches no round but that one, and drops no round
    except the lowest. *)
Theorem Update_keeps_shape gov tc round0 :
  ordered tc -> 1 <= cacheSize tc ->
  exists res tc',
    Update gov tc round0 = Some (res, tc') /\
    ordered tc' /\ cacheSize tc' = cacheSize tc /\
    (res = Ok true -> is_Some (verifier tc' !! round0)) /\
    (forall k, is_Some (verifier tc' !! k) -> k = round0 \/ is_Some (verifier tc !! k)) /\
    (forall k, is_Some (verifier tc !! k) -> k <> minRound tc ->
       is_Some (verifier tc' !! k)).
Proof.
  intros Hord Hcap.
  destruct (Z_lt_le_dec round0 (minRound tc)) as [Hold|Hnew].
  { exists (Err ErrRoundAlreadyPurged), tc. unfold Update.
    destruct (Z.ltb_spec round0 (minRound tc)); [|lia].
    (split; [done|]; split; [done|]; split; [done|];
       split; [intros ?; simplify_eq; eauto|]; split; eauto). }
  destruct (verifier tc !! round0) as [v|] eqn:Hv.
  { exists (Ok true), tc. unfold Update.
    destruct (Z.ltb_spec round0 (minRound tc)); [lia|]. rewrite Hv.
    (split; [done|]; split; [done|]; split; [done|];
       split; [intros ?; simplify_eq; eauto|]; split; eauto). }
  destruct (IsDKGFinal gov round0) eqn:Hfinal.
  2:{ exists (Ok false), tc. unfold Update.
      destruct (Z.ltb_spec round0 (minRound tc)); [lia|]. rewrite Hv, Hfinal.
      (split; [done|]; split; [done|]; split; [done|];
       split; [intros ?; simplify_eq; eauto|]; split; eauto). }
  destruct (NewDKGGroupPublicKey round0 (DKGMasterPublicKeys gov round0)
              (DKGComplaints gov round0) (updateThreshold gov round0))
    as [gpk|e|] eqn:Hgpk.
  2:{ exists (Err e), tc. unfold Update.
      destruct (Z.ltb_spec round0 (minRound tc)); [lia|]. rewrite Hv, Hfinal, Hgpk.
      (split; [done|]; split; [done|]; split; [done|];
       split; [intros ?; simplify_eq; eauto|]; split; eauto). }
  2:{ exists Panic, tc. unfold Update.
      destruct (Z.ltb_spec round0 (minRound tc)); [lia|]. rewrite Hv, Hfinal, Hgpk.
      (split; [done|]; split; [done|]; split; [done|];
       split; [intros ?; simplify_eq; eauto|]; split; eauto). }
  destruct (Update_insert gov tc round0 gpk Hord Hcap Hnew Hv Hfinal Hgpk)
    as (tc' & E & Hcs & Hver & Hr & Hord').
  exists (Ok true), tc'. split; [done|]. split; [done|]. split; [done|].
  split; [eauto|]. rewrite Hver. split.
  - intros k Hk. destruct (decide (k = round0)) as [->|Hne]; [by left|]. right.
    destruct (_ <? _).
    + destruct (decide (k = minRound tc)) as [->|Hne'];
        [by rewrite lookup_delete_eq in Hk; destruct Hk|].
      by rewrite lookup_delete_ne, lookup_insert_ne in Hk.
    + by rewrite lookup_insert_ne in Hk.
  - intros k Hk Hne. assert (k <> round0) by (intros ->; rewrite Hv in Hk; by destruct Hk).
    destruct (_ <? _).
    + by rewrite lookup_delete_ne, lookup_insert_ne.
    + by rewrite lookup_insert_ne.
Qed.

(** [X8] [Update] changes the cache only when it stores a new group key:
    in every other case (a purged round, a cached round, a DKG that is
    not final, a failing [NewDKGGroupPublicKey]) the cache it leaves is
    the cache it found. *)
Theorem Update_changes_only_on_insert gov tc round0 res tc' :
  Update gov tc round0 = Some (res, tc') ->
  tc' = tc \/
  (res = Ok true /\ minRound tc <= round0 /\ verifier tc !! round0 = None /\
   IsDKGFinal gov round0 = true /\
   exists gpk,
     NewDKGGroupPublicKey round0 (DKGMasterPublicKeys gov round0)
       (DKGComplaints gov round0) (updateThreshold gov round0) = Ok gpk).
Proof.
  unfold Update. destruct (Z.ltb_spec round0 (minRound tc)) as [|Hge].
  { intros ?; simplify_eq. by left. }
  destruct (verifier tc !! round0) eqn:Hv.
  { intros ?; simplify_eq. by left. }
  destruct (IsDKGFinal gov round0) eqn:Hfinal; simpl.
  2:{ intros ?; simplify_eq. by left. }
  destruct (NewDKGGroupPublicKey _ _ _ _) as [gpk|e|] eqn:Hgpk.
  2,3: intros ?; simplify_eq; by left.
  destruct (advanceMinRound _ _); [|done]. intros ?; simplify_eq. right. eauto 10.
Qed.

(** [X9] A verifier cache of size 0 (or less) cannot hold a round: the
    first [Update] that has a group key to store stores it, evicts it
    again, and then looks for a cached round forever. *)
Theorem Update_size_zero_never_returns gov tc round0 gpk :
  cacheSize tc <= 0 ->
  verifier tc = ∅ ->
  minRound tc <= round0 ->
  IsDKGFinal gov round0 = true ->
  NewDKGGroupPublicKey round0 (DKGMasterPublicKeys gov round0)
    (DKGComplaints gov round0) (updateThreshold gov round0) = Ok gpk ->
  Update gov tc round0 = None /\ UpdateAndGet gov tc round0 = None.
Proof.
  intros Hcap Hempty Hround Hfinal Hgpk.
  assert (Update gov tc round0 = None) as E.
  { unfold Update. destruct (Z.ltb_spec round0 (minRound tc)); [lia|].
    rewrite Hempty, lookup_empty, Hfinal, Hgpk. simpl.
    rewrite map_size_empty. rewrite bool_decide_eq_true_2 by done.
    rewrite map_size_insert_None by apply lookup_empty. rewrite map_size_empty.
    destruct (Z.ltb_spec (cacheSize tc) (Z.of_nat 1)); [|lia].
    rewrite delete_insert_eq, delete_empty, advanceMinRound_empty. done. }
  split; [done|]. unfold UpdateAndGet. by rewrite E.
Qed.

(** [X10] [UpdateAndGet] on a round that is new to a cache in shape, with
    a final DKG: it returns the group key [NewDKGGroupPublicKey] built
    for the round with threshold [DKGSetSize/3 + 1], and [Get] finds it
    afterwards. *)
Theorem UpdateAndGet_returns_group_key gov tc round0 gpk :
  ordered tc -> 1 <= cacheSize tc ->
  minRound tc <= round0 ->
  verifier tc !! round0 = None ->
  IsDKGFinal gov round0 = true ->
  NewDKGGroupPublicKey round0 (DKGMasterPublicKeys gov round0)
    (DKGComplaints gov round0) (DKGSetSize gov round0 / 3 + 1) = Ok gpk ->
  exists tc',
    UpdateAndGet gov tc round0 = Some (Ok (Some gpk), tc') /\
    Get tc' round0 = Some gpk /\
    threshold gpk = DKGSetSize gov round0 / 3 + 1 /\
    UpdateAndGet gov tc' round0 = Some (Ok (Some gpk), tc').
Proof.
  intros Hord Hcap Hround Hmiss Hfinal Hgpk.
  destruct (Update_insert gov tc round0 gpk Hord Hcap Hround Hmiss Hfinal Hgpk)
    as (tc' & E & Hcs & Hver & Hr & (Hge' & Hmin' & Hsize')).
  exists tc'. unfold UpdateAndGet, Get. rewrite E, Hr. split; [done|]. split; [done|].
  split; [by apply NewDKGGroupPublicKey_threshold in Hgpk|].
  unfold Update. destruct (Z.ltb_spec round0 (minRound tc')) as [Hlt|_].
  - specialize (Hge' round0). rewrite Hr in Hge'. specialize (Hge' (mk_is_Some _ _ eq_refl)).
    lia.
  - rewrite Hr. simpl. by rewrite Hr.
Qed.

End VerifierCacheFacts.

(** ** More on the group public key and the threshold signature *)

Section GroupKeyFacts.
Import TSig.
Context `{Helpers}.

Lemma groupShares_total (mpkMap : gmap ID DKGMasterPublicKey) ids :
  (forall id, id ∈ ids -> is_Some (mpkMap !! id)) ->
  exists l, groupShares mpkMap ids = Ok l.
Proof.
  induction ids as [|id ids IH]; intros Hdom; simpl; [eauto|].
  destruct (Hdom id) as [mpk ->]; [by left|].
  destruct IH as [l ->]; [intros id' Hid'; apply Hdom; by right|]. eauto.
Qed.

(** [X11] [NewDKGGroupPublicKey] panics exactly when more nodes are
    disqualified than master public keys were proposed (the capacity of
    [qualifyIDs] is then negative); complaints that accuse nodes without a
    master public key are enough for that. In no other case does it
    panic. *)
Theorem NewDKGGroupPublicKey_panics_iff round0 mpks complaints threshold0 :
  NewDKGGroupPublicKey round0 mpks complaints threshold0 = Panic <->
  (length mpks < size (disqualified complaints threshold0))%nat.
Proof.
  unfold NewDKGGroupPublicKey.
  destruct (Z.ltb_spec (Z.of_nat (length mpks)
              - Z.of_nat (size (disqualified complaints threshold0))) 0) as [Hneg|Hok].
  { split; [lia | done]. }
  split; [|lia]. intros E. exfalso.
  set (disq := disqualified complaints threshold0) in *.
  destruct (qualify_maps disq mpks
              {| q_mpkMap := ∅; q_idMap := ∅; q_qualifyIDs := []; q_qualifyNodeIDs := ∅ |})
    as [Hdom _].
  { intros id Hid. by apply elem_of_nil in Hid. }
  fold (qualify disq mpks) in Hdom.
  destruct (recoverPublicKeys_cases _ _ _ Hdom Hdom ∅) as [[e He]|[pubKeys He]];
    rewrite He in E; [done|].
  destruct (groupShares_total _ _ Hdom) as [l Hl]. rewrite Hl in E. done.
Qed.

(** The keys [recoverPublicKeys] stores. *)
Lemma recoverPublicKeys_dom (mpkMap : gmap ID DKGMasterPublicKey) qualifyIDs0 recvIDs :
  forall pubKeys pubKeys',
  recoverPublicKeys mpkMap qualifyIDs0 pubKeys recvIDs = Ok pubKeys' ->
  forall n, is_Some (pubKeys' !! n) <->
    is_Some (pubKeys !! n) \/
    exists id mpk, id ∈ recvIDs /\ mpkMap !! id = Some mpk /\ mpk_ProposerID mpk = n.
Proof.
  induction recvIDs as [|recvID recvIDs IH]; intros pubKeys pubKeys' E n; simpl in E.
  - simplify_eq. split; [by left|]. intros [?|(id & mpk & Hid & _)]; [done|].
    by apply elem_of_nil in Hid.
  - destruct (collectShares _ _ _ _) as [pubShares| |]; [|done|done].
    destruct (RecoverPublicKey _ _) as [pubKey|]; [|done].
    destruct (mpkMap !! recvID) as [mpk0|] eqn:E0; [|done].
    rewrite (IH _ _ E n). split.
    + intros [Hs|(id & mpk & Hid & Hm & Hn)].
      * destruct (decide (n = mpk_ProposerID mpk0)) as [->|Hne].
        -- right. exists recvID, mpk0. split; [by left | done].
        -- left. by rewrite lookup_insert_ne in Hs.
      * right. exists id, mpk. split; [by right | done].
    + intros [Hs|(id & mpk & Hid & Hm & Hn)].
      * left. destruct (decide (n = mpk_ProposerID mpk0)) as [->|Hne];
          [rewrite lookup_insert_eq; eauto | by rewrite lookup_insert_ne].
      * apply elem_of_cons in Hid as [->|Hid].
        -- left. simplify_eq. rewrite lookup_insert_eq. eauto.
        -- right. by exists id, mpk.
Qed.

Lemma NewDKGGroupPublicKey_maps_agree_aux round0 mpks complaints threshold0 gpk :
  NoDup (mpk_DKGID <$> qualifiedMpks (disqualified complaints threshold0) mpks) ->
  NewDKGGroupPublicKey round0 mpks complaints threshold0 = Ok gpk ->
  dom (idMap gpk) = qualifyNodeIDs gpk /\
  dom (publicKeys gpk) = qualifyNodeIDs gpk /\
  round gpk = round0.
Proof.
  intros Hnd. unfold NewDKGGroupPublicKey. destruct (_ <? _); [done|].
  set (disq := disqualified complaints threshold0) in *.
  destruct (qualify_fold disq mpks
              {| q_mpkMap := ∅; q_idMap := ∅; q_qualifyIDs := []; q_qualifyNodeIDs := ∅ |})
    as (H1 & H2 & H3 & H4).
  destruct (qualify_maps disq mpks
              {| q_mpkMap := ∅; q_idMap := ∅; q_qualifyIDs := []; q_qualifyNodeIDs := ∅ |})
    as [_ Hid].
  { intros id Hin. by apply elem_of_nil in Hin. }
  fold (qualify disq mpks) in H1, H2, H3, H4, Hid. simpl in H1, H2, H3, Hid.
  specialize (H4 Hnd).
  destruct (recoverPublicKeys _ _ _ _) as [pubKeys| |] eqn:Hpk; [|done|done].
  destruct (groupShares _ _) as [pubShares| |]; [|done|done].
  intros ?; simplify_eq. simpl.
  pose proof (recoverPublicKeys_dom _ _ _ _ _ Hpk) as Hdom.
  split; [|split; [|done]].
  - apply set_eq. intros n. rewrite elem_of_dom, Hid, H2, lookup_empty.
    split; (intros [Hl|?]; [|by right]).
    + by destruct Hl.
    + by apply not_elem_of_empty in Hl.
  - apply set_eq. intros n. rewrite elem_of_dom, Hdom, H2, lookup_empty, H1.
    split.
    + intros [Hl|(id & mpk & Hin & Hm & Hn)]; [by destruct Hl|]. right.
      apply list_elem_of_fmap in Hin as (m & -> & Hm').
      rewrite (H4 m Hm') in Hm. simplify_eq. by apply list_elem_of_fmap_2.
    + intros [Hl|Hin]; [by apply not_elem_of_empty in Hl|]. right.
      apply list_elem_of_fmap in Hin as (m & -> & Hm').
      exists (mpk_DKGID m), m. split; [by apply list_elem_of_fmap_2|]. split; [by apply H4 | done].
Qed.

(** [X12] The maps of a group public key agree: when the qualified
    master public keys have distinct DKG IDs, the nodes that have a DKG ID
    in [idMap], the nodes that have a public key in [publicKeys] and the
    nodes of [qualifyNodeIDs] are the same. *)
Theorem NewDKGGroupPublicKey_maps_agree round0 mpks complaints threshold0 gpk :
  NoDup (mpk_DKGID <$> qualifiedMpks (disqualified complaints threshold0) mpks) ->
  NewDKGGroupPublicKey round0 mpks complaints threshold0 = Ok gpk ->
  dom (idMap gpk) = qualifyNodeIDs gpk /\
  dom (publicKeys gpk) = qualifyNodeIDs gpk /\
  length (qualifyIDs gpk)
    = length (qualifiedMpks (disqualified complaints threshold0) mpks).
Proof.
  intros Hnd Hgpk.
  destruct (NewDKGGroupPublicKey_maps_agree_aux round0 mpks complaints threshold0 gpk Hnd Hgpk)
    as (Hid & Hpk & _).
  split; [done|]. split; [done|].
  unfold NewDKGGroupPublicKey in Hgpk. destruct (_ <? _); [done|].
  destruct (recoverPublicKeys _ _ _ _); [|done|done].
  destruct (groupShares _ _); [|done|done]. simplify_eq. simpl.
  destruct (qualify_fold (disqualified complaints threshold0) mpks
              {| q_mpkMap := ∅; q_idMap := ∅; q_qualifyIDs := []; q_qualifyNodeIDs := ∅ |})
    as (H1 & _).
  fold (qualify (disqualified complaints threshold0) mpks) in H1. simpl in H1.
  by rewrite H1, length_fmap.
Qed.

(** [X13] With such a group key, a partial signature for the key's round
    is turned away with [ErrNotQualifyDKGParticipant] exactly when its
    proposer is not a qualified node, and [processPartialSignature] never
    calls through a missing public key. *)
Theorem processPartialSignature_qualified round0 mpks complaints threshold0 gpk tsig psig :
  NoDup (mpk_DKGID <$> qualifiedMpks (disqualified complaints threshold0) mpks) ->
  NewDKGGroupPublicKey round0 mpks complaints threshold0 = Ok gpk ->
  tsig_groupPublicKey tsig = gpk ->
  (processPartialSignature tsig psig).1 <> Panic /\
  (psig_Round psig = round0 ->
   ((processPartialSignature tsig psig).1 = Ok (Some ErrNotQualifyDKGParticipant) <->
    psig_ProposerID psig ∉ qualifyNodeIDs gpk)).
Proof.
  intros Hnd Hgpk Htsig.
  destruct (NewDKGGroupPublicKey_maps_agree_aux round0 mpks complaints threshold0 gpk Hnd Hgpk)
    as (Hid & Hpk & Hround).
  assert (is_Some (idMap gpk !! psig_ProposerID psig) <->
          psig_ProposerID psig ∈ qualifyNodeIDs gpk) as Hid'
    by (rewrite <- Hid; symmetry; apply elem_of_dom).
  assert (is_Some (publicKeys gpk !! psig_ProposerID psig) <->
          psig_ProposerID psig ∈ qualifyNodeIDs gpk) as Hpk'
    by (rewrite <- Hpk; symmetry; apply elem_of_dom).
  unfold processPartialSignature, sanityCheck. rewrite Htsig, Hround.
  destruct (decide (psig_Round psig = round0)) as [Hr|Hr].
  2:{ rewrite bool_decide_eq_false_2 by done. simpl. split; [done|]. intros ?. done. }
  rewrite bool_decide_eq_true_2 by done. simpl.
  destruct (idMap gpk !! psig_ProposerID psig) as [id|] eqn:E1; simpl.
  2:{ split; [done|]. intros _. split; [|done]. intros _ Hin.
      apply Hid' in Hin. by destruct Hin. }
  assert (psig_ProposerID psig ∈ qualifyNodeIDs gpk) as Hq by (apply Hid'; eauto).
  destruct (proj2 Hpk' Hq) as [pubKey E2]. rewrite E2.
  destruct (verifyDKGPartialSignatureSignature psig) as [[|]|e]; simpl;
    try (split; [done|]; intros _; split; [done | tauto]).
  destruct (bool_decide (psig_Hash psig = tsig_hash tsig)); simpl;
    try (split; [done|]; intros _; split; [done | tauto]).
  destruct (VerifySignature _ _ _); simpl;
    (split; [done|]; intros _; split; [done | tauto]).
Qed.

(** [X14] Partial signatures only accumulate: whatever messages
    [processPartialSignature] is fed, no held signature is lost, so once
    [signature] has enough of them it never again fails with
    [ErrNotEnoughtPartialSignatures]. *)
Theorem signatures_only_accumulate tsig psigs :
  (forall id, is_Some (tsig_sigs tsig !! id) ->
     is_Some (tsig_sigs (processPartialSignatures tsig psigs) !! id)) /\
  (size (tsig_sigs tsig) <= size (tsig_sigs (processPartialSignatures tsig psigs)))%nat /\
  (signature tsig <> Err ErrNotEnoughtPartialSignatures ->
   signature (processPartialSignatures tsig psigs) <> Err ErrNotEnoughtPartialSignatures).
Proof.
  destruct (processPartialSignatures_spec psigs tsig) as (Hg & _ & Hd & _).
  assert (forall id, is_Some (tsig_sigs tsig !! id) ->
            is_Some (tsig_sigs (processPartialSignatures tsig psigs) !! id)) as Hgrow
    by (intros id Hid; apply Hd; by left).
  assert (size (tsig_sigs tsig) <= size (tsig_sigs (processPartialSignatures tsig psigs)))%nat
    as Hsize.
  { rewrite <- !size_dom. apply subseteq_size. intros id. rewrite !elem_of_dom. apply Hgrow. }
  split; [done|]. split; [done|].
  unfold signature. rewrite Hg.
  destruct (Z.ltb_spec (Z.of_nat (size (tsig_sigs tsig)))
              (threshold (tsig_groupPublicKey tsig))); [done|]. intros _.
  destruct (Z.ltb_spec (Z.of_nat (size (tsig_sigs (processPartialSignatures tsig psigs))))
              (threshold (tsig_groupPublicKey tsig))); [lia|].
  by destruct (RecoverSignature _ _).
Qed.

End GroupKeyFacts.

(** ** More on the orchestrator *)

Section ConsensusMore.
Import Consensus.
Context `{Modules}.

Lemma NewConsensus_builds_aux gov db0 pub keySet :
  NodeSetCache.NodeSet (cacheGov gov) 0 = Some keySet ->
  exists con s,
    NewConsensus gov db0 pub = Ok con /\
    NodeSetCache.rounds (nodeSetCache con) !! 0 = Some s /\
    (forall n, n ∈ NodeSetCache.nodeSet s <-> n ∈ NodeSetCache.NewNodeID <$> keySet).
Proof.
  intros Hgov.
  destruct (update_retains_window_aux (cacheGov gov) NodeSetCache.NewNodeSetCache 0 keySet
              NewNodeSetCache_consistent Hgov) as (cache' & E & Hr).
  simpl in E, Hr. unfold NewConsensus, NodeSetCache.GetNodeSet, NodeSetCache.get. simpl.
  rewrite lookup_empty, E. eexists _, _. split; [done|]. simpl. split; [exact Hr|].
  apply (cacheKeys_spec keySet ∅). intros n rec Hn. by rewrite lookup_empty in Hn.
Qed.

(** [X15] [NewConsensus] panics when the governance has no node set for
    round 0. Whenever it returns, the governance has a node set for round
    0, and the orchestrator it returns is in round 0, is the one of the
    node of the given key, has the configuration of round 0, one agreement
    module and one receiver (with an empty channel) per chain, and has
    round 0 in its node-set cache, holding the IDs of the governance's
    keys. (Its other panics, as on a governance without a configuration
    for round 0, are not described here.) *)
Theorem NewConsensus_builds gov db0 pub :
  (NodeSetCache.NodeSet (cacheGov gov) 0 = None -> NewConsensus gov db0 pub = Panic) /\
  (forall con, NewConsensus gov db0 pub = Ok con ->
   exists keySet s,
     NodeSetCache.NodeSet (cacheGov gov) 0 = Some keySet /\
     ID con = NodeSetCache.NewNodeID pub /\
     round con = 0 /\
     currentConfig con = GetConfiguration gov 0 /\
     length (baModules con) = Z.to_nat (NumChains (GetConfiguration gov 0)) /\
     receivers con =
       map (fun i => {| recv_chainID := Z.of_nat i; restartNotary := [] |})
           (seq 0 (Z.to_nat (NumChains (GetConfiguration gov 0)))) /\
     NodeSetCache.rounds (nodeSetCache con) !! 0 = Some s /\
     (forall n, n ∈ NodeSetCache.nodeSet s <-> n ∈ NodeSetCache.NewNodeID <$> keySet)).
Proof.
  assert (forall keySet, NodeSetCache.NodeSet (cacheGov gov) 0 = Some keySet ->
    exists cache',
      NodeSetCache.GetNodeSet (cacheGov gov) NodeSetCache.NewNodeSetCache 0
        = (Ok (NodeSetCache.nodeSet
                 (NodeSetCache.newSets (cacheGov gov) 0
                    (NodeSetCache.cacheKeys keySet ∅).1)), cache') /\
      NodeSetCache.rounds cache' !! 0
        = Some (NodeSetCache.newSets (cacheGov gov) 0 (NodeSetCache.cacheKeys keySet ∅).1) /\
      (forall n, n ∈ (NodeSetCache.cacheKeys keySet ∅).1
                 <-> n ∈ NodeSetCache.NewNodeID <$> keySet)) as Hget.
  { intros keySet Hgov.
    destruct (update_retains_window_aux (cacheGov gov) NodeSetCache.NewNodeSetCache 0 keySet
                NewNodeSetCache_consistent Hgov) as (cache' & E & Hr).
    simpl in E, Hr. exists cache'.
    unfold NodeSetCache.GetNodeSet, NodeSetCache.get. simpl. rewrite lookup_empty, E.
    split; [done|]. split; [done|].
    apply (cacheKeys_spec keySet ∅). intros n rec Hn. by rewrite lookup_empty in Hn. }
  assert (NodeSetCache.NodeSet (cacheGov gov) 0 = None ->
          NewConsensus gov db0 pub = Panic) as Hnone.
  { intros Hgov. unfold NewConsensus, NodeSetCache.GetNodeSet, NodeSetCache.get,
      NodeSetCache.update. simpl. by rewrite lookup_empty, Hgov. }
  split; [exact Hnone|].
  intros con Hcon.
  destruct (NodeSetCache.NodeSet (cacheGov gov) 0) as [keySet|] eqn:Hgov;
    [|by rewrite Hnone in Hcon].
  destruct (Hget keySet eq_refl) as (cache' & E & Hr & Hm).
  unfold NewConsensus in Hcon. rewrite E in Hcon. injection Hcon as <-.
  eexists keySet, _. split; [done|]. simpl.
  split; [done|]. split; [done|]. split; [done|].
  split; [by rewrite length_map, length_seq|]. split; [done|]. split; [exact Hr|].
  exact Hm.
Qed.

(** [X16] For the orchestrator [NewConsensus] returns, round 0 is always
    there to check a witness ack against: [ProcessWitnessAck] returns
    [ErrProposerNotInNodeSet] (and changes nothing) exactly for the
    proposers that are not among the governance's keys of round 0, and
    hands every other ack to the compaction chain; it never returns
    [ErrRoundNotReady], whatever the governance says by then. *)
Theorem ProcessWitnessAck_after_NewConsensus gov gov' db0 pub keySet con witnessAck :
  NodeSetCache.NodeSet (cacheGov gov) 0 = Some keySet ->
  NewConsensus gov db0 pub = Ok con ->
  (wa_ProposerID witnessAck ∉ NodeSetCache.NewNodeID <$> keySet ->
     ProcessWitnessAck gov' con witnessAck = (Ok (Some ErrProposerNotInNodeSet), con)) /\
  (wa_ProposerID witnessAck ∈ NodeSetCache.NewNodeID <$> keySet ->
     ProcessWitnessAck gov' con witnessAck =
       (Ok (errOf (cc_processWitnessAck (ccModule con) witnessAck).1),
        with_cc con (cc_processWitnessAck (ccModule con) witnessAck).2)).
Proof.
  intros Hgov Hcon.
  destruct (NewConsensus_builds_aux gov db0 pub keySet Hgov) as (con0 & s & E & Hs & Hm).
  rewrite E in Hcon. simplify_eq.
  unfold ProcessWitnessAck. rewrite (Exists_cached _ _ _ _ s Hs), with_cache_same.
  split; intros Hin.
  - rewrite bool_decide_eq_false_2; [done|]. by rewrite Hm.
  - rewrite bool_decide_eq_true_2 by (by rewrite Hm).
    by destruct (cc_processWitnessAck _ _).
Qed.

(** What the loops of [processBlock] tell the application. *)
Lemma putBlocks_nb blocks : forall con,
  nbModule (putBlocks con blocks).2 = nbModule con.
Proof.
  induction blocks as [|b blocks IH]; intros con; simpl; [done|].
  destruct (db_Put (db con) b) as [[code|] db']; [done|]. by rewrite IH.
Qed.

Lemma compactBlocks_nb blocks : forall con,
  exists evs, nbModule (compactBlocks con blocks).2 = nbModule con ++ evs /\
    Forall (fun ev => forall h, ev <> BlockConfirmed h) evs.
Proof.
  induction blocks as [|b blocks IH]; intros con; simpl.
  - exists []. by rewrite app_nil_r.
  - destruct (cc_processBlock (ccModule con) b) as [[[code|] b'] cc'];
      [exists []; by rewrite app_nil_r|].
    destruct (db_Update _ b') as [[code|] db']; [exists []; by rewrite app_nil_r|].
    match goal with
    | |- context [compactBlocks ?c blocks] =>
        destruct (IH c) as (evs & Hev & Hevs); rewrite Hev
    end.
    exists (BlockDelivered b' :: evs). simpl. rewrite <- app_assoc. split; [done|].
    by constructor.
Qed.

Lemma orderBlocks_nb blocks : forall con,
  exists evs, nbModule (orderBlocks con blocks).2 = nbModule con ++ evs /\
    Forall (fun ev => forall h, ev <> BlockConfirmed h) evs.
Proof.
  induction blocks as [|b blocks IH]; intros con; simpl.
  - exists []. by rewrite app_nil_r.
  - destruct (to_processBlock _ b) as [[[delivered early] [code|]] to'].
    { exists [StronglyAcked (BlockHash b)]. simpl. split; [done|]. by repeat constructor. }
    destruct delivered as [|d delivered].
    { match goal with
      | |- context [orderBlocks ?c blocks] =>
          destruct (IH c) as (evs & Hev & Hevs); rewrite Hev
      end.
      exists (StronglyAcked (BlockHash b) :: evs). simpl. rewrite <- app_assoc.
      split; [done|]. by constructor. }
    match goal with
    | |- context [putBlocks ?c (d :: delivered)] =>
        pose proof (putBlocks_nb (d :: delivered) c) as H3;
        destruct (putBlocks c (d :: delivered)) as [[e|] con3]
    end; simpl in H3.
    { exists [StronglyAcked (BlockHash b)]. simpl. rewrite H3.
      split; [done|]. by repeat constructor. }
    destruct (ct_processBlocks _ (d :: delivered)) as [[[code|] timed] ct'].
    { exists [StronglyAcked (BlockHash b);
              TotalOrderingDelivered (map BlockHash (d :: delivered)) early].
      simpl. rewrite H3, <- app_assoc. split; [done|]. by repeat constructor. }
    match goal with
    | |- context [compactBlocks ?c timed] =>
        destruct (compactBlocks_nb timed c) as (evs6 & H6 & Hevs6);
        destruct (compactBlocks c timed) as [[e|] con6]
    end; simpl in H6.
    { exists ([StronglyAcked (BlockHash b);
               TotalOrderingDelivered (map BlockHash (d :: delivered)) early] ++ evs6).
      simpl. rewrite H6, H3, <- !app_assoc. split; [done|].
      do 2 (constructor; [done|]). done. }
    destruct (IH con6) as (evs & -> & Hevs).
    exists ([StronglyAcked (BlockHash b);
             TotalOrderingDelivered (map BlockHash (d :: delivered)) early] ++ evs6 ++ evs).
    rewrite H6, H3, <- !app_assoc. split; [done|].
    apply Forall_app. split; [by repeat constructor|]. by apply Forall_app.
Qed.

(** [X17] What [processBlock] reports to the application: nothing when
    the block fails the sanity check or the reliable broadcast rejects
    it; otherwise it adds to the reports so far a [BlockConfirmed] for the
    block, first and once, followed only by reports of other kinds. *)
Theorem processBlock_reports con block :
  (sanityCheck con block <> None \/ (rb_processBlock (rbModule con) block).1 <> None ->
     nbModule (processBlock con block).2 = nbModule con) /\
  (sanityCheck con block = None -> (rb_processBlock (rbModule con) block).1 = None ->
     exists evs,
       nbModule (processBlock con block).2
         = nbModule con ++ BlockConfirmed (BlockHash block) :: evs /\
       Forall (fun ev => forall h, ev <> BlockConfirmed h) evs).
Proof.
  unfold processBlock. destruct (sanityCheck con block) as [err|]; [split; [done | done]|].
  destruct (rb_processBlock (rbModule con) block) as [[code|] rb']; simpl;
    [split; [done | done]|].
  split; [by intros [?|?]|]. intros _ _.
  destruct (rb_extractBlocks _) as [blocks rb''].
  match goal with
  | |- context [orderBlocks ?c blocks] =>
      destruct (orderBlocks_nb blocks c) as (evs & Hev & Hevs); rewrite Hev
  end.
  exists evs. simpl. by rewrite <- app_assoc.
Qed.

End ConsensusMore.

(** ** The DKG protocol of one node *)

Section DKGProtocolFacts.
Import TSig DKGProtocol.
Context `{Helpers} `{!PrvLib}.

Lemma extends_nil shares d d' :
  recv d' = recv d -> ID d' = ID d -> round d' = round d ->
  idMap d' = idMap d -> mpkMap d' = mpkMap d ->
  prvSharesReceived d ⊆ prvSharesReceived d' ->
  nodeComplained d ⊆ nodeComplained d' ->
  (forall from to,
     to ∈ default ∅ (antiComplaintReceived d !! from) ->
     to ∈ default ∅ (antiComplaintReceived d' !! from)) ->
  (forall from,
     is_Some (antiComplaintReceived d !! from) ->
     is_Some (antiComplaintReceived d' !! from)) ->
  extends shares d d' [].
Proof.
  intros Hrecv ? ? ? ? ? ? ? ?. split; try done.
  - by rewrite app_nil_r.
  - intros n Hn. by apply elem_of_nil in Hn.
  - constructor.
  - intros n Hn. by apply elem_of_nil in Hn.
  - constructor.
Qed.

Lemma extends_refl shares d : extends shares d d [].
Proof. by apply extends_nil. Qed.

Lemma processPrivateShare_extends d prv :
  exists new, extends [prv] d (processPrivateShare d prv).2 new.
Proof.
  unfold processPrivateShare.
  destruct (bool_decide (round d = prv_Round prv)); simpl;
    [|exists []; apply extends_refl].
  destruct (idMap d !! prv_ReceiverID prv) as [receiverID|];
    [|exists []; apply extends_refl].
  destruct (sanityCheck d prv); [exists []; apply extends_refl|].
  destruct (mpkMap d !! prv_ProposerID prv) as [mpk|];
    [|exists []; apply extends_refl].
  destruct (VerifyPrvShare mpk receiverID (prv_PrivateShare prv)) as [ok|e];
    [|exists []; apply extends_refl].
  set (d1 := if bool_decide (prv_ReceiverID prv = ID d) then _ else d).
  assert (Hd1 : ID d1 = ID d /\ round d1 = round d /\ idMap d1 = idMap d /\
                mpkMap d1 = mpkMap d /\ recv d1 = recv d /\
                nodeComplained d1 = nodeComplained d /\
                antiComplaintReceived d1 = antiComplaintReceived d /\
                prvSharesReceived d ⊆ prvSharesReceived d1).
  { subst d1. case_bool_decide; simpl; repeat split; try done.
    apply union_subseteq_r. }
  destruct Hd1 as (HID & Hround & HidMap & HmpkMap & Hrecv & Hcompl & Hanti & Hrcv).
  destruct ok; simpl.
  - (* the share verifies *)
    case_bool_decide as Hme; simpl.
    + destruct (PrvAddShare _ _ _); simpl; exists [];
        apply extends_nil; simpl; try done;
        try (by rewrite Hcompl); intros from; by rewrite Hanti.
    + destruct (antiComplaintReceived d1 !! prv_ReceiverID prv) as [s|] eqn:Hs;
        simpl; rewrite Hanti in Hs.
      * exists []. apply extends_nil; simpl; try done; [by rewrite Hcompl| |].
        -- intros from to. rewrite Hanti.
           destruct (decide (from = prv_ReceiverID prv)) as [->|Hne].
           ++ rewrite lookup_insert_eq, Hs. simpl. intros ?. by apply elem_of_union_r.
           ++ by rewrite lookup_insert_ne.
        -- intros from. rewrite Hanti.
           destruct (decide (from = prv_ReceiverID prv)) as [->|Hne].
           ++ rewrite lookup_insert_eq. eauto.
           ++ by rewrite lookup_insert_ne.
      * exists [ProposeDKGAntiNackComplaint prv]. split; simpl; try done.
        -- by rewrite Hrecv.
        -- by rewrite Hcompl.
        -- intros from to. rewrite Hanti.
           destruct (decide (from = prv_ReceiverID prv)) as [->|Hne].
           ++ rewrite Hs. simpl. intros Hin. by apply elem_of_empty in Hin.
           ++ by rewrite !lookup_insert_ne.
        -- intros from. rewrite Hanti.
           destruct (decide (from = prv_ReceiverID prv)) as [->|Hne].
           ++ rewrite lookup_insert_eq. eauto.
           ++ by rewrite !lookup_insert_ne.
        -- intros n Hn; by apply elem_of_nil in Hn.
        -- constructor.
        -- intros n Hn. apply list_elem_of_singleton in Hn as ->.
           split; [done|]. rewrite lookup_insert_eq. eauto.
        -- apply NoDup_singleton.
        -- constructor; [|constructor]. by apply list_elem_of_singleton.
  - (* the share does not verify *)
    case_bool_decide as Hc; simpl.
    + exists []. apply extends_nil; try done.
      * by rewrite Hcompl.
      * intros from to. by rewrite Hanti.
      * intros from. by rewrite Hanti.
    + exists [ProposeDKGComplaint
                {| cpl_ProposerID := ID d1; cpl_Round := round d1;
                   cpl_PrivateShare := prv |}].
      split; simpl; try done.
      * by rewrite Hrecv.
      * rewrite Hcompl. apply union_subseteq_r.
      * intros from to. by rewrite Hanti.
      * intros from. by rewrite Hanti.
      * intros n Hn. apply list_elem_of_singleton in Hn as ->.
        unfold accused. simpl. split; [by rewrite <- Hcompl|].
        by apply elem_of_union_l, elem_of_singleton.
      * apply NoDup_singleton.
      * intros n Hn; by apply elem_of_nil in Hn.
      * constructor.
      * constructor; [|constructor]. split; [by apply list_elem_of_singleton|done].
Qed.

Lemma extends_trans s1 s2 d d' d'' new1 new2 :
  extends s1 d d' new1 -> extends s2 d' d'' new2 ->
  extends (s1 ++ s2) d d'' (new1 ++ new2).
Proof.
  intros [] []. split.
  - rewrite ext_recv1, ext_recv0. by rewrite app_assoc.
  - congruence.
  - congruence.
  - congruence.
  - congruence.
  - by etrans.
  - by etrans.
  - eauto.
  - eauto.
  - unfold complaintTargets. rewrite omap_app. intros n [Hn|Hn]%elem_of_app.
    + destruct (ext_targets0 n Hn). split; [done|]. by apply ext_complained1.
    + destruct (ext_targets1 n Hn) as [Hnot ?]. split; [|done].
      intros Hin. apply Hnot. by apply ext_complained0.
  - unfold complaintTargets. rewrite omap_app. apply NoDup_app.
    split; [done|]. split; [|done].
    intros n Hn1 Hn2. destruct (ext_targets0 n Hn1). by destruct (ext_targets1 n Hn2).
  - unfold antiNackReceivers. rewrite omap_app. intros n [Hn|Hn]%elem_of_app.
    + destruct (ext_receivers0 n Hn). split; [done|]. by apply ext_anti_dom1.
    + destruct (ext_receivers1 n Hn) as [Hnone ?]. split; [|done].
      destruct (antiComplaintReceived d !! n) eqn:Hd; [|done].
      destruct (ext_anti_dom0 n) as [? Hsome]; [by rewrite Hd|]. congruence.
  - unfold antiNackReceivers. rewrite omap_app. apply NoDup_app.
    split; [done|]. split; [|done].
    intros n Hn1 Hn2. destruct (ext_receivers0 n Hn1) as [_ [? Hsome]].
    destruct (ext_receivers1 n Hn2). congruence.
  - apply Forall_app. split.
    + eapply Forall_impl; [done|]. intros [c| |prv|prv|]; simpl; try done.
      * intros [? ?]. split; [|done]. apply elem_of_app. by left.
      * intros ?. apply elem_of_app. by left.
    + eapply Forall_impl; [done|]. intros [c| |prv|prv|]; simpl; try done.
      * intros [? ?]. split; [|congruence]. apply elem_of_app. by right.
      * intros ?. apply elem_of_app. by right.
Qed.

Lemma processPrivateShares_extends shares d :
  exists new, extends shares d (processPrivateShares d shares) new.
Proof.
  revert d. induction shares as [|prv shares IH]; intros d.
  - exists []. apply extends_refl.
  - destruct (processPrivateShare_extends d prv) as [new1 H1'].
    destruct (IH (processPrivateShare d prv).2) as [new2 H2'].
    exists (new1 ++ new2). by apply (extends_trans [prv] shares _ _ _ _ _ H1').
Qed.

(** [X18] However many private shares [processPrivateShare] is given, it
    complains at most once about each proposer, and never about one it had
    complained about before; each complaint is this node's and carries one
    of the shares given. *)
Theorem complains_once_per_proposer (d : dkgProtocol) (shares : list DKGPrivateShare) :
  exists new,
    recv (processPrivateShares d shares) = recv d ++ new /\
    NoDup (complaintTargets new) /\
    (forall n, n ∈ complaintTargets new -> n ∉ nodeComplained d) /\
    (forall c, ProposeDKGComplaint c ∈ new ->
       cpl_ProposerID c = ID d /\ cpl_PrivateShare c ∈ shares).
Proof.
  destruct (processPrivateShares_extends shares d) as [new []].
  exists new. split; [done|]. split; [done|]. split.
  - intros n Hn. by destruct (ext_targets0 n Hn).
  - intros c Hc. rewrite Forall_forall in ext_calls0.
    by destruct (ext_calls0 _ Hc).
Qed.

(** [X19] Among any number of private shares given to
    [processPrivateShare], at most one per receiver is passed on as an
    anti-nack complaint, and none for a receiver that already has one
    recorded; beside these and the complaints it makes no call. *)
Theorem rebroadcasts_once_per_receiver (d : dkgProtocol) (shares : list DKGPrivateShare) :
  exists new,
    recv (processPrivateShares d shares) = recv d ++ new /\
    NoDup (antiNackReceivers new) /\
    (forall n, n ∈ antiNackReceivers new -> antiComplaintReceived d !! n = None) /\
    (forall p, p ∈ new ->
       (exists c, p = ProposeDKGComplaint c) \/
       (exists prv, p = ProposeDKGAntiNackComplaint prv /\ prv ∈ shares)).
Proof.
  destruct (processPrivateShares_extends shares d) as [new []].
  exists new. split; [done|]. split; [done|]. split.
  - intros n Hn. by destruct (ext_receivers0 n Hn).
  - intros p Hp. rewrite Forall_forall in ext_calls0. specialize (ext_calls0 _ Hp).
    destruct p; try done; eauto.
Qed.

Lemma proposeNack_fold (l : list NodeID) (d : dkgProtocol) :
  foldl (fun d' nID =>
           if bool_decide (nID ∈ prvSharesReceived d') then d'
           else propose d' (ProposeDKGComplaint (nackComplaint d' nID))) d l =
  mkDKG (ID d)
    (recv d ++ map (fun n => ProposeDKGComplaint (nackComplaint d n))
                   (filter (fun n => n ∉ prvSharesReceived d) l))
    (round d) (threshold d) (idMap d) (mpkMap d) (masterPrivateShare d)
    (prvShares d) (prvSharesReceived d) (nodeComplained d) (antiComplaintReceived d).
Proof.
  revert d. induction l as [|n l IH]; intros d; simpl.
  - rewrite app_nil_r. by destruct d.
  - case_bool_decide as Hn.
    + rewrite IH. by rewrite filter_cons_False by (intros Hnot; by apply Hnot).
    + rewrite IH. rewrite filter_cons_True by done. simpl.
      by rewrite <- app_assoc.
Qed.

Lemma complaintTargets_nacks (d : dkgProtocol) (l : list NodeID) :
  complaintTargets (map (fun n => ProposeDKGComplaint (nackComplaint d n)) l) = l.
Proof. induction l as [|n l IH]; simpl; [done|]. by rewrite IH. Qed.

(** [X20] [proposeNackComplaints] makes exactly one call per node that
    proposed a master public key and from which no private share for
    this node was processed: a complaint of this node for its round that
    names the node and carries no share. *)
Theorem proposeNackComplaints_targets (d : dkgProtocol) :
  exists targets,
    recv (proposeNackComplaints d) =
      recv d ++ map (fun n => ProposeDKGComplaint (nackComplaint d n)) targets /\
    NoDup targets /\
    (forall n, n ∈ targets <-> is_Some (mpkMap d !! n) /\ n ∉ prvSharesReceived d).
Proof.
  exists (filter (fun n => n ∉ prvSharesReceived d) (map_to_list (mpkMap d)).*1).
  unfold proposeNackComplaints. rewrite proposeNack_fold. simpl.
  split; [done|]. split.
  - apply NoDup_filter, NoDup_fst_map_to_list.
  - intros n. rewrite list_elem_of_filter, list_elem_of_fmap. split.
    + intros [Hn ([k v] & -> & Hin)]. split; [|done].
      apply elem_of_map_to_list in Hin. simpl. eauto.
    + intros [[v Hv] Hn]. split; [done|]. exists (n, v). split; [done|].
      by apply elem_of_map_to_list.
Qed.

Lemma processPrivateShare_marks (d : dkgProtocol) (prv : DKGPrivateShare) :
  round d = prv_Round prv ->
  prv_ReceiverID prv = ID d ->
  is_Some (idMap d !! ID d) ->
  (processPrivateShare d prv).1 = Done None ->
  prv_ProposerID prv ∈ prvSharesReceived (processPrivateShare d prv).2.
Proof.
  intros Hround Hme [rid Hrid]. unfold processPrivateShare.
  rewrite bool_decide_true by done. simpl. rewrite Hme, Hrid.
  destruct (sanityCheck d prv); [done|].
  destruct (mpkMap d !! prv_ProposerID prv) as [mpk|]; [|done].
  destruct (VerifyPrvShare mpk rid (prv_PrivateShare prv)) as [ok|e]; [|done].
  rewrite (bool_decide_true (ID d = ID d)) by done. destruct ok; simpl.
  - rewrite (bool_decide_true (ID d = ID d)) by done.
    destruct (PrvAddShare _ _ _); simpl; [|done].
    intros _. by apply elem_of_union_l, elem_of_singleton.
  - case_bool_decide; simpl; intros _; by apply elem_of_union_l, elem_of_singleton.
Qed.

(** [X21] Once a private share addressed to this node has been processed
    without error, its proposer is not nacked, whatever shares are
    processed afterwards and whether the share was valid or not. *)
Theorem received_share_is_not_nacked (d : dkgProtocol) (prv : DKGPrivateShare)
    (later : list DKGPrivateShare) (new : list proposal) :
  round d = prv_Round prv ->
  prv_ReceiverID prv = ID d ->
  is_Some (idMap d !! ID d) ->
  (processPrivateShare d prv).1 = Done None ->
  let d' := processPrivateShares (processPrivateShare d prv).2 later in
  recv (proposeNackComplaints d') = recv d' ++ new ->
  prv_ProposerID prv ∉ complaintTargets new.
Proof.
  intros Hround Hme Hpart Hdone d' Hnew.
  pose proof (processPrivateShare_marks d prv Hround Hme Hpart Hdone) as Hin.
  destruct (processPrivateShares_extends later (processPrivateShare d prv).2)
    as [calls Hext].
  apply (ext_received _ _ _ _ Hext) in Hin. fold d' in Hin.
  unfold proposeNackComplaints in Hnew. rewrite proposeNack_fold in Hnew.
  simpl in Hnew. apply app_inv_head in Hnew. subst new.
  rewrite complaintTargets_nacks. rewrite list_elem_of_filter.
  by intros [Hnot _].
Qed.

Lemma sendPrivateShares_spec (mpks : list DKGMasterPublicKey) (d : dkgProtocol) :
  let r := sendPrivateShares d mpks in
  let send mpk :=
    (fun share =>
       ProposeDKGPrivateShare
         {| prv_ProposerID := ID d; prv_ReceiverID := mpk_ProposerID mpk;
            prv_Round := round d; prv_PrivateShare := share |})
    <$> PrvShare (masterPrivateShare d) (mpk_DKGID mpk) in
  (r.1 = None <->
   Forall (fun mpk => is_Some (PrvShare (masterPrivateShare d) (mpk_DKGID mpk))) mpks) /\
  (forall e, r.1 = Some e -> e = ErrIDShareNotFound) /\
  (r.1 = None -> recv r.2 = recv d ++ omap send mpks) /\
  idMap r.2 = idMap d /\ mpkMap r.2 = mpkMap d /\
  prvSharesReceived r.2 = prvSharesReceived d.
Proof.
  revert d. induction mpks as [|mpk mpks IH]; intros d; simpl.
  - split; [done|]. split; [done|]. split; [|done]. by rewrite app_nil_r.
  - destruct (PrvShare (masterPrivateShare d) (mpk_DKGID mpk)) as [share|] eqn:Hs;
      simpl.
    + match goal with |- context [sendPrivateShares ?d1 mpks] =>
        destruct (IH d1) as (Hiff & Herr & Hrecv & Hid & Hmpk & Hrcv) end.
      simpl in Hiff, Hrecv, Hid, Hmpk, Hrcv. split.
      { rewrite Hiff, Forall_cons, Hs. split; [by eauto|]. by intros [_ ?]. }
      split; [done|]. split; [|done].
      intros Hnone. rewrite (Hrecv Hnone). by rewrite <- app_assoc.
    + split.
      { split; [done|]. intros Hall. apply Forall_cons in Hall as [[? Hsome] _].
        congruence. }
      split; [by intros e [= <-]|]. done.
Qed.

Lemma foldl_insert_dom {A B : Type} (key : A -> NodeID) (val : A -> B)
    (l : list A) (m : gmap NodeID B) :
  dom (foldl (fun m x => <[key x := val x]> m) m l) =
  dom m ∪ list_to_set (map key l).
Proof.
  revert m. induction l as [|x l IH]; intros m; simpl.
  - by rewrite union_empty_r_L.
  - rewrite IH, dom_insert_L.
    by rewrite (union_comm_L {[key x]} (dom m)), <- union_assoc_L.
Qed.

Lemma processMasterPublicKeys_participants (d : dkgProtocol)
    (mpks : list DKGMasterPublicKey) :
  let r := processMasterPublicKeys d mpks in
  dom (idMap r.2) = list_to_set (map mpk_ProposerID mpks) /\
  dom (mpkMap r.2) = list_to_set (map mpk_ProposerID mpks) /\
  prvSharesReceived r.2 = ∅.
Proof.
  intros r. subst r. unfold processMasterPublicKeys.
  match goal with |- context [sendPrivateShares ?d1 mpks] =>
    destruct (sendPrivateShares_spec mpks d1) as (_ & _ & _ & Hid & Hmpk & Hrcv)
  end.
  simpl in Hid, Hmpk, Hrcv. rewrite Hid, Hmpk, Hrcv.
  rewrite !foldl_insert_dom, !dom_empty_L, !union_empty_l_L. done.
Qed.

(** [X22] [processMasterPublicKeys] makes the proposers of the master
    public keys the participants, forgets which private shares were
    received, and sends one private share to each proposer, in the order of
    the keys. It fails, with [ErrIDShareNotFound], exactly when the master
    private share has no share for one of the DKG IDs. *)
Theorem processMasterPublicKeys_sends_shares (d : dkgProtocol)
    (mpks : list DKGMasterPublicKey) :
  let master := SetParticipants (masterPrivateShare d) (map mpk_DKGID mpks) in
  let r := processMasterPublicKeys d mpks in
  let send mpk :=
    (fun share =>
       ProposeDKGPrivateShare
         {| prv_ProposerID := ID d; prv_ReceiverID := mpk_ProposerID mpk;
            prv_Round := round d; prv_PrivateShare := share |})
    <$> PrvShare master (mpk_DKGID mpk) in
  (r.1 = None <->
   Forall (fun mpk => is_Some (PrvShare master (mpk_DKGID mpk))) mpks) /\
  (forall e, r.1 = Some e -> e = ErrIDShareNotFound) /\
  (r.1 = None ->
   recv r.2 = recv d ++ omap send mpks /\ length (omap send mpks) = length mpks) /\
  dom (idMap r.2) = list_to_set (map mpk_ProposerID mpks) /\
  dom (mpkMap r.2) = list_to_set (map mpk_ProposerID mpks) /\
  prvSharesReceived r.2 = ∅.
Proof.
  intros master r send. subst r. unfold processMasterPublicKeys.
  match goal with |- context [sendPrivateShares ?d1 mpks] =>
    destruct (sendPrivateShares_spec mpks d1) as (Hiff & Herr & Hrecv & Hid & Hmpk & Hrcv)
  end.
  simpl in *. fold master in Hiff, Hrecv.
  split; [done|]. split; [done|]. split.
  - intros Hnone. split; [by apply Hrecv|].
    apply Hiff in Hnone. subst send. clearbody master. clear -Hnone.
    induction Hnone as [|mpk l [share Hs] _ IH]; simpl; [done|].
    rewrite Hs. simpl. f_equal. exact IH.
  - apply processMasterPublicKeys_participants.
Qed.

Lemma processPrivateShare_no_crash (d : dkgProtocol) (prv : DKGPrivateShare) :
  dom (idMap d) = dom (mpkMap d) -> (processPrivateShare d prv).1 <> Crash.
Proof.
  intros Hdom. unfold processPrivateShare.
  destruct (bool_decide (round d = prv_Round prv)); simpl; [|done].
  destruct (idMap d !! prv_ReceiverID prv) as [receiverID|]; [|done].
  destruct (sanityCheck d prv) eqn:Hsane; [done|].
  destruct (mpkMap d !! prv_ProposerID prv) as [mpk|] eqn:Hmpk.
  - destruct (VerifyPrvShare mpk receiverID (prv_PrivateShare prv)) as [ok|e];
      [|done].
    destruct ok; simpl.
    + case_bool_decide; [|done]. by destruct (PrvAddShare _ _ _).
    + by case_bool_decide.
  - unfold sanityCheck in Hsane.
    destruct (idMap d !! prv_ProposerID prv) eqn:Hid; [|done].
    apply not_elem_of_dom in Hmpk. rewrite <- Hdom in Hmpk.
    apply not_elem_of_dom in Hmpk. congruence.
Qed.

(** [X23] [processPrivateShare] never calls [VerifyPrvShare] through a
    missing master public key: neither on a new protocol nor after
    [processMasterPublicKeys], whatever its outcome was and whatever
    private shares were processed since. *)
Theorem processPrivateShare_never_panics (ID0 : NodeID) (round0 threshold0 : Z)
    (d : dkgProtocol) (mpks : list DKGMasterPublicKey)
    (shares : list DKGPrivateShare) (prv : DKGPrivateShare) :
  (processPrivateShare
     (processPrivateShares (newDKGProtocol ID0 round0 threshold0) shares) prv).1
    <> Crash /\
  (processPrivateShare
     (processPrivateShares (processMasterPublicKeys d mpks).2 shares) prv).1
    <> Crash.
Proof.
  split.
  - apply processPrivateShare_no_crash.
    destruct (processPrivateShares_extends shares (newDKGProtocol ID0 round0 threshold0))
      as [new Hext].
    rewrite (ext_idMap _ _ _ _ Hext), (ext_mpkMap _ _ _ _ Hext).
    unfold newDKGProtocol. by destruct (NewPrivateKeyShares threshold0).
  - apply processPrivateShare_no_crash.
    destruct (processPrivateShares_extends shares (processMasterPublicKeys d mpks).2)
      as [new Hext].
    rewrite (ext_idMap _ _ _ _ Hext), (ext_mpkMap _ _ _ _ Hext).
    destruct (processMasterPublicKeys_participants d mpks) as (-> & -> & _). done.
Qed.

(** [X24] A nack that was answered is not enforced: once a valid private
    share from [to] for another node [from] has been processed,
    [enforceNackComplaints] makes no complaint for a nack by [from]
    against [to], whatever shares were processed in between. *)
Theorem answered_nack_is_not_enforced (d : dkgProtocol) (prv : DKGPrivateShare)
    (rid : TSig.ID) (mpk : PublicKeyShares) (later : list DKGPrivateShare)
    (c : DKGComplaint) :
  round d = prv_Round prv ->
  idMap d !! prv_ReceiverID prv = Some rid ->
  sanityCheck d prv = None ->
  mpkMap d !! prv_ProposerID prv = Some mpk ->
  VerifyPrvShare mpk rid (prv_PrivateShare prv) = LibOk true ->
  prv_ReceiverID prv <> ID d ->
  IsNack c = true ->
  cpl_ProposerID c = prv_ReceiverID prv ->
  accused c = prv_ProposerID prv ->
  let d' := processPrivateShares (processPrivateShare d prv).2 later in
  enforceNackComplaints d' [c] = d'.
Proof.
  intros Hround Hrid Hsane Hmpk Hok Hother Hnack Hfrom Hto d'.
  assert (Hin : prv_ProposerID prv ∈
                default ∅ (antiComplaintReceived (processPrivateShare d prv).2
                             !! prv_ReceiverID prv)).
  { unfold processPrivateShare. rewrite bool_decide_true by done. simpl.
    rewrite Hrid, Hsane, Hmpk, Hok.
    rewrite (bool_decide_false (prv_ReceiverID prv = ID d)) by done. simpl.
    rewrite (bool_decide_false (prv_ReceiverID prv = ID d)) by done. simpl.
    rewrite lookup_insert_eq. simpl. by apply elem_of_union_l, elem_of_singleton. }
  destruct (processPrivateShares_extends later (processPrivateShare d prv).2)
    as [calls Hext].
  apply (ext_anti _ _ _ _ Hext) in Hin. fold d' in Hin.
  unfold enforceNackComplaints. simpl. unfold enforceNackComplaint.
  rewrite Hnack. simpl.
  case_bool_decide; [done|]. case_bool_decide; [done|].
  rewrite Hfrom, Hto. by rewrite bool_decide_true by done.
Qed.

Lemma processNack_fold (complaints : list DKGComplaint) (err : option dkgError)
    (d : dkgProtocol) :
  let r := foldl processNackComplaint (err, d) complaints in
  let mine c := IsNack c && bool_decide (accused c = ID d) in
  let share c := idMap d !! cpl_ProposerID c ≫= PrvShare (masterPrivateShare d) in
  let answer c :=
    if mine c
    then (fun s =>
            ProposeDKGAntiNackComplaint
              {| prv_ProposerID := ID d; prv_ReceiverID := cpl_ProposerID c;
                 prv_Round := round d; prv_PrivateShare := s |}) <$> share c
    else None in
  recv r.2 = recv d ++ omap answer complaints /\
  (r.1 = None <->
   err = None /\ Forall (fun c => mine c = true -> is_Some (share c)) complaints) /\
  (forall e, r.1 = Some e ->
     err = Some e \/ e = ErrNotDKGParticipant \/ e = ErrIDShareNotFound).
Proof.
  revert err d. induction complaints as [|c complaints IH]; intros err d; simpl.
  - rewrite app_nil_r. split; [done|]. split; [|by eauto].
    split; [by intros ->|]. by intros [-> _].
  - destruct (IsNack c) eqn:Hnack; simpl.
    2:{ destruct (IH err d) as (Hrecv & Hiff & Herr). split; [done|].
        split; [|done]. rewrite Hiff, Forall_cons. rewrite Hnack. simpl.
        split; [intros [? ?]|intros [? [_ ?]]]; done. }
    case_bool_decide as Hme; simpl.
    2:{ destruct (IH err d) as (Hrecv & Hiff & Herr). split; [done|].
        split; [|done]. rewrite Hiff, Forall_cons. rewrite Hnack. simpl.
        rewrite bool_decide_false by done.
        split; [intros [? ?]|intros [? [_ ?]]]; done. }
    destruct (idMap d !! cpl_ProposerID c) as [id|] eqn:Hid; simpl.
    2:{ destruct (IH (Some ErrNotDKGParticipant) d) as (Hrecv & Hiff & Herr).
        split; [done|]. split.
        - rewrite Hiff, Forall_cons. rewrite Hnack. simpl.
          rewrite bool_decide_true by done.
          split; [by intros [? _]|]. intros [_ [Hsome _]].
          destruct (Hsome eq_refl) as [x Hx]. rewrite Hid in Hx. simpl in Hx.
          by rewrite ?Hs in Hx.
        - intros e He. destruct (Herr e He) as [[= <-]|?]; eauto. }
    destruct (PrvShare (masterPrivateShare d) id) as [s|] eqn:Hs; simpl.
    2:{ destruct (IH (Some ErrIDShareNotFound) d) as (Hrecv & Hiff & Herr).
        split; [done|]. split.
        - rewrite Hiff, Forall_cons. rewrite Hnack. simpl.
          rewrite bool_decide_true by done.
          split; [by intros [? _]|]. intros [_ [Hsome _]].
          destruct (Hsome eq_refl) as [x Hx]. rewrite Hid in Hx. simpl in Hx.
          by rewrite ?Hs in Hx.
        - intros e He. destruct (Herr e He) as [[= <-]|?]; eauto. }
    match goal with |- context [foldl processNackComplaint (err, ?d1) complaints] =>
      destruct (IH err d1) as (Hrecv & Hiff & Herr) end.
    simpl in Hrecv, Hiff. split.
    { rewrite Hrecv. by rewrite <- app_assoc. }
    split; [|done]. rewrite Hiff, Forall_cons. rewrite Hnack. simpl.
    rewrite bool_decide_true by done.
    split; [intros [? ?]|intros [? [_ ?]]]; [|done].
    split; [done|]. split; [|done]. intros _. rewrite Hid. simpl. rewrite Hs. eauto.
Qed.

(** [X25] [processNackComplaints] answers every nack against this node
    whose proposer is a participant with a share, in the order given, with
    an anti-nack complaint addressed to that proposer; a complaint it cannot
    answer does not stop the later ones from being answered, and it returns
    an error exactly when there was such a complaint. *)
Theorem processNackComplaints_answers_all (d : dkgProtocol)
    (complaints : list DKGComplaint) :
  let r := processNackComplaints d complaints in
  let mine c := IsNack c && bool_decide (accused c = ID d) in
  let share c := idMap d !! cpl_ProposerID c ≫= PrvShare (masterPrivateShare d) in
  let answer c :=
    if mine c
    then (fun s =>
            ProposeDKGAntiNackComplaint
              {| prv_ProposerID := ID d; prv_ReceiverID := cpl_ProposerID c;
                 prv_Round := round d; prv_PrivateShare := s |}) <$> share c
    else None in
  recv r.2 = recv d ++ omap answer complaints /\
  (r.1 = None <-> Forall (fun c => mine c = true -> is_Some (share c)) complaints) /\
  (forall e, r.1 = Some e -> e = ErrNotDKGParticipant \/ e = ErrIDShareNotFound).
Proof.
  intros r mine share answer.
  destruct (processNack_fold complaints None d) as (Hrecv & Hiff & Herr).
  split; [done|]. split.
  - subst r. unfold processNackComplaints. rewrite Hiff.
    split; [by intros [_ ?]|done].
  - intros e He. by destruct (Herr e He) as [?|?].
Qed.

End DKGProtocolFacts.

(** ** The further properties at work *)

Lemma exCache01_keys_match :
  @NodeSetCache.keys_match Examples.exTypes (NodeSetCache.keyPool Examples.exCache01).
Proof.
  intros n rec Hn.
  assert (Hall : map_Forall
            (fun (n : N) (rec : @NodeSetCache.keyRec Examples.exTypes) =>
               NodeSetCache.pubKey rec = n)
            (NodeSetCache.keyPool Examples.exCache01))
    by (apply (bool_decide_unpack _); vm_compute; exact I).
  exact (Hall n rec Hn).
Qed.

Lemma exCache01_uint64_rounds :
  @NodeSetCache.uint64_rounds Examples.exTypes Examples.exCache01.
Proof.
  intros r [s Hs].
  assert (Hall : map_Forall
            (fun (r : Z) (_ : NodeSetCache.sets) =>
               0 <= r < uint64_mod)
            (NodeSetCache.rounds Examples.exCache01))
    by (apply (bool_decide_unpack _); vm_compute; exact I).
  exact (Hall r s Hs).
Qed.

(** Purging for round 7 on the cache of rounds 0 and 1, in the order of
    the map and in the reverse order. *)
Lemma purge_order_irrelevant_witness :
  is_Some (@NodeSetCache.purgeRounds Examples.exTypes 7 Examples.exCache01
             (map_to_list (NodeSetCache.rounds Examples.exCache01))) /\
  @NodeSetCache.purgeRounds Examples.exTypes 7 Examples.exCache01
    (map_to_list (NodeSetCache.rounds Examples.exCache01)) =
  @NodeSetCache.purgeRounds Examples.exTypes 7 Examples.exCache01
    (reverse (map_to_list (NodeSetCache.rounds Examples.exCache01))).
Proof.
  apply (@purge_order_irrelevant Examples.exTypes 7 Examples.exCache01).
  - symmetry. apply reverse_Permutation.
  - exact (proj1 (reachable_consistent _ exCache01_reachable)).
  - intros n.
    rewrite (proj2 (reachable_consistent _ exCache01_reachable) n).
    unfold NodeSetCache.references.
    rewrite (holders_split 7 n (map_to_list (NodeSetCache.rounds Examples.exCache01))).
    pose proof (holders_nonneg n
      (filter (fun e => ~ NodeSetCache.purged 7 e)
         (map_to_list (NodeSetCache.rounds Examples.exCache01)))).
    lia.
Defined.

(** Updating round 6 on the cache of rounds 0 and 1: round 1 stays. *)
Lemma update_retains_window_witness :
  exists cache',
    (@NodeSetCache.update Examples.exTypes Examples.exGov Examples.exCache01 6).2 = cache' /\
    NodeSetCache.rounds cache' !! 1 = NodeSetCache.rounds Examples.exCache01 !! 1 /\
    NodeSetCache.rounds cache' !! 0 = None.
Proof.
  destruct (@update_retains_window Examples.exTypes Examples.exGov
              Examples.exCache01 6 [5; 6]%N)
    as (cache' & E & _ & Hkeep & Hgo).
  - exact (reachable_consistent _ exCache01_reachable).
  - reflexivity.
  - exists cache'. split; [by rewrite E|]. split.
    + apply Hkeep; [lia|]. vm_compute. discriminate.
    + apply Hgo. vm_compute. reflexivity.
Defined.

(** Every node of round 6 has its key in the pool. *)
Lemma GetNodeSet_members_have_keys_witness :
  exists key,
    @NodeSetCache.GetPublicKey Examples.exTypes
      (@NodeSetCache.GetNodeSet Examples.exTypes Examples.exGov Examples.exCache01 6).2
      5%N = Some key /\
    key = 5%N.
Proof.
  destruct (@GetNodeSet_members_have_keys Examples.exTypes Examples.exGov
              Examples.exCache01 6 {[5%N; 6%N]}
              (@NodeSetCache.GetNodeSet Examples.exTypes Examples.exGov
                 Examples.exCache01 6).2)
    as (_ & _ & Hkeys).
  - exact (reachable_consistent _ exCache01_reachable).
  - exact exCache01_keys_match.
  - exact exGov_distinct_keys.
  - vm_compute. reflexivity.
  - apply (Hkeys 5%N). apply (bool_decide_unpack _). vm_compute. exact I.
Defined.

(** After the update of round 6, at most six rounds are cached. *)
Lemma update_caches_at_most_six_witness :
  (size (NodeSetCache.rounds
           (@NodeSetCache.update Examples.exTypes Examples.exGov Examples.exCache01 6).2)
   <= 6)%nat.
Proof.
  destruct (@update_caches_at_most_six Examples.exTypes Examples.exGov
              Examples.exCache01 6 [5; 6]%N)
    as (_ & _ & Hsize).
  - exact (reachable_consistent _ exCache01_reachable).
  - exact exCache01_uint64_rounds.
  - unfold is_uint64, uint64_mod. lia.
  - reflexivity.
  - exact Hsize.
Defined.

(** Round 6 is not cached: node 5 is found, by asking the governance. *)
Lemma miss_answers_from_governance_witness :
  exists cache',
    @NodeSetCache.Exists Examples.exTypes Examples.exGov Examples.exCache01 6 5%N
      = (Ok true, cache').
Proof.
  destruct (@miss_answers_from_governance Examples.exTypes Examples.exGov
              Examples.exCache01 6 [5; 6]%N 5%N)
    as (cache' & _ & _ & HE & _).
  - exact (reachable_consistent _ exCache01_reachable).
  - vm_compute. reflexivity.
  - reflexivity.
  - exists cache'. rewrite HE. reflexivity.
Defined.

(** Round 7, once cached, is answered without the governance: here by one
    that publishes nothing but an empty round 2. *)
Lemma getOrUpdate_twice_witness :
  exists IDs cache',
    @NodeSetCache.getOrUpdate Examples.exTypes Examples.exGov Examples.exCache01 7
      = (Ok IDs, cache') /\
    @NodeSetCache.getOrUpdate Examples.exTypes Examples.exGovEmpty cache' 7
      = (Ok IDs, cache').
Proof.
  destruct (@NodeSetCache.getOrUpdate Examples.exTypes Examples.exGov
              Examples.exCache01 7) as [[IDs| |] cache'] eqn:E;
    [|vm_compute in E; discriminate E..].
  exists IDs, cache'. split; [reflexivity|].
  destruct (@getOrUpdate_twice Examples.exTypes Examples.exGov Examples.exGovEmpty
              Examples.exCache01 7 IDs cache') as (Hagain & _).
  - exact (reachable_consistent _ exCache01_reachable).
  - exact E.
  - exact Hagain.
Defined.

Lemma NewTSigVerifierCache_ordered (size0 : Z) :
  0 <= size0 -> @TSig.ordered Examples.exDKG (TSig.NewTSigVerifierCache size0).
Proof.
  intros Hsize. split; [|split].
  - intros k [gpk Hk]. simpl in Hk. by rewrite lookup_empty in Hk.
  - done.
  - simpl. rewrite map_size_empty. lia.
Qed.

(** Updating round 0 on a new cache of size 2 puts round 0 into it. *)
Lemma Update_keeps_shape_witness :
  exists res tc',
    @TSig.Update Examples.exDKG Examples.exHelpers Examples.exTSigGov
      (TSig.NewTSigVerifierCache 2) 0 = Some (res, tc') /\
    @TSig.ordered Examples.exDKG tc'.
Proof.
  destruct (@Update_keeps_shape Examples.exDKG Examples.exHelpers Examples.exTSigGov
              (TSig.NewTSigVerifierCache 2) 0)
    as (res & tc' & E & Hord & _).
  - apply NewTSigVerifierCache_ordered. lia.
  - simpl. lia.
  - exists res, tc'. split; [exact E | exact Hord].
Defined.

(** Round 1 is not final: the update leaves the cache as it was. *)
Lemma Update_changes_only_on_insert_witness :
  exists res tc',
    @TSig.Update Examples.exDKG Examples.exHelpers Examples.exTSigGov
      (TSig.NewTSigVerifierCache 2) 1 = Some (res, tc') /\
    tc' = TSig.NewTSigVerifierCache 2.
Proof.
  destruct (@TSig.Update Examples.exDKG Examples.exHelpers Examples.exTSigGov
              (TSig.NewTSigVerifierCache 2) 1) as [[res tc']|] eqn:E;
    [|vm_compute in E; discriminate E].
  exists res, tc'. split; [reflexivity|].
  destruct (@Update_changes_only_on_insert Examples.exDKG Examples.exHelpers
              Examples.exTSigGov (TSig.NewTSigVerifierCache 2) 1 res tc' E)
    as [Hsame|(_ & _ & _ & Hfinal & _)].
  - exact Hsame.
  - vm_compute in Hfinal. discriminate Hfinal.
Defined.

(** A cache of size 0 asked for the final round 0. *)
Lemma Update_size_zero_never_returns_witness :
  @TSig.Update Examples.exDKG Examples.exHelpers Examples.exTSigGov
    (TSig.NewTSigVerifierCache 0) 0 = None.
Proof.
  destruct (@TSig.NewDKGGroupPublicKey Examples.exDKG Examples.exHelpers 0
              Examples.exMpks [Examples.exNack]
              (@TSig.updateThreshold Examples.exDKG Examples.exTSigGov 0))
    as [gpk| |] eqn:E; [|vm_compute in E; discriminate E..].
  destruct (@Update_size_zero_never_returns Examples.exDKG Examples.exHelpers
              Examples.exTSigGov (TSig.NewTSigVerifierCache 0) 0 gpk)
    as (Hnone & _).
  - simpl. lia.
  - reflexivity.
  - simpl. lia.
  - reflexivity.
  - exact E.
  - exact Hnone.
Defined.

(** A cache of size 2 asked for the final round 0: the group key has
    threshold 7 / 3 + 1. *)
Lemma UpdateAndGet_returns_group_key_witness :
  exists gpk tc',
    @TSig.UpdateAndGet Examples.exDKG Examples.exHelpers Examples.exTSigGov
      (TSig.NewTSigVerifierCache 2) 0 = Some (Ok (Some gpk), tc') /\
    TSig.threshold gpk = 3.
Proof.
  destruct (@TSig.NewDKGGroupPublicKey Examples.exDKG Examples.exHelpers 0
              Examples.exMpks [Examples.exNack] (7 / 3 + 1))
    as [gpk| |] eqn:E; [|vm_compute in E; discriminate E..].
  destruct (@UpdateAndGet_returns_group_key Examples.exDKG Examples.exHelpers
              Examples.exTSigGov (TSig.NewTSigVerifierCache 2) 0 gpk)
    as (tc' & Hget & _ & Hthr & _).
  - apply NewTSigVerifierCache_ordered. lia.
  - simpl. lia.
  - simpl. lia.
  - reflexivity.
  - reflexivity.
  - exact E.
  - exists gpk, tc'. split; [exact Hget|]. rewrite Hthr. reflexivity.
Defined.

(** The group key of the three master public keys under the nack. *)
Lemma NewDKGGroupPublicKey_maps_agree_witness :
  exists gpk,
    @TSig.NewDKGGroupPublicKey Examples.exDKG Examples.exHelpers 0
      Examples.exMpks [Examples.exNack] 3 = Ok gpk /\
    dom (TSig.publicKeys gpk) = TSig.qualifyNodeIDs gpk.
Proof.
  destruct (@TSig.NewDKGGroupPublicKey Examples.exDKG Examples.exHelpers 0
              Examples.exMpks [Examples.exNack] 3)
    as [gpk| |] eqn:E; [|vm_compute in E; discriminate E..].
  exists gpk. split; [reflexivity|].
  destruct (@NewDKGGroupPublicKey_maps_agree Examples.exDKG Examples.exHelpers 0
              Examples.exMpks [Examples.exNack] 3 gpk)
    as (_ & Hdom & _).
  - apply (bool_decide_unpack _). vm_compute. exact I.
  - exact E.
  - exact Hdom.
Defined.

(** A partial signature of node 9, which proposed no master public key. *)
Lemma processPartialSignature_qualified_witness :
  exists gpk,
    @TSig.NewDKGGroupPublicKey Examples.exDKG Examples.exHelpers 0
      Examples.exMpks [Examples.exNack] 3 = Ok gpk /\
    (@TSig.processPartialSignature Examples.exDKG Examples.exHelpers
       (TSig.newTSigProtocol gpk 5%N)
       (@TSig.mkPSig Examples.exDKG 9%N 0 5%N 16%N 9%N)).1
    = Ok (Some ErrNotQualifyDKGParticipant).
Proof.
  destruct (@TSig.NewDKGGroupPublicKey Examples.exDKG Examples.exHelpers 0
              Examples.exMpks [Examples.exNack] 3)
    as [gpk| |] eqn:E; [|vm_compute in E; discriminate E..].
  exists gpk. split; [reflexivity|].
  destruct (@processPartialSignature_qualified Examples.exDKG Examples.exHelpers 0
              Examples.exMpks [Examples.exNack] 3 gpk (TSig.newTSigProtocol gpk 5%N)
              (@TSig.mkPSig Examples.exDKG 9%N 0 5%N 16%N 9%N))
    as (_ & Hq).
  - apply (bool_decide_unpack _). vm_compute. exact I.
  - exact E.
  - reflexivity.
  - apply Hq; [reflexivity|].
    vm_compute in E. injection E as <-.
    apply (bool_decide_unpack _). vm_compute. exact I.
Defined.

(** The orchestrator of node 1 over seven nodes has four receivers. *)
Lemma NewConsensus_builds_witness :
  exists con,
    @Consensus.NewConsensus Examples.exTypes Examples.exModules Examples.exConGov [] 1%N
      = Ok con /\
    Consensus.round con = 0 /\
    length (Consensus.receivers con) = 4%nat.
Proof.
  destruct (@Consensus.NewConsensus Examples.exTypes Examples.exModules
              Examples.exConGov [] 1%N) as [con| |] eqn:E;
    [|vm_compute in E; discriminate E..].
  exists con. split; [reflexivity|].
  destruct (@NewConsensus_builds Examples.exTypes Examples.exModules
              Examples.exConGov [] 1%N) as (_ & Hok).
  destruct (Hok con E) as (keySet & s & _ & _ & Hround & _ & _ & Hrecv & _).
  split; [exact Hround|]. rewrite Hrecv. reflexivity.
Defined.

(** The orchestrator of node 1 over seven nodes: node 9 is no member,
    node 1 is. *)
Lemma ProcessWitnessAck_after_NewConsensus_witness :
  exists con,
    @Consensus.NewConsensus Examples.exTypes Examples.exModules Examples.exConGov [] 1%N
      = Ok con /\
    @Consensus.ProcessWitnessAck Examples.exTypes Examples.exModules Examples.exConGov
      con (Consensus.mkWitnessAck 9%N 7%N 8%N 9%N)
    = (Ok (Some ErrProposerNotInNodeSet), con).
Proof.
  destruct (@Consensus.NewConsensus Examples.exTypes Examples.exModules
              Examples.exConGov [] 1%N) as [con| |] eqn:E;
    [|vm_compute in E; discriminate E..].
  exists con. split; [reflexivity|].
  destruct (@ProcessWitnessAck_after_NewConsensus Examples.exTypes Examples.exModules
              Examples.exConGov Examples.exConGov [] 1%N [1; 2; 3; 4; 5; 6; 7]%N con
              (Consensus.mkWitnessAck 9%N 7%N 8%N 9%N))
    as (Hout & _).
  - reflexivity.
  - exact E.
  - apply Hout. apply (bool_decide_unpack _). vm_compute. exact I.
Defined.

(** Node 1 got a wrong share from node 3: it complains about node 3, and
    does not nack it afterwards. *)
Lemma received_share_is_not_nacked_witness :
  3%N ∉
  @DKGProtocol.complaintTargets Examples.exDKG
    (drop
       (length
          (DKGProtocol.recv
             (@DKGProtocol.processPrivateShares Examples.exDKG Examples.exPrvLib
                (@DKGProtocol.processPrivateShare Examples.exDKG Examples.exPrvLib
                   Examples.exProtocol Examples.exShare31).2
                [Examples.exShare21])))
       (DKGProtocol.recv
          (@DKGProtocol.proposeNackComplaints Examples.exDKG Examples.exPrvLib
             (@DKGProtocol.processPrivateShares Examples.exDKG Examples.exPrvLib
                (@DKGProtocol.processPrivateShare Examples.exDKG Examples.exPrvLib
                   Examples.exProtocol Examples.exShare31).2
                [Examples.exShare21])))).
Proof.
  apply (@received_share_is_not_nacked Examples.exDKG
           Examples.exPrvLib Examples.exProtocol Examples.exShare31
           [Examples.exShare21]).
  - reflexivity.
  - reflexivity.
  - vm_compute. eauto.
  - vm_compute. reflexivity.
  - vm_compute. reflexivity.
Defined.

(** Node 1 saw the share of node 2 for node 3: it does not enforce the
    nack of node 3 against node 2. *)
Lemma answered_nack_is_not_enforced_witness :
  @DKGProtocol.enforceNackComplaints Examples.exDKG Examples.exHelpers Examples.exPrvLib
    (@DKGProtocol.processPrivateShares Examples.exDKG Examples.exPrvLib
       (@DKGProtocol.processPrivateShare Examples.exDKG Examples.exPrvLib
          Examples.exProtocol Examples.exShare23).2
       [Examples.exShare21])
    [Examples.exNack]
  = @DKGProtocol.processPrivateShares Examples.exDKG Examples.exPrvLib
      (@DKGProtocol.processPrivateShare Examples.exDKG Examples.exPrvLib
         Examples.exProtocol Examples.exShare23).2
      [Examples.exShare21].
Proof.
  apply (@answered_nack_is_not_enforced Examples.exDKG Examples.exHelpers
           Examples.exPrvLib Examples.exProtocol Examples.exShare23 103%N 20%N
           [Examples.exShare21] Examples.exNack).
  - reflexivity.
  - vm_compute. reflexivity.
  - vm_compute. reflexivity.
  - vm_compute. reflexivity.
  - vm_compute. reflexivity.
  - vm_compute. discriminate.
  - vm_compute. reflexivity.
  - reflexivity.
  - reflexivity.
Defined.
